(** * ColorPalette: the colour-clustering pipeline of
      lib/getColorPalette.ts and js/getColorPalette.js

    Numbers.  A JavaScript [number] that the pipeline receives as a parameter
    (paletteSize, sampleStep, nearDuplicateThreshold) is a finite rational
    [Q]; NaN and the infinities as parameters are outside this development.
    Channel
    values, sums, counts and populations are integers [Z]: every one of them
    stays far below 2^53, so the double arithmetic of the source is exact on
    them.  A quotient of two such integers is kept as an exact rational;
    [Math.round] of it agrees with the double computation because a quotient
    with denominator [d] that is not a half-integer is at least [1/(2d)] away
    from one.  [Math.sqrt] is the one operation of the pipeline whose
    rounding can decide a comparison ([dist <= threshold]); it is modelled
    with its rounding, as the double nearest to the root ([Math_sqrt]).

    Sources.  Line numbers of lib/getColorPalette.ts are those of its
    listing src/unnamed/part_001, which opens with a 13-line revision of
    lib/paletteConfig.ts; line numbers of js/getColorPalette.js are those of
    that file.  The helpers [rgbToHex], [srgbToLuminance], [contrastRatio],
    [bestTextColor], [colorDistance] and [mergeSimilarColors] have the same
    body in both files and are embedded once, on integer channels.  Only
    the loop of js/getColorPalette.js can leave the pixel grid and read
    [undefined]; what that file does from there on, with NaN in its sums,
    is the module [JSNaN].

    The part of [getColorPaletteFromImageElement] that talks to the DOM
    (loading the image, drawing it on a canvas) is the caller's: the
    embedding starts at [const data = imageData.data]. *)

From Stdlib Require Import ZArith QArith Qround List String Ascii Bool Lia.
From Stdlib Require Import Permutation Reals Qreals Psatz.
Import ListNotations.

Local Open Scope Z_scope.

(** ** JavaScript built-ins used by the pipeline *)

(** [Math.floor] on a finite number. *)
Definition Math_floor (x : Q) : Z := Qfloor x.

(** [Math.round]: the integer nearest to [x], halves going up. *)
Definition Math_round (x : Q) : Z := Qfloor (x + (1 # 2))%Q.

(** [Math.sqrt] on an integer [n] below 2^53, as IEEE 754 defines it: the
    double nearest to the square root.  With [e] the binary exponent of the
    root ([2^e <= sqrt n < 2^(e+1)]), the doubles around the root are the
    multiples of [2^(e-52)]; [s] is the root of [n * 4^(52-e)] rounded
    down, and [m] is that root rounded to the nearest integer (the root of
    an integer is never half-way between two integers).  A negative [n]
    does not occur: the argument is a sum of squares. *)
Definition Math_sqrt (n : Z) : Q :=
  if n <=? 0 then 0%Q
  else
    let e := Z.log2 n / 2 in
    let k := 52 - e in
    let N := n * 4 ^ k in
    let s := Z.sqrt N in
    let m := if s * s + s <? N then s + 1 else s in
    Qmake m (Z.to_pos (2 ^ k)).

(** [ToIntegerOrInfinity] on a finite number: truncation towards zero. *)
Definition ToInteger (x : Q) : Z :=
  if Qle_bool 0 x then Qfloor x else Qceiling x.

(** [arr.slice(0, end)] for an [end] already converted to an integer: a
    negative [end] counts from the back of the array. *)
Definition Array_slice0 {A : Type} (arr : list A) (end_ : Z) : list A :=
  let len := Z.of_nat (List.length arr) in
  let final := if end_ <? 0 then Z.max (len + end_) 0 else Z.min end_ len in
  firstn (Z.to_nat final) arr.

(** [data[i]] on the typed array: [None] is JavaScript's [undefined], which
    is what an index outside [0 .. length-1] reads. *)
Definition data_get (data : list Z) (i : Z) : option Z :=
  if i <? 0 then None else nth_error data (Z.to_nat i).

(** What [ctx.getImageData] hands over: a [Uint8ClampedArray] of whole RGBA
    pixels. *)
Definition isImageData (data : list Z) : bool :=
  (Z.of_nat (List.length data) mod 4 =? 0)
  && forallb (fun v => (0 <=? v) && (v <=? 255)) data.

(** ** Data model *)

(** The accumulator stored in [colorMap]. *)
Record Entry : Set := mkEntry
  { count : Z; rSum : Z; gSum : Z; bSum : Z }.

(** [interface RawColor]; [percentage] is the optional field. *)
Record RawColor : Set := mkRawColor
  { r : Z; g : Z; b : Z; population : Z; percentage : option Q }.

(** A JavaScript [Map] with integer keys, in insertion order. *)
Definition ColorMap : Set := list (Z * Entry).

Fixpoint Map_get (m : ColorMap) (key : Z) : option Entry :=
  match m with
  | [] => None
  | (k, e) :: m' => if k =? key then Some e else Map_get m' key
  end.

(** [Map.prototype.set]: an existing key keeps its place, a new key goes to
    the end. *)
Fixpoint Map_set (m : ColorMap) (key : Z) (e : Entry) : ColorMap :=
  match m with
  | [] => [(key, e)]
  | (k, e0) :: m' =>
      if k =? key then (k, e) :: m' else (k, e0) :: Map_set m' key e
  end.

Definition Map_values (m : ColorMap) : list Entry := map snd m.

(** ** Sampling and bucketing (getColorPalette.ts, lines 93-118) *)

(** The three ways a run of the sampling loop is accounted for: it left the
    loop, it was cut off by the fuel of the model, or it read an
    [undefined] channel (impossible on image data, see [isImageData]). *)
Inductive Outcome (A : Type) : Type :=
  | Finished (a : A)
  | OutOfFuel
  | UndefinedRead.
Arguments Finished {A} a.
Arguments OutOfFuel {A}.
Arguments UndefinedRead {A}.

Definition Outcome_map {A B : Type} (f : A -> B) (o : Outcome A) : Outcome B :=
  match o with
  | Finished a => Finished (f a)
  | OutOfFuel => OutOfFuel
  | UndefinedRead => UndefinedRead
  end.

(** Loop state: [colorMap] and [totalSamples]. *)
Definition LoopState : Set := (ColorMap * Z)%type.

Definition quantKey (r g b : Z) : Z :=
  let qr := Z.shiftr r 4 in
  let qg := Z.shiftr g 4 in
  let qb := Z.shiftr b 4 in
  Z.lor (Z.lor (Z.shiftl qr 8) (Z.shiftl qg 4)) qb.

(** Lines 104-117: one accepted pixel. *)
Definition accumulate (st : LoopState) (r g b : Z) : LoopState :=
  let '(colorMap, totalSamples) := st in
  let key := quantKey r g b in
  let entry :=
    match Map_get colorMap key with
    | Some e => e
    | None => mkEntry 0 0 0 0
    end in
  let entry := mkEntry (count entry + 1) (rSum entry + r)
                       (gSum entry + g) (bSum entry + b) in
  (Map_set colorMap key entry, totalSamples + 1).

Definition emptyState : LoopState := ([], 0).

(** ** From buckets to colours (lines 122-134) *)

(** The callback of [Array.from(colorMap.values()).map(...)]. *)
Definition averaged (entry : Entry) : RawColor :=
  let r := Math_round (inject_Z (rSum entry) / inject_Z (count entry)) in
  let g := Math_round (inject_Z (gSum entry) / inject_Z (count entry)) in
  let b := Math_round (inject_Z (bSum entry) / inject_Z (count entry)) in
  mkRawColor r g b (count entry) None.

(** [colors.sort((a, b) => b.population - a.population)]: the stable sort
    by descending population (insertion from the right keeps equal
    populations in their order). *)
Fixpoint insertByPopulation (c : RawColor) (sorted : list RawColor)
    : list RawColor :=
  match sorted with
  | [] => [c]
  | x :: rest =>
      if population x <=? population c then c :: x :: rest
      else x :: insertByPopulation c rest
  end.

Definition sortByPopulation (colors : list RawColor) : list RawColor :=
  fold_right insertByPopulation [] colors.

(** ** Near-duplicate merging (lines 237-279) *)

(** Lines 237-242.  The differences, their squares and the sum are
    integers and exact; the distance is the double [Math.sqrt] returns. *)
Definition colorDistance (c1 c2 : RawColor) : Q :=
  let dr := r c1 - r c2 in
  let dg := g c1 - g c2 in
  let db := b c1 - b c2 in
  Math_sqrt (dr * dr + dg * dg + db * db).

(** Lines 252-254: [dist = colorDistance(color, cluster)] and the test
    [dist <= threshold]. *)
Definition withinThreshold (color cluster : RawColor) (threshold : Q) : bool :=
  let dist := colorDistance color cluster in
  Qle_bool dist threshold.

(** Lines 255-266: the cluster after it has taken [color] in. *)
Definition absorb (cluster color : RawColor) : RawColor :=
  let totalPop := population cluster + population color in
  let newR := Math_round
    (inject_Z (r cluster * population cluster + r color * population color)
     / inject_Z totalPop) in
  let newG := Math_round
    (inject_Z (g cluster * population cluster + g color * population color)
     / inject_Z totalPop) in
  let newB := Math_round
    (inject_Z (b cluster * population cluster + b color * population color)
     / inject_Z totalPop) in
  mkRawColor newR newG newB totalPop None.

(** The inner [for] loop over [merged]: [Some] of the updated array when a
    cluster was found ([foundCluster = true]), [None] otherwise. *)
Fixpoint scanClusters (merged : list RawColor) (color : RawColor)
    (threshold : Q) : option (list RawColor) :=
  match merged with
  | [] => None
  | cluster :: rest =>
      if withinThreshold color cluster threshold
      then Some (absorb cluster color :: rest)
      else option_map (cons cluster) (scanClusters rest color threshold)
  end.

(** The body of the outer loop. *)
Definition mergeOne (threshold : Q) (merged : list RawColor)
    (color : RawColor) : list RawColor :=
  match scanClusters merged color threshold with
  | Some merged' => merged'
  | None => merged ++ [color]
  end.

Definition mergeSimilarColors (colors : list RawColor) (threshold : Q)
    : list RawColor :=
  fold_left (mergeOne threshold) colors [].

(** Lines 136-138. *)
Definition mergeStep (colors : list RawColor) (nearDuplicateThreshold : Q)
    : list RawColor :=
  if Qlt_le_dec 0 nearDuplicateThreshold
  then mergeSimilarColors colors nearDuplicateThreshold
  else colors.

(** ** Ranking (lines 140-146) *)

(** Line 140: [mergedTotalPopulation]. *)
Definition totalPopulation (colors : list RawColor) : Z :=
  fold_left (fun sum c => sum + population c) colors 0.

(** Lines 141-143: the assignment to [c.percentage]. *)
Definition withPercentage (mergedTotalPopulation : Z) (c : RawColor)
    : RawColor :=
  mkRawColor (r c) (g c) (b c) (population c)
    (Some (if 0 <? mergedTotalPopulation
           then inject_Z (population c) / inject_Z mergedTotalPopulation
           else 0)%Q).

Definition assignPercentages (colors : list RawColor) : list RawColor :=
  map (withPercentage (totalPopulation colors)) colors.

(** ** Formatting (lines 195-205) *)

Definition hexDigits : list ascii :=
  ["0"; "1"; "2"; "3"; "4"; "5"; "6"; "7";
   "8"; "9"; "a"; "b"; "c"; "d"; "e"; "f"]%char.

Definition digitChar (d : Z) : ascii := nth (Z.to_nat d) hexDigits "0"%char.

(** The hexadecimal digits of a non-negative integer, most significant
    first, written in front of [acc]. *)
Fixpoint digits16 (fuel : nat) (n : Z) (acc : string) : string :=
  let acc' := String (digitChar (n mod 16)) acc in
  match fuel with
  | O => acc'
  | S fuel' => if n / 16 =? 0 then acc' else digits16 fuel' (n / 16) acc'
  end.

(** [value.toString(16)] on an integer. *)
Definition Number_toString16 (value : Z) : string :=
  if value <? 0
  then ("-" ++ digits16 (Z.to_nat (Z.log2 (- value))) (- value) "")%string
  else digits16 (Z.to_nat (Z.log2 value)) value "".

Definition rgbToHex (r g b : Z) : string :=
  ("#" ++ String.concat ""
     (map (fun value =>
             let hex := Number_toString16 value in
             if (String.length hex =? 1)%nat then "0" ++ hex else hex)
          [r; g; b]))%string.

Module PaletteColor.
(** [interface PaletteColor]. *)
Record t : Type := mk
  { paletteColor : string;
    textColor : string;
    population : Z;
    percentage : Q }.
End PaletteColor.

(** ** Contrast (lines 207-235)

    The luminance computation is carried out on real numbers: [Math.pow]
    with exponent 2.4 is [Rpower], whose base is positive wherever the
    source reaches it. *)

Module Contrast.
Local Open Scope R_scope.

Definition channelToLinear (c : Z) : R :=
  let cs := IZR c / 255 in
  if Rle_dec cs 0.03928 then cs / 12.92
  else Rpower ((cs + 0.055) / 1.055) 2.4.

Definition srgbToLuminance (r g b : Z) : R :=
  let R := channelToLinear r in
  let G := channelToLinear g in
  let B := channelToLinear b in
  0.2126 * R + 0.7152 * G + 0.0722 * B.

Definition contrastRatio (L1 L2 : R) : R :=
  let lighter := Rmax L1 L2 in
  let darker := Rmin L1 L2 in
  (lighter + 0.05) / (darker + 0.05).

Definition bestTextColor (r g b : Z) : string :=
  let bgL := srgbToLuminance r g b in
  let whiteL := srgbToLuminance 255 255 255 in
  let blackL := srgbToLuminance 0 0 0 in
  let contrastWithWhite := contrastRatio bgL whiteL in
  let contrastWithBlack := contrastRatio bgL blackL in
  if Rge_dec contrastWithWhite contrastWithBlack
  then "#FFFFFF"%string else "#000000"%string.

End Contrast.

(** ** Stages shared by both files *)

(** Lines 122-134: [colors] before merging. *)
Definition bucketColors (colorMap : ColorMap) : list RawColor :=
  sortByPopulation (map averaged (Map_values colorMap)).

(** Lines 140-145: [colors] after the second sort. *)
Definition rankedColors (colorMap : ColorMap) (nearDuplicateThreshold : Q)
    : list RawColor :=
  let colors := bucketColors colorMap in
  let colors := mergeStep colors nearDuplicateThreshold in
  let colors := assignPercentages colors in
  sortByPopulation colors.

(** ** The TypeScript pipeline, from the pixel buffer on
       (lib/getColorPalette.ts, lines 92-157) *)

Module TS.

(** The increment of the loop header,
    [4 * Math.max(1, Math.floor(sampleStep))]. *)
Definition stride (sampleStep : Q) : Z :=
  4 * Z.max 1 (Math_floor sampleStep).

(** [for (let i = 0; i < data.length; i += stride) { ... }], one unit of
    fuel per iteration. *)
Fixpoint sampleLoop (fuel : nat) (data : list Z) (inc : Z) (i : Z)
    (st : LoopState) : Outcome LoopState :=
  if i <? Z.of_nat (List.length data) then
    match fuel with
    | O => OutOfFuel
    | S fuel' =>
        match data_get data i, data_get data (i + 1),
              data_get data (i + 2), data_get data (i + 3) with
        | Some r, Some g, Some b, Some a =>
            if a <? 128 then sampleLoop fuel' data inc (i + inc) st
            else sampleLoop fuel' data inc (i + inc) (accumulate st r g b)
        | _, _, _, _ => UndefinedRead
        end
    end
  else Finished st.

Definition sample (data : list Z) (sampleStep : Q) : Outcome LoopState :=
  sampleLoop (List.length data) data (stride sampleStep) 0 emptyState.

(** [colors] after lines 136-138: the clusters. *)
Definition clusters (data : list Z) (sampleStep nearDuplicateThreshold : Q)
    : Outcome (list RawColor) :=
  Outcome_map
    (fun st => mergeStep (bucketColors (fst st)) nearDuplicateThreshold)
    (sample data sampleStep).

(** Line 146. *)
Definition limitedColors (colorMap : ColorMap)
    (paletteSize nearDuplicateThreshold : Q) : list RawColor :=
  Array_slice0 (rankedColors colorMap nearDuplicateThreshold)
    (Z.max 1 (Math_floor paletteSize)).

(** Lines 148-157. *)
Definition toPaletteColor (c : RawColor) : PaletteColor.t :=
  let hex := rgbToHex (r c) (g c) (b c) in
  let textColor := Contrast.bestTextColor (r c) (g c) (b c) in
  PaletteColor.mk hex textColor (population c)
    (match percentage c with Some p => p | None => 0%Q end).

(** [getColorPaletteFromImageElement] once [imageData.data] is at hand;
    [maxResolution] only shapes the canvas the buffer is read from. *)
Definition getColorPaletteFromImageElement (data : list Z)
    (paletteSize sampleStep nearDuplicateThreshold : Q)
    : Outcome (list PaletteColor.t) :=
  match sample data sampleStep with
  | Finished (colorMap, totalSamples) =>
      if totalSamples =? 0 then Finished []
      else Finished (map toPaletteColor
                       (limitedColors colorMap paletteSize
                          nearDuplicateThreshold))
  | OutOfFuel => OutOfFuel
  | UndefinedRead => UndefinedRead
  end.

End TS.

(** ** The JavaScript pipeline, from the pixel buffer on
       (js/getColorPalette.js, lines 118-207) *)

Module JS.

(** [data[i]] for a loop counter that need not be an integer: a fractional
    index reads [undefined]. *)
Definition data_getQ (data : list Z) (i : Q) : option Z :=
  if Qeq_bool i (inject_Z (Qfloor i)) then data_get data (Qfloor i) else None.

(** The object stored under [key], changed in place. *)
Fixpoint Map_modify (m : ColorMap) (key : Z) (f : Entry -> Entry) : ColorMap :=
  match m with
  | [] => []
  | (k, e) :: m' =>
      if k =? key then (k, f e) :: m' else (k, e) :: Map_modify m' key f
  end.

(** Lines 136-153: [entry] is the object held by the map (put there first
    when the key is new), and the three increments act on that object. *)
Definition accumulate (st : LoopState) (r g b : Z) : LoopState :=
  let '(colorMap, totalSamples) := st in
  let key := quantKey r g b in
  let colorMap :=
    match Map_get colorMap key with
    | Some _ => colorMap
    | None => Map_set colorMap key (mkEntry 0 0 0 0)
    end in
  (Map_modify colorMap key
     (fun entry => mkEntry (count entry + 1) (rSum entry + r)
                           (gSum entry + g) (bSum entry + b)),
   totalSamples + 1).

(** [for (let i = 0; i < data.length; i += 4 * sampleStep) { ... }].  This
    model follows the loop as long as every channel it reads is there, and
    stops with [UndefinedRead] at the first one that is not; [JSNaN] below
    follows the source beyond that point. *)
Fixpoint sampleLoop (fuel : nat) (data : list Z) (inc : Q) (i : Q)
    (st : LoopState) : Outcome LoopState :=
  if negb (Qle_bool (inject_Z (Z.of_nat (List.length data))) i) then
    match fuel with
    | O => OutOfFuel
    | S fuel' =>
        match data_getQ data i, data_getQ data (i + 1),
              data_getQ data (i + 2), data_getQ data (i + 3) with
        | Some r, Some g, Some b, Some a =>
            if a <? 128 then sampleLoop fuel' data inc (i + inc)%Q st
            else sampleLoop fuel' data inc (i + inc)%Q (accumulate st r g b)
        | _, _, _, _ => UndefinedRead
        end
    end
  else Finished st.

Definition sample (fuel : nat) (data : list Z) (sampleStep : Q)
    : Outcome LoopState :=
  sampleLoop fuel data (4 * sampleStep)%Q 0%Q emptyState.

(** Line 193: [colors.slice(0, paletteSize)]. *)
Definition limitedColors (colorMap : ColorMap)
    (paletteSize nearDuplicateThreshold : Q) : list RawColor :=
  Array_slice0 (rankedColors colorMap nearDuplicateThreshold)
    (ToInteger paletteSize).

(** Lines 196-205; [c.percentage] has been assigned on every colour by the
    [forEach] of line 187. *)
Definition toPaletteColor (c : RawColor) : PaletteColor.t :=
  let hex := rgbToHex (r c) (g c) (b c) in
  let textColor := Contrast.bestTextColor (r c) (g c) (b c) in
  PaletteColor.mk hex textColor (population c)
    (match percentage c with Some p => p | None => 0%Q end).

(** The loop of this file need not end, so the fuel is an argument. *)
Definition getColorPaletteFromImageElement (fuel : nat) (data : list Z)
    (paletteSize sampleStep nearDuplicateThreshold : Q)
    : Outcome (list PaletteColor.t) :=
  match sample fuel data sampleStep with
  | Finished (colorMap, totalSamples) =>
      if totalSamples =? 0 then Finished []
      else Finished (map toPaletteColor
                       (limitedColors colorMap paletteSize
                          nearDuplicateThreshold))
  | OutOfFuel => OutOfFuel
  | UndefinedRead => UndefinedRead
  end.

End JS.

(** ** js/getColorPalette.js past an undefined read

    [JS.sampleLoop] stops where a channel reads [undefined].  The source
    goes on: [undefined < 128] is false, so the pixel is accepted;
    [undefined >> 4] is 0; and a sum that takes [undefined] in is NaN and
    stays NaN.  The loop gets there when its counter leaves the pixel grid,
    which a [sampleStep] that is not an integer brings about.  This module
    follows lines 118-207 and the helpers of the file once more, with
    channel values that may be NaN.  Where
    [JS.getColorPaletteFromImageElement] returns a palette or runs out of
    fuel, this model does the same ([JSNaN_refines_JS]).

    The loop counter is an exact rational here as well; it is the double of
    the source as long as the multiples of [4 * sampleStep] are doubles,
    as they are for [sampleStep = 1/2]. *)

Module JSNaN.

(** A channel value, a sum of channel values or a rounded average: an
    integer, or NaN. *)
Inductive Number : Set :=
  | Int (z : Z)
  | NaN.

(** [ToNumber] of what [data[i]] reads: [undefined] becomes NaN. *)
Definition ToNumber (v : option Z) : Number :=
  match v with Some z => Int z | None => NaN end.

(** [ToInt32] of what [data[i]] reads, for [>>]: [undefined] becomes 0. *)
Definition ToInt32 (v : option Z) : Z :=
  match v with Some z => z | None => 0 end.

(** [v < n] for what [data[i]] reads: false for [undefined]. *)
Definition lessThan (v : option Z) (n : Z) : bool :=
  match v with Some z => z <? n | None => false end.

Definition add (x y : Number) : Number :=
  match x, y with Int a, Int b => Int (a + b) | _, _ => NaN end.

Definition sub (x y : Number) : Number :=
  match x, y with Int a, Int b => Int (a - b) | _, _ => NaN end.

Definition mul (x y : Number) : Number :=
  match x, y with Int a, Int b => Int (a * b) | _, _ => NaN end.

(** [Math.round(x / d)] for an integer [d]. *)
Definition roundedQuotient (x : Number) (d : Z) : Number :=
  match x with
  | Int a => Int (Math_round (inject_Z a / inject_Z d))
  | NaN => NaN
  end.

Record Entry : Set := mkEntry
  { count : Z; rSum : Number; gSum : Number; bSum : Number }.

Record RawColor : Set := mkRawColor
  { r : Number; g : Number; b : Number; population : Z;
    percentage : option Q }.

Definition ColorMap : Set := list (Z * Entry).

Fixpoint Map_get (m : ColorMap) (key : Z) : option Entry :=
  match m with
  | [] => None
  | (k, e) :: m' => if k =? key then Some e else Map_get m' key
  end.

Fixpoint Map_set (m : ColorMap) (key : Z) (e : Entry) : ColorMap :=
  match m with
  | [] => [(key, e)]
  | (k, e0) :: m' =>
      if k =? key then (k, e) :: m' else (k, e0) :: Map_set m' key e
  end.

Fixpoint Map_modify (m : ColorMap) (key : Z) (f : Entry -> Entry) : ColorMap :=
  match m with
  | [] => []
  | (k, e) :: m' =>
      if k =? key then (k, f e) :: m' else (k, e) :: Map_modify m' key f
  end.

Definition LoopState : Set := (ColorMap * Z)%type.

Definition emptyState : LoopState := ([], 0).

(** Lines 136-153. *)
Definition accumulate (st : LoopState) (r g b : option Z) : LoopState :=
  let '(colorMap, totalSamples) := st in
  let key := quantKey (ToInt32 r) (ToInt32 g) (ToInt32 b) in
  let colorMap :=
    match Map_get colorMap key with
    | Some _ => colorMap
    | None => Map_set colorMap key (mkEntry 0 (Int 0) (Int 0) (Int 0))
    end in
  (Map_modify colorMap key
     (fun entry => mkEntry (count entry + 1)
                           (add (rSum entry) (ToNumber r))
                           (add (gSum entry) (ToNumber g))
                           (add (bSum entry) (ToNumber b))),
   totalSamples + 1).

(** Lines 127-154. *)
Fixpoint sampleLoop (fuel : nat) (data : list Z) (inc : Q) (i : Q)
    (st : LoopState) : Outcome LoopState :=
  if negb (Qle_bool (inject_Z (Z.of_nat (List.length data))) i) then
    match fuel with
    | O => OutOfFuel
    | S fuel' =>
        let r := JS.data_getQ data i in
        let g := JS.data_getQ data (i + 1) in
        let b := JS.data_getQ data (i + 2) in
        let a := JS.data_getQ data (i + 3) in
        if lessThan a 128 then sampleLoop fuel' data inc (i + inc)%Q st
        else sampleLoop fuel' data inc (i + inc)%Q (accumulate st r g b)
    end
  else Finished st.

Definition sample (fuel : nat) (data : list Z) (sampleStep : Q)
    : Outcome LoopState :=
  sampleLoop fuel data (4 * sampleStep)%Q 0%Q emptyState.

(** Lines 161-172. *)
Definition averaged (entry : Entry) : RawColor :=
  let r := roundedQuotient (rSum entry) (count entry) in
  let g := roundedQuotient (gSum entry) (count entry) in
  let b := roundedQuotient (bSum entry) (count entry) in
  mkRawColor r g b (count entry) None.

(** Lines 175 and 192: the stable sort by descending population. *)
Fixpoint insertByPopulation (c : RawColor) (sorted : list RawColor)
    : list RawColor :=
  match sorted with
  | [] => [c]
  | x :: rest =>
      if population x <=? population c then c :: x :: rest
      else x :: insertByPopulation c rest
  end.

Definition sortByPopulation (colors : list RawColor) : list RawColor :=
  fold_right insertByPopulation [] colors.

(** [Math.sqrt] of a number that may be NaN; [None] is NaN. *)
Definition Number_sqrt (x : Number) : option Q :=
  match x with Int n => Some (Math_sqrt n) | NaN => None end.

(** Lines 294-299. *)
Definition colorDistance (c1 c2 : RawColor) : option Q :=
  let dr := sub (r c1) (r c2) in
  let dg := sub (g c1) (g c2) in
  let db := sub (b c1) (b c2) in
  Number_sqrt (add (add (mul dr dr) (mul dg dg)) (mul db db)).

(** Lines 318-320: [dist <= threshold] is false when [dist] is NaN. *)
Definition withinThreshold (color cluster : RawColor) (threshold : Q) : bool :=
  match colorDistance color cluster with
  | Some dist => Qle_bool dist threshold
  | None => false
  end.

(** Lines 322-339. *)
Definition absorb (cluster color : RawColor) : RawColor :=
  let totalPop := population cluster + population color in
  let newR := roundedQuotient
    (add (mul (r cluster) (Int (population cluster)))
         (mul (r color) (Int (population color)))) totalPop in
  let newG := roundedQuotient
    (add (mul (g cluster) (Int (population cluster)))
         (mul (g color) (Int (population color)))) totalPop in
  let newB := roundedQuotient
    (add (mul (b cluster) (Int (population cluster)))
         (mul (b color) (Int (population color)))) totalPop in
  mkRawColor newR newG newB totalPop None.

Fixpoint scanClusters (merged : list RawColor) (color : RawColor)
    (threshold : Q) : option (list RawColor) :=
  match merged with
  | [] => None
  | cluster :: rest =>
      if withinThreshold color cluster threshold
      then Some (absorb cluster color :: rest)
      else option_map (cons cluster) (scanClusters rest color threshold)
  end.

Definition mergeOne (threshold : Q) (merged : list RawColor)
    (color : RawColor) : list RawColor :=
  match scanClusters merged color threshold with
  | Some merged' => merged'
  | None => merged ++ [color]
  end.

(** Lines 310-352. *)
Definition mergeSimilarColors (colors : list RawColor) (threshold : Q)
    : list RawColor :=
  fold_left (mergeOne threshold) colors [].

(** Lines 178-180. *)
Definition mergeStep (colors : list RawColor) (nearDuplicateThreshold : Q)
    : list RawColor :=
  if Qlt_le_dec 0 nearDuplicateThreshold
  then mergeSimilarColors colors nearDuplicateThreshold
  else colors.

(** Lines 183-189. *)
Definition totalPopulation (colors : list RawColor) : Z :=
  fold_left (fun sum c => sum + population c) colors 0.

Definition withPercentage (mergedTotalPopulation : Z) (c : RawColor)
    : RawColor :=
  mkRawColor (r c) (g c) (b c) (population c)
    (Some (if 0 <? mergedTotalPopulation
           then inject_Z (population c) / inject_Z mergedTotalPopulation
           else 0)%Q).

Definition assignPercentages (colors : list RawColor) : list RawColor :=
  map (withPercentage (totalPopulation colors)) colors.

(** Lines 161-192: [colors] after the second sort. *)
Definition rankedColors (colorMap : ColorMap) (nearDuplicateThreshold : Q)
    : list RawColor :=
  let colors := sortByPopulation (map averaged (map snd colorMap)) in
  let colors := mergeStep colors nearDuplicateThreshold in
  let colors := assignPercentages colors in
  sortByPopulation colors.

(** Line 193. *)
Definition limitedColors (colorMap : ColorMap)
    (paletteSize nearDuplicateThreshold : Q) : list RawColor :=
  Array_slice0 (rankedColors colorMap nearDuplicateThreshold)
    (ToInteger paletteSize).

(** [v.toString(16)]: NaN prints as ["NaN"]. *)
Definition toString16 (v : Number) : string :=
  match v with
  | Int z => Number_toString16 z
  | NaN => "NaN"%string
  end.

(** Lines 249-259. *)
Definition rgbToHex (r g b : Number) : string :=
  ("#" ++ String.concat ""
     (map (fun v =>
             let hex := toString16 v in
             if (String.length hex =? 1)%nat then "0" ++ hex else hex)
          [r; g; b]))%string.

(** Lines 262-273; [None] is NaN: [NaN <= 0.03928] is false and
    [Math.pow] of NaN is NaN. *)
Definition channelToLinear (c : Number) : option R :=
  match c with
  | Int z => Some (Contrast.channelToLinear z)
  | NaN => None
  end.

Definition srgbToLuminance (r g b : Number) : option R :=
  match channelToLinear r, channelToLinear g, channelToLinear b with
  | Some R, Some G, Some B => Some (0.2126 * R + 0.7152 * G + 0.0722 * B)%R
  | _, _, _ => None
  end.

(** Lines 275-279: [Math.max] and [Math.min] of NaN are NaN. *)
Definition contrastRatio (L1 L2 : option R) : option R :=
  match L1, L2 with
  | Some L1, Some L2 => Some (Contrast.contrastRatio L1 L2)
  | _, _ => None
  end.

(** Lines 282-291: [>=] is false when a side is NaN. *)
Definition bestTextColor (r g b : Number) : string :=
  let bgL := srgbToLuminance r g b in
  let whiteL := srgbToLuminance (Int 255) (Int 255) (Int 255) in
  let blackL := srgbToLuminance (Int 0) (Int 0) (Int 0) in
  let contrastWithWhite := contrastRatio bgL whiteL in
  let contrastWithBlack := contrastRatio bgL blackL in
  match contrastWithWhite, contrastWithBlack with
  | Some w, Some k =>
      if Rge_dec w k then "#FFFFFF"%string else "#000000"%string
  | _, _ => "#000000"%string
  end.

(** Lines 196-205. *)
Definition toPaletteColor (c : RawColor) : PaletteColor.t :=
  let hex := rgbToHex (r c) (g c) (b c) in
  let textColor := bestTextColor (r c) (g c) (b c) in
  PaletteColor.mk hex textColor (population c)
    (match percentage c with Some p => p | None => 0%Q end).

Definition getColorPaletteFromImageElement (fuel : nat) (data : list Z)
    (paletteSize sampleStep nearDuplicateThreshold : Q)
    : Outcome (list PaletteColor.t) :=
  match sample fuel data sampleStep with
  | Finished (colorMap, totalSamples) =>
      if totalSamples =? 0 then Finished []
      else Finished (map toPaletteColor
                       (limitedColors colorMap paletteSize
                          nearDuplicateThreshold))
  | OutOfFuel => OutOfFuel
  | UndefinedRead => UndefinedRead
  end.

End JSNaN.

(** ** Default parameters *)

(** [interface PaletteConfig]. *)
Record PaletteConfig : Set := mkPaletteConfig
  { paletteSize : Z; maxResolution : Z; sampleStep : Z;
    nearDuplicateThreshold : Z }.

(** src/lib/paletteConfig.ts, which lib/getColorPalette.ts imports. *)
Definition PALETTE_DEFAULTS : PaletteConfig := mkPaletteConfig 10 1024 2 50.

(** The revision of lib/paletteConfig.ts at the head of
    src/unnamed/part_001. *)
Definition PALETTE_DEFAULTS_rev8 : PaletteConfig := mkPaletteConfig 8 1024 4 30.

(** The defaults in the parameter list of js/getColorPalette.js, line 71. *)
Definition JS_defaults : PaletteConfig := mkPaletteConfig 10 1024 2 50.

(** * Vocabulary of the properties *)

(** ** Ranges *)

Definition channel (v : Z) : Prop := 0 <= v <= 255.

(** The integer under the square root of [colorDistance]: the square of
    the Euclidean distance. *)
Definition colorDistanceSq (c1 c2 : RawColor) : Z :=
  let dr := r c1 - r c2 in
  let dg := g c1 - g c2 in
  let db := b c1 - b c2 in
  dr * dr + dg * dg + db * db.

(** A colour as the pipeline produces them: 8-bit channels and a population
    of at least one pixel. *)
Definition validColor (c : RawColor) : Prop :=
  channel (r c) /\ channel (g c) /\ channel (b c) /\ 1 <= population c.

(** ** Which pixels the loop visits *)

Definition pixelCount (data : list Z) : Z := Z.of_nat (List.length data) / 4.

(** Channel [c] (0 red, 1 green, 2 blue, 3 alpha) of pixel [p]. *)
Definition channelAt (data : list Z) (p c : Z) : Z :=
  nth (Z.to_nat (4 * p + c)) data 0.

(** The pixel positions [0, step, 2*step, ...] below the number of pixels. *)
Definition everyNth (pixels step : Z) : list Z :=
  map (fun k => Z.of_nat k * step)
      (seq 0 (Z.to_nat ((pixels + step - 1) / step))).

Definition sampledPixels (data : list Z) (sampleStep : Q) : list Z :=
  everyNth (pixelCount data) (Z.max 1 (Math_floor sampleStep)).

(** The sampled pixels that are not mostly transparent. *)
Definition acceptedPixels (data : list Z) (sampleStep : Q) : list Z :=
  filter (fun p => 128 <=? channelAt data p 3) (sampledPixels data sampleStep).

Definition accumulatePixel (data : list Z) (st : LoopState) (p : Z)
    : LoopState :=
  accumulate st (channelAt data p 0) (channelAt data p 1) (channelAt data p 2).

Definition visitPixel (data : list Z) (st : LoopState) (p : Z) : LoopState :=
  if channelAt data p 3 <? 128 then st else accumulatePixel data st p.

(** ** Invariants of the bucket map *)

Definition sumCounts (m : ColorMap) : Z :=
  fold_right (fun e s => count e + s) 0 (Map_values m).

(** An accumulator that holds at least one 8-bit sample. *)
Definition entryOk (e : Entry) : Prop :=
  1 <= count e
  /\ 0 <= rSum e <= 255 * count e
  /\ 0 <= gSum e <= 255 * count e
  /\ 0 <= bSum e <= 255 * count e.

Definition addSample (r g b : Z) (entry : Entry) : Entry :=
  mkEntry (count entry + 1) (rSum entry + r) (gSum entry + g)
          (bSum entry + b).

Definition entryOrNew (o : option Entry) : Entry :=
  match o with Some e => e | None => mkEntry 0 0 0 0 end.

Definition stateOk (st : LoopState) : Prop :=
  Forall entryOk (Map_values (fst st)) /\ sumCounts (fst st) = snd st.

(** A colour that carries its share of [total]. *)
Definition hasShare (total : Z) (c : RawColor) : Prop :=
  percentage c = Some (inject_Z (population c) / inject_Z total)%Q.

(** ** Which buckets a cluster has taken in

    The merge once more, every cluster now paired with the buckets it was built
    from, in the order of their arrival; forgetting the second components
    gives [mergeSimilarColors] back. *)

Definition Traced : Set := (RawColor * list RawColor)%type.

Fixpoint scanTraced (merged : list Traced) (color : RawColor)
    (threshold : Q) : option (list Traced) :=
  match merged with
  | [] => None
  | (cluster, members) :: rest =>
      if withinThreshold color cluster threshold
      then Some ((absorb cluster color, members ++ [color]) :: rest)
      else option_map (cons (cluster, members))
             (scanTraced rest color threshold)
  end.

Definition mergeOneTraced (threshold : Q) (merged : list Traced)
    (color : RawColor) : list Traced :=
  match scanTraced merged color threshold with
  | Some merged' => merged'
  | None => merged ++ [(color, [color])]
  end.

Definition mergeStepTraced (colors : list RawColor) (threshold : Q)
    : list Traced :=
  if Qlt_le_dec 0 threshold
  then fold_left (mergeOneTraced threshold) colors []
  else map (fun c => (c, [c])) colors.

(** The cluster's population is the sum over its buckets. *)
Definition populationOfMembers (t : Traced) : Prop :=
  population (fst t) = totalPopulation (snd t).

(** ** Sums over a palette *)



(** ** Hexadecimal colour strings *)

(** Two hexadecimal digits for one byte, high digit first. *)
Definition hexPair (v : Z) : string :=
  String (digitChar (v / 16)) (String (digitChar (v mod 16)) EmptyString).

Definition isLowerHexDigit (c : ascii) : bool :=
  existsb (Ascii.eqb c) hexDigits.

(** ["#"] followed by exactly six lowercase hexadecimal digits. *)
Definition isHexColor (s : string) : bool :=
  match s with
  | String "#" rest =>
      (String.length rest =? 6)%nat
      && forallb isLowerHexDigit (list_ascii_of_string rest)
  | _ => false
  end.

(** The callback of [.map] in [rgbToHex]. *)
Definition paddedHex (value : Z) : string :=
  let hex := Number_toString16 value in
  if (String.length hex =? 1)%nat then ("0" ++ hex)%string else hex.

(** The shape of a hexadecimal colour string. *)
Definition hexShaped (c : PaletteColor.t) : Prop :=
  String.length (PaletteColor.paletteColor c) = 7%nat
  /\ isHexColor (PaletteColor.paletteColor c) = true.

(** ** Example inputs *)

Definition px (r g b a : Z) : list Z := [r; g; b; a].

(** The 2x2 opaque image red, red, green, blue. *)
Definition image2x2 : list Z :=
  px 255 0 0 255 ++ px 255 0 0 255 ++ px 0 255 0 255 ++ px 0 0 255 255.

(** Ten pixels of red 100, ten of red 120, one of red 135, one of red 85. *)
Definition imageReds : list Z :=
  List.concat (repeat (px 100 0 0 255) 10)
  ++ List.concat (repeat (px 120 0 0 255) 10)
  ++ px 135 0 0 255 ++ px 85 0 0 255.

(** The buckets of [imageReds]. *)
Definition red100 : RawColor := mkRawColor 100 0 0 10 None.
Definition red120 : RawColor := mkRawColor 120 0 0 10 None.
Definition red135 : RawColor := mkRawColor 135 0 0 1 None.
Definition red85 : RawColor := mkRawColor 85 0 0 1 None.

(** * The rest of the two files *)

(** ** Canvas size (lines 185-193; js/getColorPalette.js, lines 239-247)

    [naturalWidth] and [naturalHeight] are the integers the image element
    reports.  [scale] and [naturalWidth * scale] are kept exact, where the
    source rounds each to a double: the two agree when no scaling takes
    place, on the longer side, and wherever the exact product is not within
    a rounding error of a half-integer, but a product that is exactly a
    half-integer (22x11 at 15: 7.5) can come out just below it in doubles
    and round down.  The properties stated below do not depend on which
    way such a product is rounded.  With [largestSide = 0] and a negative
    [maxResolution] the source divides by zero; that input is outside this
    definition. *)

Record Dimensions : Set := mkDimensions { width : Z; height : Z }.

Definition getScaledDimensions (naturalWidth naturalHeight : Z)
    (maxResolution : Q) : Dimensions :=
  let largestSide := Z.max naturalWidth naturalHeight in
  let scale :=
    if Qlt_le_dec maxResolution (inject_Z largestSide)
    then (maxResolution / inject_Z largestSide)%Q else 1%Q in
  {| width := Z.max 1 (Math_round (inject_Z naturalWidth * scale));
     height := Z.max 1 (Math_round (inject_Z naturalHeight * scale)) |}.

(** ** Reading a hexadecimal digit back *)

(** The value of a lowercase hexadecimal digit; 16 for any other
    character. *)
Definition digitValue (c : ascii) : Z :=
  (fix find (digits : list ascii) (v : Z) : Z :=
     match digits with
     | [] => v
     | d :: rest => if Ascii.eqb c d then v else find rest (v + 1)
     end) hexDigits 0.

(** ** Buckets and their cubes *)

(** The accumulator under [key] holds at least one sample, and samples of
    the 16x16x16 cube of [key] only. *)
Definition entryInCube (key : Z) (e : Entry) : Prop :=
  exists qr qg qb,
    0 <= qr <= 15 /\ 0 <= qg <= 15 /\ 0 <= qb <= 15
    /\ key = 256 * qr + 16 * qg + qb
    /\ 1 <= count e
    /\ 16 * qr * count e <= rSum e <= (16 * qr + 15) * count e
    /\ 16 * qg * count e <= gSum e <= (16 * qg + 15) * count e
    /\ 16 * qb * count e <= bSum e <= (16 * qb + 15) * count e.

Definition mapInCubes (m : ColorMap) : Prop :=
  NoDup (map fst m) /\ Forall (fun ke => entryInCube (fst ke) (snd ke)) m.

(** The colour of a [RawColor], without its population. *)
Definition rgbOf (c : RawColor) : Z * Z * Z := (r c, g c, b c).

(** ** Order of a palette *)

(** Each number is at most the one before it. *)
Fixpoint descending (populations : list Z) : Prop :=
  match populations with
  | [] => True
  | x :: rest =>
      match rest with [] => True | y :: _ => y <= x end /\ descending rest
  end.

(** ** The sorted view of the page (pages/index.tsx)

    [Array.prototype.sort] with a comparator is the stable sort: of two
    elements the one the comparator puts first comes first, and elements
    the comparator does not separate keep their order.  Only the sign of
    the comparator's result is used. *)

Fixpoint insertBy {A : Type} (compare : A -> A -> Q) (c : A)
    (sorted : list A) : list A :=
  match sorted with
  | [] => [c]
  | x :: rest =>
      if Qle_bool 0 (compare x c) then c :: x :: rest
      else x :: insertBy compare c rest
  end.

Definition Array_sort {A : Type} (compare : A -> A -> Q) (arr : list A)
    : list A :=
  fold_right (insertBy compare) [] arr.

Module SortField.
(** [type SortField] of src/unnamed/part_003, line 9. *)
Inductive t : Set :=
  population | percentage | hex | hue | saturation | luminance.
End SortField.

Module SortMode.
(** [type SortMode] of the revision of the page in src/README.md,
    line 47. *)
Inductive t : Set := population | populationAsc | hex.
End SortMode.

(** [type SortDirection]. *)
Inductive SortDirection : Set := asc | desc.

Section SortedPalette.

(** [color.metrics.hue], [.saturation] and [.luminance] belong to a
    [PaletteColor] that lib/getColorPalette.ts does not declare, and
    [localeCompare] to the host: they are taken as given. *)
Variables metrics_hue metrics_saturation metrics_luminance
  : PaletteColor.t -> Q.
Variable localeCompare : string -> string -> Q.

(** src/unnamed/part_003, lines 82-107: the comparator. *)
Definition comparePalette (sortField : SortField.t)
    (sortDirection : SortDirection) (a b : PaletteColor.t) : Q :=
  let delta :=
    match sortField with
    | SortField.population =>
        inject_Z (PaletteColor.population a)
        - inject_Z (PaletteColor.population b)
    | SortField.percentage =>
        PaletteColor.percentage a - PaletteColor.percentage b
    | SortField.hue => metrics_hue a - metrics_hue b
    | SortField.saturation => metrics_saturation a - metrics_saturation b
    | SortField.luminance => metrics_luminance a - metrics_luminance b
    | SortField.hex =>
        localeCompare (PaletteColor.paletteColor a)
          (PaletteColor.paletteColor b)
    end%Q in
  match sortDirection with asc => delta | desc => (- delta)%Q end.

(** src/unnamed/part_003, lines 80-108: [sortedPalette]. *)
Definition sortedPalette (palette : list PaletteColor.t)
    (sortField : SortField.t) (sortDirection : SortDirection)
    : list PaletteColor.t :=
  let paletteCopy := palette in
  Array_sort (comparePalette sortField sortDirection) paletteCopy.

(** src/README.md, lines 116-128: [sortedPalette] of the earlier page. *)
Definition sortedPaletteByMode (palette : list PaletteColor.t)
    (sortMode : SortMode.t) : list PaletteColor.t :=
  let paletteCopy := palette in
  match sortMode with
  | SortMode.population =>
      Array_sort (fun a b => inject_Z (PaletteColor.population b)
                             - inject_Z (PaletteColor.population a))%Q
        paletteCopy
  | SortMode.populationAsc =>
      Array_sort (fun a b => inject_Z (PaletteColor.population a)
                             - inject_Z (PaletteColor.population b))%Q
        paletteCopy
  | SortMode.hex =>
      Array_sort (fun a b => localeCompare (PaletteColor.paletteColor a)
                               (PaletteColor.paletteColor b))
        paletteCopy
  end.

End SortedPalette.

(** Each element is where the comparator leaves it: the one after it is
    not put before it. *)
Fixpoint inOrder {A : Type} (compare : A -> A -> Q) (l : list A) : Prop :=
  match l with
  | [] => True
  | c :: rest =>
      match rest with
      | [] => True
      | x :: _ => (0 <= compare x c)%Q
      end /\ inOrder compare rest
  end.

(** Each number is at least the one before it. *)
Fixpoint ascending (populations : list Z) : Prop :=
  match populations with
  | [] => True
  | x :: rest =>
      match rest with [] => True | y :: _ => x <= y end /\ ascending rest
  end.

(** ** The integers among the numbers that may be NaN

    How an accumulator, a bucket map, a loop state and a colour of the
    integer model read in [JSNaN]. *)

Definition ofEntry (e : Entry) : JSNaN.Entry :=
  JSNaN.mkEntry (count e) (JSNaN.Int (rSum e)) (JSNaN.Int (gSum e))
    (JSNaN.Int (bSum e)).

Definition ofColorMap (m : ColorMap) : JSNaN.ColorMap :=
  map (fun ke => (fst ke, ofEntry (snd ke))) m.

Definition ofLoopState (st : LoopState) : JSNaN.LoopState :=
  (ofColorMap (fst st), snd st).

Definition ofRawColor (c : RawColor) : JSNaN.RawColor :=
  JSNaN.mkRawColor (JSNaN.Int (r c)) (JSNaN.Int (g c)) (JSNaN.Int (b c))
    (population c) (percentage c).

(** ** More example inputs *)

(** The 1x1 opaque white image. *)
Definition whitePixel : list Z := px 255 255 255 255.

(** The 1x1 fully transparent image. *)
Definition transparentPixel : list Z := px 0 0 0 0.

(** Two greys whose distance is the square root of 3. *)
Definition grey15 : RawColor := mkRawColor 15 15 15 1 None.
Definition grey16 : RawColor := mkRawColor 16 16 16 1 None.

(** * Properties *)

(** ** The distance test *)

Lemma colorDistanceSq_nonneg (c1 c2 : RawColor) : 0 <= colorDistanceSq c1 c2.
Proof.
  unfold colorDistanceSq. cbv zeta.
  pose proof (Z.square_nonneg (r c1 - r c2)).
  pose proof (Z.square_nonneg (g c1 - g c2)).
  pose proof (Z.square_nonneg (b c1 - b c2)).
  lia.
Qed.

Lemma colorDistanceSq_bound (c1 c2 : RawColor) :
  validColor c1 -> validColor c2 -> colorDistanceSq c1 c2 <= 195075.
Proof.
  unfold validColor, channel.
  intros (Hr & Hg & Hb & _) (Hr' & Hg' & Hb' & _).
  unfold colorDistanceSq. cbv zeta.
  assert ((r c1 - r c2) * (r c1 - r c2) <= 65025) by nia.
  assert ((g c1 - g c2) * (g c1 - g c2) <= 65025) by nia.
  assert ((b c1 - b c2) * (b c1 - b c2) <= 65025) by nia.
  lia.
Qed.

Lemma colorDistance_Sq (c1 c2 : RawColor) :
  colorDistance c1 c2 = Math_sqrt (colorDistanceSq c1 c2).
Proof. reflexivity. Qed.

Lemma Q2R_inject_Z (z : Z) : Q2R (inject_Z z) = IZR z.
Proof. unfold Q2R. simpl. now rewrite Rinv_1, Rmult_1_r. Qed.

(** *** The rounded square root *)

Lemma four_pow (k : Z) : 0 <= k -> 4 ^ k = 2 ^ k * 2 ^ k.
Proof.
  intros Hk. change 4 with (2 * 2). now rewrite Z.pow_mul_l.
Qed.

(** The parts of [Math_sqrt n]: the exponent [e] of the root and the
    significand [m], the integer nearest to [sqrt n * 2^(52-e)]. *)
Lemma Math_sqrt_parts (n : Z) :
  0 < n < 2 ^ 52 ->
  exists e m : Z,
    0 <= e <= 25
    /\ Math_sqrt n = Qmake m (Z.to_pos (2 ^ (52 - e)))
    /\ 2 ^ e * 2 ^ e <= n < 2 ^ (e + 1) * 2 ^ (e + 1)
    /\ 0 < m
    /\ (2 * m - 1) * (2 * m - 1) <= 4 * (n * (2 ^ (52 - e) * 2 ^ (52 - e)))
       <= (2 * m + 1) * (2 * m + 1).
Proof.
  intros [Hpos Hlt]. unfold Math_sqrt.
  assert (Hn : (n <=? 0) = false) by (apply Z.leb_gt; lia).
  rewrite Hn. cbv zeta.
  set (e := Z.log2 n / 2).
  pose proof (Z.log2_spec n Hpos) as [Hlo Hhi].
  pose proof (Z.log2_nonneg n) as Hl0.
  assert (Hl : Z.log2 n < 52) by (apply Z.log2_lt_pow2; auto).
  assert (Hdiv : 2 * e <= Z.log2 n <= 2 * e + 1).
  { unfold e. pose proof (Z.div_mod (Z.log2 n) 2 ltac:(lia)).
    pose proof (Z.mod_pos_bound (Z.log2 n) 2 ltac:(lia)). lia. }
  assert (He : 0 <= e <= 25) by lia.
  exists e.
  set (P := 2 ^ (52 - e)).
  assert (HP : 0 < P) by (apply Z.pow_pos_nonneg; lia).
  rewrite (four_pow (52 - e)) by lia. fold P.
  set (N := n * (P * P)).
  assert (HN : 1 <= N) by (unfold N; nia).
  pose proof (Z.sqrt_spec N ltac:(lia)) as Hs.
  pose proof (Z.sqrt_nonneg N) as Hs0.
  set (s := Z.sqrt N) in *. unfold Z.succ in Hs.
  exists (if s * s + s <? N then s + 1 else s).
  split; [exact He|]. split; [reflexivity|].
  split.
  { assert (H1 : 2 ^ e * 2 ^ e = 2 ^ (2 * e)).
    { rewrite <- Z.pow_add_r by lia. f_equal. lia. }
    assert (H2 : 2 ^ (e + 1) * 2 ^ (e + 1) = 2 ^ (2 * e + 2)).
    { rewrite <- Z.pow_add_r by lia. f_equal. lia. }
    rewrite H1, H2. split.
    - eapply Z.le_trans; [|exact Hlo]. apply Z.pow_le_mono_r; lia.
    - eapply Z.lt_le_trans; [exact Hhi|]. apply Z.pow_le_mono_r; lia. }
  destruct (s * s + s <? N) eqn:E.
  - apply Z.ltb_lt in E. split; [lia|]. nia.
  - apply Z.ltb_ge in E.
    assert (1 <= s) by nia.
    split; [lia|]. nia.
Qed.

Lemma Math_sqrt_0 : Math_sqrt 0 = 0%Q.
Proof. reflexivity. Qed.

Lemma Qle_Qmake_inject_Z (m P t : Z) :
  0 < P -> (Qmake m (Z.to_pos P) <= inject_Z t)%Q <-> m <= t * P.
Proof.
  intros HP. unfold Qle. simpl. rewrite Z2Pos.id by exact HP. lia.
Qed.

(** Against an integer the rounded root compares as the exact one. *)
Lemma Math_sqrt_le_integer (n t : Z) :
  0 <= n < 2 ^ 52 -> 0 <= t ->
  (Math_sqrt n <= inject_Z t)%Q <-> n <= t * t.
Proof.
  intros [Hn0 Hn] Ht.
  destruct (Z.eq_dec n 0) as [->|Hne].
  { rewrite Math_sqrt_0. split; intros _; [nia|].
    change 0%Q with (inject_Z 0). rewrite <- Zle_Qle. exact Ht. }
  destruct (Math_sqrt_parts n ltac:(lia))
    as (e & m & He & -> & [Hlo Hhi] & Hm & Hnear1 & Hnear2).
  set (P := 2 ^ (52 - e)) in *.
  assert (HP : 0 < P) by (apply Z.pow_pos_nonneg; lia).
  rewrite (Qle_Qmake_inject_Z m P t HP).
  assert (HtP : 0 <= t * P) by nia.
  split.
  - intros Hle.
    destruct (Z_le_gt_dec n (t * t)) as [|Hgt]; auto. exfalso.
    assert (HPt : P <= t) by nia.
    assert (Hpow : 2 ^ (e + 1) <= P).
    { unfold P. apply Z.pow_le_mono_r; lia. }
    assert (0 < 2 ^ (e + 1)) by (apply Z.pow_pos_nonneg; lia).
    nia.
  - intros Hle.
    destruct (Z_le_gt_dec m (t * P)) as [|Hgt]; auto. exfalso.
    assert (2 * (t * P) + 1 <= 2 * m - 1) by lia.
    assert ((2 * (t * P) + 1) * (2 * (t * P) + 1)
            <= (2 * m - 1) * (2 * m - 1)) by nia.
    nia.
Qed.

Lemma Math_sqrt_nonneg (n : Z) : (0 <= Math_sqrt n)%Q.
Proof.
  unfold Math_sqrt. destruct (n <=? 0) eqn:E; [discriminate|].
  apply Z.leb_gt in E. cbv zeta. unfold Qle. cbn [Qnum Qden].
  pose proof (Z.sqrt_nonneg (n * 4 ^ (52 - Z.log2 n / 2))) as Hs.
  set (s := Z.sqrt (n * 4 ^ (52 - Z.log2 n / 2))) in *.
  destruct (s * s + s <? n * 4 ^ (52 - Z.log2 n / 2)); lia.
Qed.

(** [Math_sqrt n] is the real square root up to a relative error of
    [2^-53], the unit roundoff of the doubles. *)
Lemma Math_sqrt_nearest (n : Z) :
  0 <= n < 2 ^ 52 ->
  (Rabs (Q2R (Math_sqrt n) - sqrt (IZR n)) <= sqrt (IZR n) / 2 ^ 53)%R.
Proof.
  intros [Hn0 Hn].
  destruct (Z.eq_dec n 0) as [->|Hne].
  { rewrite Math_sqrt_0, sqrt_0. unfold Q2R. simpl.
    rewrite Rmult_0_l, Rminus_0_r, Rabs_R0. lra. }
  destruct (Math_sqrt_parts n ltac:(lia))
    as (e & m & He & -> & [Hlo Hhi] & Hm & Hnear1 & Hnear2).
  set (P := 2 ^ (52 - e)) in *.
  assert (HP : 0 < P) by (apply Z.pow_pos_nonneg; lia).
  assert (HE : 0 < 2 ^ e) by (apply Z.pow_pos_nonneg; lia).
  assert (HPE : P * 2 ^ e = 2 ^ 52).
  { unfold P. rewrite <- Z.pow_add_r by lia. f_equal. lia. }
  unfold Q2R. cbn [Qnum Qden]. rewrite Z2Pos.id by exact HP.
  set (x := sqrt (IZR n)).
  assert (Hx0 : (0 <= x)%R) by apply sqrt_pos.
  assert (Hxx : (x * x = IZR n)%R) by (apply sqrt_sqrt; apply IZR_le; lia).
  apply IZR_le in Hnear1, Hnear2, Hlo.
  apply IZR_lt in HP, HE, Hm.
  apply (f_equal IZR) in HPE.
  rewrite ?mult_IZR, ?minus_IZR, ?plus_IZR, ?mult_IZR in *.
  assert (H252 : IZR (2 ^ 52) = (2 ^ 52)%R) by (now rewrite pow_IZR).
  rewrite H252 in HPE. clear H252.
  set (p := IZR P) in *. set (q := IZR (2 ^ e)) in *. set (M := IZR m) in *.
  rewrite <- Hxx in Hnear1, Hnear2, Hlo.
  clearbody x p q M.
  assert (Hqx : (q <= x)%R).
  { destruct (Rle_dec q x) as [|Hn']; auto. exfalso.
    apply Rnot_le_lt in Hn'.
    assert (x * x < q * q)%R by (apply Rmult_le_0_lt_compat; lra).
    lra. }
  assert (Hpx : (0 <= p * x)%R) by (apply Rmult_le_pos; lra).
  assert (H1 : (2 * M - 1 <= 2 * (p * x))%R).
  { destruct (Rle_dec (2 * M - 1) (2 * (p * x))) as [|Hn']; auto. exfalso.
    apply Rnot_le_lt in Hn'.
    assert ((2 * (p * x)) * (2 * (p * x)) < (2 * M - 1) * (2 * M - 1))%R
      by (apply Rmult_le_0_lt_compat; lra).
    lra. }
  assert (H2 : (2 * (p * x) <= 2 * M + 1)%R).
  { destruct (Rle_dec (2 * (p * x)) (2 * M + 1)) as [|Hn']; auto. exfalso.
    apply Rnot_le_lt in Hn'.
    assert ((2 * M + 1) * (2 * M + 1) < (2 * (p * x)) * (2 * (p * x)))%R
      by (apply Rmult_le_0_lt_compat; lra).
    lra. }
  assert (Hinv : (0 < / p)%R) by now apply Rinv_0_lt_compat.
  assert (Hd : (M * / p - x = (M - p * x) * / p)%R) by (field; lra).
  rewrite Hd, Rabs_mult, (Rabs_pos_eq (/ p)) by lra.
  assert (Hab : (Rabs (M - p * x) <= 1 / 2)%R) by (apply Rabs_le; lra).
  assert (Hhalf : (/ p = q / 2 ^ 52)%R).
  { rewrite <- HPE. field. lra. }
  rewrite Hhalf.
  apply Rle_trans with (1 / 2 * (q / 2 ^ 52))%R.
  - apply Rmult_le_compat_r; [|exact Hab].
    apply Rmult_le_pos; [lra|]. apply Rlt_le, Rinv_0_lt_compat.
    apply pow_lt. lra.
  - assert (H53 : (2 ^ 53 = 2 * 2 ^ 52)%R) by (simpl; lra).
    rewrite H53.
    assert (H52 : (0 < 2 ^ 52)%R) by (apply pow_lt; lra).
    unfold Rdiv. rewrite Rinv_mult.
    assert (Hi : (0 < / 2 ^ 52)%R) by now apply Rinv_0_lt_compat.
    nra.
Qed.

(** *** The distance between two colours *)

Lemma colorDistanceSq_small (c1 c2 : RawColor) :
  validColor c1 -> validColor c2 -> 0 <= colorDistanceSq c1 c2 < 2 ^ 52.
Proof.
  intros H1 H2.
  pose proof (colorDistanceSq_nonneg c1 c2).
  pose proof (colorDistanceSq_bound c1 c2 H1 H2).
  assert (195075 < 2 ^ 52) by reflexivity. lia.
Qed.

(** The distance the source computes is the Euclidean distance up to the
    rounding of [Math.sqrt]. *)
Lemma colorDistance_nearest (c1 c2 : RawColor) :
  validColor c1 -> validColor c2 ->
  (Rabs (Q2R (colorDistance c1 c2) - sqrt (IZR (colorDistanceSq c1 c2)))
   <= sqrt (IZR (colorDistanceSq c1 c2)) / 2 ^ 53)%R.
Proof.
  intros H1 H2. rewrite colorDistance_Sq.
  apply Math_sqrt_nearest. now apply colorDistanceSq_small.
Qed.

Lemma sqrt_le_integer (n t : Z) :
  0 <= n -> 0 <= t -> (sqrt (IZR n) <= IZR t)%R <-> n <= t * t.
Proof.
  intros Hn Ht. apply IZR_le in Hn as Hn', Ht as Ht'.
  split.
  - intros H. apply le_IZR. rewrite mult_IZR.
    rewrite <- (sqrt_sqrt (IZR n)) by exact Hn'.
    apply Rmult_le_compat; try apply sqrt_pos; exact H.
  - intros H. apply IZR_le in H. rewrite mult_IZR in H.
    rewrite <- (sqrt_square (IZR t)) by exact Ht'.
    now apply sqrt_le_1_alt.
Qed.

(** Against an integer threshold the rounding does not matter. *)
Lemma colorDistance_le_integer (c1 c2 : RawColor) (t : Z) :
  validColor c1 -> validColor c2 -> 0 <= t ->
  (colorDistance c1 c2 <= inject_Z t)%Q
  <-> (sqrt (IZR (colorDistanceSq c1 c2)) <= IZR t)%R.
Proof.
  intros H1 H2 Ht. rewrite colorDistance_Sq.
  rewrite (Math_sqrt_le_integer _ t (colorDistanceSq_small c1 c2 H1 H2) Ht).
  symmetry. apply sqrt_le_integer; auto. apply colorDistanceSq_nonneg.
Qed.

Lemma withinThreshold_spec (color cluster : RawColor) (threshold : Q) :
  withinThreshold color cluster threshold = true
  <-> (colorDistance color cluster <= threshold)%Q.
Proof. unfold withinThreshold. cbv zeta. apply Qle_bool_iff. Qed.

Lemma withinThreshold_false_spec (color cluster : RawColor) (threshold : Q) :
  withinThreshold color cluster threshold = false
  <-> (threshold < colorDistance color cluster)%Q.
Proof.
  split.
  - intros Hf. apply Qnot_le_lt. intros Hle.
    apply withinThreshold_spec in Hle. congruence.
  - intros Hlt. destruct (withinThreshold color cluster threshold) eqn:E; auto.
    apply withinThreshold_spec in E. exfalso.
    apply (Qlt_not_le _ _ Hlt E).
Qed.

(** ** The inner scan finds the first cluster within the threshold *)

Lemma scanClusters_found (merged : list RawColor) (color : RawColor)
    (threshold : Q) (merged' : list RawColor) :
  scanClusters merged color threshold = Some merged' ->
  exists i cluster,
    nth_error merged i = Some cluster
    /\ withinThreshold color cluster threshold = true
    /\ (forall j earlier, (j < i)%nat -> nth_error merged j = Some earlier ->
          withinThreshold color earlier threshold = false)
    /\ merged' = firstn i merged ++ absorb cluster color :: skipn (S i) merged.
Proof.
  revert merged'.
  induction merged as [|c rest IH]; intros merged' H; simpl in H.
  - discriminate.
  - destruct (withinThreshold color c threshold) eqn:E.
    + inversion H; subst. exists 0%nat, c. simpl.
      repeat split; auto. intros j earlier Hj. lia.
    + destruct (scanClusters rest color threshold) as [m|] eqn:Es;
        simpl in H; [|discriminate].
      inversion H; subst.
      destruct (IH m eq_refl) as (i & cluster & Hn & Hw & Hfirst & Hm).
      exists (S i), cluster. simpl. repeat split; auto.
      * intros [|j] earlier Hj Hnth; simpl in Hnth.
        -- now inversion Hnth; subst.
        -- apply (Hfirst j); auto. lia.
      * now rewrite Hm.
Qed.

Lemma scanClusters_none (merged : list RawColor) (color : RawColor)
    (threshold : Q) :
  scanClusters merged color threshold = None ->
  forall cluster, In cluster merged ->
    withinThreshold color cluster threshold = false.
Proof.
  induction merged as [|c rest IH]; simpl; intros H cluster Hin.
  - contradiction.
  - destruct (withinThreshold color c threshold) eqn:E; [discriminate|].
    destruct (scanClusters rest color threshold) eqn:Es; [discriminate|].
    destruct Hin as [<-|Hin]; auto.
Qed.

Lemma mergeSimilarColors_snoc (colors : list RawColor) (color : RawColor)
    (threshold : Q) :
  mergeSimilarColors (colors ++ [color]) threshold
  = mergeOne threshold (mergeSimilarColors colors threshold) color.
Proof. unfold mergeSimilarColors. now rewrite fold_left_app. Qed.

Lemma mergeStep_positive (colors : list RawColor) (threshold : Q) :
  (0 < threshold)%Q ->
  mergeStep colors threshold = mergeSimilarColors colors threshold.
Proof.
  intros H. unfold mergeStep.
  destruct (Qlt_le_dec 0 threshold) as [_|Hle]; auto.
  exfalso. apply (Qlt_not_le _ _ H Hle).
Qed.

Lemma mergeStep_disabled (colors : list RawColor) (threshold : Q) :
  (threshold <= 0)%Q -> mergeStep colors threshold = colors.
Proof.
  intros H. unfold mergeStep.
  destruct (Qlt_le_dec 0 threshold) as [Hlt|_]; auto.
  exfalso. apply (Qlt_not_le _ _ Hlt H).
Qed.

(** C1.  With a positive threshold the merge starts from no cluster, and
    handling one more bucket after the buckets [colors] either finds the
    first cluster (oldest first) whose distance to the bucket is at most
    the threshold and replaces it, at its own index, by the cluster with
    the summed population and the rounded population-weighted channels,
    or, when every cluster is farther away than the threshold, appends the
    bucket.  The distance is the Euclidean distance as [Math.sqrt] returns
    it: on 8-bit channels it is the square root of the sum of the squared
    differences up to a relative error of [2^-53], and against an integer
    threshold it compares as the exact root does. *)
Theorem mergeSimilarColors_first_match
    (colors : list RawColor) (color : RawColor) (threshold : Q) :
  (0 < threshold)%Q ->
  let merged := mergeStep colors threshold in
  mergeStep [] threshold = []
  /\ ((exists (i : nat) (cluster : RawColor),
          nth_error merged i = Some cluster
          /\ (colorDistance color cluster <= threshold)%Q
          /\ (forall j earlier,
                (j < i)%nat -> nth_error merged j = Some earlier ->
                (threshold < colorDistance color earlier)%Q)
          /\ mergeStep (colors ++ [color]) threshold
             = firstn i merged
               ++ [ {| r := Math_round
                         (inject_Z (r cluster * population cluster
                                    + r color * population color)
                          / inject_Z (population cluster + population color));
                       g := Math_round
                         (inject_Z (g cluster * population cluster
                                    + g color * population color)
                          / inject_Z (population cluster + population color));
                       b := Math_round
                         (inject_Z (b cluster * population cluster
                                    + b color * population color)
                          / inject_Z (population cluster + population color));
                       population := population cluster + population color;
                       percentage := None |} ]
               ++ skipn (S i) merged)
      \/ ((forall cluster, In cluster merged ->
             (threshold < colorDistance color cluster)%Q)
          /\ mergeStep (colors ++ [color]) threshold = merged ++ [color]))
  /\ (forall c1 c2 : RawColor,
        validColor c1 -> validColor c2 ->
        let euclidean :=
          sqrt (IZR ((r c1 - r c2) * (r c1 - r c2)
                     + (g c1 - g c2) * (g c1 - g c2)
                     + (b c1 - b c2) * (b c1 - b c2))) in
        (Rabs (Q2R (colorDistance c1 c2) - euclidean)
         <= euclidean / 2 ^ 53)%R
        /\ (forall t : Z,
              0 <= t ->
              (colorDistance c1 c2 <= inject_Z t)%Q
              <-> (euclidean <= IZR t)%R)).
Proof.
  intros Hpos merged. subst merged.
  split; [now rewrite mergeStep_positive by exact Hpos|].
  split.
  - rewrite !mergeStep_positive by exact Hpos.
    rewrite mergeSimilarColors_snoc. unfold mergeOne.
    destruct (scanClusters (mergeSimilarColors colors threshold) color
                threshold) as [merged'|] eqn:Es.
    + left.
      destruct (scanClusters_found _ _ _ _ Es)
        as (i & cluster & Hn & Hw & Hfirst & ->).
      exists i, cluster. repeat split; auto.
      * now apply withinThreshold_spec.
      * intros j earlier Hj Hnth. apply withinThreshold_false_spec. eauto.
    + right. split; auto.
      intros cluster Hin. apply withinThreshold_false_spec.
      eapply scanClusters_none; eauto.
  - intros c1 c2 H1 H2 euclidean. subst euclidean.
    change ((r c1 - r c2) * (r c1 - r c2) + (g c1 - g c2) * (g c1 - g c2)
            + (b c1 - b c2) * (b c1 - b c2))
      with (colorDistanceSq c1 c2).
    split; [now apply colorDistance_nearest|].
    intros t Ht. now apply colorDistance_le_integer.
Qed.

(** ** Rounded averages stay between the values they average *)

Lemma Math_round_bounds (n d lo hi : Z) :
  0 < d -> lo * d <= n -> n <= hi * d ->
  lo <= Math_round (inject_Z n / inject_Z d) <= hi.
Proof.
  intros Hd Hlo Hhi. unfold Math_round.
  assert (Hdq : (0 < inject_Z d)%Q) by (rewrite Zlt_Qlt in Hd; exact Hd).
  assert (H1 : (inject_Z lo <= inject_Z n / inject_Z d)%Q).
  { apply Qle_shift_div_l; auto.
    rewrite <- inject_Z_mult. now rewrite <- Zle_Qle. }
  assert (H2 : (inject_Z n / inject_Z d <= inject_Z hi)%Q).
  { apply Qle_shift_div_r; auto.
    rewrite <- inject_Z_mult. now rewrite <- Zle_Qle. }
  split.
  - rewrite <- (Qfloor_Z lo). apply Qfloor_resp_le. lra.
  - pose proof (Qfloor_le (inject_Z n / inject_Z d + (1 # 2))) as Hf.
    assert (Hlt : (inject_Z (Qfloor (inject_Z n / inject_Z d + (1 # 2)))
                   < inject_Z (hi + 1))%Q).
    { rewrite inject_Z_plus. change (inject_Z 1) with 1%Q. lra. }
    rewrite <- Zlt_Qlt in Hlt. lia.
Qed.

Lemma weighted_channel (x y p q : Z) :
  channel x -> channel y -> 1 <= p -> 1 <= q ->
  channel (Math_round (inject_Z (x * p + y * q) / inject_Z (p + q))).
Proof.
  unfold channel. intros Hx Hy Hp Hq.
  apply Math_round_bounds; nia.
Qed.

Lemma absorb_valid (cluster color : RawColor) :
  validColor cluster -> validColor color -> validColor (absorb cluster color).
Proof.
  unfold validColor. intros (Hr & Hg & Hb & Hp) (Hr' & Hg' & Hb' & Hp').
  unfold absorb; simpl.
  repeat split; try (apply weighted_channel; assumption); lia.
Qed.

Lemma scanClusters_valid (merged : list RawColor) (color : RawColor)
    (threshold : Q) (merged' : list RawColor) :
  Forall validColor merged -> validColor color ->
  scanClusters merged color threshold = Some merged' ->
  Forall validColor merged'.
Proof.
  intros Hm Hc. revert merged'.
  induction Hm as [|c rest Hcv Hrest IH]; intros merged' H; simpl in H.
  - discriminate.
  - destruct (withinThreshold color c threshold).
    + inversion H; subst. constructor; auto using absorb_valid.
    + destruct (scanClusters rest color threshold) as [m|];
        simpl in H; [|discriminate].
      inversion H; subst. constructor; auto.
Qed.

Lemma mergeOne_valid (threshold : Q) (merged : list RawColor)
    (color : RawColor) :
  Forall validColor merged -> validColor color ->
  Forall validColor (mergeOne threshold merged color).
Proof.
  intros Hm Hc. unfold mergeOne.
  destruct (scanClusters merged color threshold) eqn:E.
  - eauto using scanClusters_valid.
  - apply Forall_app. split; auto.
Qed.

Lemma fold_mergeOne_valid (threshold : Q) (colors merged : list RawColor) :
  Forall validColor colors -> Forall validColor merged ->
  Forall validColor (fold_left (mergeOne threshold) colors merged).
Proof.
  intros Hc. revert merged.
  induction Hc as [|c rest Hcv Hrest IH]; intros merged Hm; simpl; auto.
  apply IH. now apply mergeOne_valid.
Qed.

Lemma mergeSimilarColors_valid (colors : list RawColor) (threshold : Q) :
  Forall validColor colors ->
  Forall validColor (mergeSimilarColors colors threshold).
Proof. intros H. now apply fold_mergeOne_valid. Qed.

Lemma mergeStep_valid (colors : list RawColor) (threshold : Q) :
  Forall validColor colors -> Forall validColor (mergeStep colors threshold).
Proof.
  intros H. unfold mergeStep.
  destruct (Qlt_le_dec 0 threshold); auto using mergeSimilarColors_valid.
Qed.

(** ** How many clusters the merge leaves *)

Lemma scanClusters_length (merged : list RawColor) (color : RawColor)
    (threshold : Q) (merged' : list RawColor) :
  scanClusters merged color threshold = Some merged' ->
  List.length merged' = List.length merged.
Proof.
  revert merged'.
  induction merged as [|c rest IH]; intros merged' H; simpl in H.
  - discriminate.
  - destruct (withinThreshold color c threshold).
    + now inversion H.
    + destruct (scanClusters rest color threshold) as [m|];
        simpl in H; [|discriminate].
      inversion H; subst. simpl. now rewrite (IH m).
Qed.

Lemma mergeOne_length (threshold : Q) (merged : list RawColor)
    (color : RawColor) :
  (List.length merged <= List.length (mergeOne threshold merged color)
   <= S (List.length merged))%nat.
Proof.
  unfold mergeOne.
  destruct (scanClusters merged color threshold) eqn:E.
  - rewrite (scanClusters_length _ _ _ _ E). lia.
  - rewrite length_app. simpl. lia.
Qed.

Lemma fold_mergeOne_length (threshold : Q) (colors merged : list RawColor) :
  (List.length merged
   <= List.length (fold_left (mergeOne threshold) colors merged)
   <= List.length merged + List.length colors)%nat.
Proof.
  revert merged.
  induction colors as [|c rest IH]; intros merged; simpl.
  - lia.
  - pose proof (mergeOne_length threshold merged c).
    pose proof (IH (mergeOne threshold merged c)). lia.
Qed.

Lemma mergeSimilarColors_length (colors : list RawColor) (threshold : Q) :
  (List.length (mergeSimilarColors colors threshold)
   <= List.length colors)%nat.
Proof.
  pose proof (fold_mergeOne_length threshold colors []) as H.
  simpl in H. apply H.
Qed.

Lemma mergeSimilarColors_nonempty (colors : list RawColor) (threshold : Q) :
  colors <> [] ->
  (1 <= List.length (mergeSimilarColors colors threshold))%nat.
Proof.
  destruct colors as [|c rest]; [congruence|]. intros _.
  unfold mergeSimilarColors. simpl.
  pose proof (fold_mergeOne_length threshold rest (mergeOne threshold [] c)).
  pose proof (mergeOne_length threshold [] c). simpl in *. lia.
Qed.

Lemma mergeStep_length (colors : list RawColor) (threshold : Q) :
  (List.length (mergeStep colors threshold) <= List.length colors)%nat.
Proof.
  unfold mergeStep. destruct (Qlt_le_dec 0 threshold); auto.
  apply mergeSimilarColors_length.
Qed.

Lemma mergeStep_nonempty (colors : list RawColor) (threshold : Q) :
  colors <> [] -> (1 <= List.length (mergeStep colors threshold))%nat.
Proof.
  intros H. unfold mergeStep. destruct (Qlt_le_dec 0 threshold).
  - now apply mergeSimilarColors_nonempty.
  - destruct colors; [congruence | simpl; lia].
Qed.

(** No two 8-bit colours are farther apart than 442. *)
Lemma withinThreshold_far (color cluster : RawColor) (threshold : Q) :
  validColor color -> validColor cluster -> (442 <= threshold)%Q ->
  withinThreshold color cluster threshold = true.
Proof.
  intros Hc Hk Ht. apply withinThreshold_spec.
  apply Qle_trans with (inject_Z 442); [|exact Ht].
  rewrite colorDistance_Sq.
  apply Math_sqrt_le_integer; [now apply colorDistanceSq_small | lia |].
  pose proof (colorDistanceSq_bound color cluster Hc Hk). lia.
Qed.

Lemma fold_mergeOne_far (threshold : Q) (colors merged : list RawColor) :
  (442 <= threshold)%Q ->
  Forall validColor colors -> Forall validColor merged ->
  (List.length merged <= 1)%nat ->
  (List.length (fold_left (mergeOne threshold) colors merged) <= 1)%nat.
Proof.
  intros Ht Hc. revert merged.
  induction Hc as [|c rest Hcv Hrest IH]; intros merged Hm Hlen; simpl; auto.
  apply IH.
  - now apply mergeOne_valid.
  - destruct merged as [|x [|y tl]]; simpl in Hlen; try lia.
    + reflexivity.
    + unfold mergeOne. simpl.
      rewrite withinThreshold_far; auto. now inversion Hm.
Qed.

(** C3, as amended.  Between two thresholds [t1 <= t2] the merge with [t2]
    leaves no more clusters than the merge with [t1] when [t1] switches
    merging off ([t1 <= 0]) or when [t2] reaches every pair of 8-bit colours
    ([442 <= t2]). *)
Theorem threshold_monotone_at_the_ends
    (colors : list RawColor) (t1 t2 : Q) :
  Forall validColor colors ->
  (t1 <= t2)%Q ->
  (t1 <= 0)%Q \/ (442 <= t2)%Q ->
  (List.length (mergeStep colors t2) <= List.length (mergeStep colors t1))%nat.
Proof.
  intros Hv Hle [Hoff | Hfar].
  - rewrite (mergeStep_disabled colors t1 Hoff). apply mergeStep_length.
  - destruct colors as [|c rest] eqn:Ec.
    + unfold mergeStep. destruct (Qlt_le_dec 0 t2), (Qlt_le_dec 0 t1);
        simpl; lia.
    + rewrite <- Ec in *.
      assert (Hne : colors <> []) by (rewrite Ec; discriminate).
      pose proof (mergeStep_nonempty colors t1 Hne) as H1.
      rewrite (mergeStep_positive colors t2) by lra.
      pose proof (fold_mergeOne_far t2 colors [] Hfar Hv (Forall_nil _)) as H2.
      unfold mergeSimilarColors. simpl in H2. lia.
Qed.

(** ** The sampling loop of the TypeScript file *)

Lemma stride_ge_4 (sampleStep : Q) : 4 <= TS.stride sampleStep.
Proof. unfold TS.stride. lia. Qed.

(** An iteration moves [i] forward, so [data.length - i] units of fuel are
    never used up. *)
Lemma sampleLoop_fuel (data : list Z) (inc : Z) (fuel : nat) (i : Z)
    (st : LoopState) :
  1 <= inc ->
  (Z.to_nat (Z.of_nat (List.length data) - i) <= fuel)%nat ->
  TS.sampleLoop fuel data inc i st <> OutOfFuel.
Proof.
  intros Hinc. revert i st.
  induction fuel as [|fuel IH]; intros i st Hfuel; simpl.
  - destruct (i <? Z.of_nat (List.length data)) eqn:E; [|discriminate].
    apply Z.ltb_lt in E. lia.
  - destruct (i <? Z.of_nat (List.length data)) eqn:E; [|discriminate].
    apply Z.ltb_lt in E.
    destruct (data_get data i); [|discriminate].
    destruct (data_get data (i + 1)); [|discriminate].
    destruct (data_get data (i + 2)); [|discriminate].
    destruct (data_get data (i + 3)); [|discriminate].
    destruct (z2 <? 128); apply IH; lia.
Qed.

(** Fuel beyond what a run needs does not change its result. *)
Lemma sampleLoop_more_fuel (data : list Z) (inc : Z) (fuel fuel' : nat)
    (i : Z) (st : LoopState) :
  TS.sampleLoop fuel data inc i st <> OutOfFuel ->
  (fuel <= fuel')%nat ->
  TS.sampleLoop fuel' data inc i st = TS.sampleLoop fuel data inc i st.
Proof.
  revert fuel' i st.
  induction fuel as [|fuel IH]; intros fuel' i st Hrun Hle; simpl in *.
  - destruct fuel'; simpl;
      destruct (i <? Z.of_nat (List.length data)); congruence.
  - destruct fuel' as [|fuel']; [lia|]. simpl.
    destruct (i <? Z.of_nat (List.length data)); auto.
    destruct (data_get data i); auto.
    destruct (data_get data (i + 1)); auto.
    destruct (data_get data (i + 2)); auto.
    destruct (data_get data (i + 3)); auto.
    destruct (z2 <? 128); apply IH; auto; lia.
Qed.

Lemma isImageData_length (data : list Z) :
  isImageData data = true ->
  Z.of_nat (List.length data) = 4 * pixelCount data.
Proof.
  unfold isImageData, pixelCount. intros H.
  apply andb_true_iff in H. destruct H as [H _]. apply Z.eqb_eq in H.
  pose proof (Z.div_mod (Z.of_nat (List.length data)) 4). lia.
Qed.

Lemma isImageData_channel (data : list Z) :
  isImageData data = true -> Forall channel data.
Proof.
  unfold isImageData. intros H.
  apply andb_true_iff in H. destruct H as [_ H].
  rewrite forallb_forall in H. apply Forall_forall. intros v Hv.
  specialize (H v Hv). unfold channel. lia.
Qed.

Lemma data_get_channelAt (data : list Z) (p c : Z) :
  0 <= p -> 0 <= c -> 4 * p + c < Z.of_nat (List.length data) ->
  data_get data (4 * p + c) = Some (channelAt data p c).
Proof.
  intros Hp Hc Hlt. unfold data_get, channelAt.
  destruct (4 * p + c <? 0) eqn:E; [apply Z.ltb_lt in E; lia|].
  apply nth_error_nth'. lia.
Qed.

Lemma everyNth_count (pixels step : Z) :
  1 <= step -> 0 <= pixels ->
  let count := (pixels + step - 1) / step in
  0 <= count /\ pixels <= count * step /\ (count - 1) * step < pixels.
Proof.
  intros Hs Hp count. subst count.
  pose proof (Z.div_mod (pixels + step - 1) step ltac:(lia)) as Hdm.
  pose proof (Z.mod_pos_bound (pixels + step - 1) step ltac:(lia)) as Hmod.
  assert (0 <= (pixels + step - 1) / step) by (apply Z.div_pos; lia).
  nia.
Qed.

Lemma sampleLoop_done (fuel : nat) (data : list Z) (inc i : Z)
    (st : LoopState) :
  Z.of_nat (List.length data) <= i ->
  TS.sampleLoop fuel data inc i st = Finished st.
Proof.
  intros H. apply Z.ltb_ge in H. destruct fuel; simpl; now rewrite H.
Qed.

Lemma sampleLoop_step (fuel : nat) (data : list Z) (inc i : Z)
    (st : LoopState) (r g b a : Z) :
  i < Z.of_nat (List.length data) ->
  data_get data i = Some r -> data_get data (i + 1) = Some g ->
  data_get data (i + 2) = Some b -> data_get data (i + 3) = Some a ->
  TS.sampleLoop (S fuel) data inc i st
  = TS.sampleLoop fuel data inc (i + inc)
      (if a <? 128 then st else accumulate st r g b).
Proof.
  intros H Hr Hg Hb Ha. apply Z.ltb_lt in H. simpl.
  rewrite H, Hr, Hg, Hb, Ha. now destruct (a <? 128).
Qed.

Lemma sampleLoop_visits (data : list Z) (step : Z) :
  isImageData data = true -> 1 <= step ->
  forall (n j fuel : nat) (st : LoopState),
    (n <= fuel)%nat ->
    Z.of_nat (j + n) = (pixelCount data + step - 1) / step ->
    TS.sampleLoop fuel data (4 * step) (4 * (Z.of_nat j * step)) st
    = Finished (fold_left (visitPixel data)
                  (map (fun k => Z.of_nat k * step) (seq j n)) st).
Proof.
  intros Hdata Hstep.
  pose proof (isImageData_length data Hdata) as Hlen.
  assert (Hpix : 0 <= pixelCount data) by lia.
  destruct (everyNth_count (pixelCount data) step Hstep Hpix)
    as (Hc0 & Hc1 & Hc2).
  induction n as [|n IH]; intros j fuel st Hfuel Hcount.
  - rewrite Nat.add_0_r in Hcount.
    apply sampleLoop_done. rewrite <- Hcount in Hc1. lia.
  - destruct fuel as [|fuel]; [lia|].
    assert (Hp : Z.of_nat j * step < pixelCount data) by nia.
    rewrite (sampleLoop_step fuel data (4 * step) (4 * (Z.of_nat j * step)) st
               (channelAt data (Z.of_nat j * step) 0)
               (channelAt data (Z.of_nat j * step) 1)
               (channelAt data (Z.of_nat j * step) 2)
               (channelAt data (Z.of_nat j * step) 3));
      try (apply data_get_channelAt; nia); try lia.
    + replace (4 * (Z.of_nat j * step) + 4 * step)
        with (4 * (Z.of_nat (S j) * step)) by lia.
      rewrite IH by lia. reflexivity.
    + rewrite <- (Z.add_0_r (4 * (Z.of_nat j * step))) at 1.
      apply data_get_channelAt; nia.
Qed.

Lemma fold_visitPixel (data : list Z) (pixels : list Z) (st : LoopState) :
  fold_left (visitPixel data) pixels st
  = fold_left (accumulatePixel data)
      (filter (fun p => 128 <=? channelAt data p 3) pixels) st.
Proof.
  revert st. induction pixels as [|p rest IH]; intros st; simpl; auto.
  unfold visitPixel at 2.
  destruct (channelAt data p 3 <? 128) eqn:E.
  - apply Z.ltb_lt in E.
    destruct (128 <=? channelAt data p 3) eqn:E'; [apply Z.leb_le in E'; lia|].
    apply IH.
  - apply Z.ltb_ge in E.
    destruct (128 <=? channelAt data p 3) eqn:E'; [|apply Z.leb_gt in E'; lia].
    simpl. apply IH.
Qed.

(** On image data the loop leaves with the accepted sampled pixels
    accumulated in order. *)
Lemma sample_accepted (data : list Z) (sampleStep : Q) :
  isImageData data = true ->
  TS.sample data sampleStep
  = Finished (fold_left (accumulatePixel data)
                (acceptedPixels data sampleStep) emptyState).
Proof.
  intros Hdata. unfold TS.sample, TS.stride, acceptedPixels, sampledPixels,
    everyNth.
  set (step := Z.max 1 (Math_floor sampleStep)).
  assert (Hstep : 1 <= step) by (subst step; lia).
  pose proof (isImageData_length data Hdata) as Hlen.
  assert (Hpix : 0 <= pixelCount data) by lia.
  destruct (everyNth_count (pixelCount data) step Hstep Hpix)
    as (Hc0 & Hc1 & Hc2).
  rewrite <- fold_visitPixel.
  change 0 with (4 * (Z.of_nat 0 * step)) at 1.
  apply sampleLoop_visits; auto.
  - nia.
  - simpl. lia.
Qed.

(** ** Populations *)

Lemma fold_population_acc (colors : list RawColor) (acc : Z) :
  fold_left (fun sum c => sum + population c) colors acc
  = acc + totalPopulation colors.
Proof.
  unfold totalPopulation. revert acc.
  induction colors as [|c rest IH]; intros acc; simpl.
  - lia.
  - rewrite IH, (IH (population c)). lia.
Qed.

Lemma totalPopulation_cons (c : RawColor) (colors : list RawColor) :
  totalPopulation (c :: colors) = population c + totalPopulation colors.
Proof. unfold totalPopulation at 1. simpl. apply fold_population_acc. Qed.

Lemma totalPopulation_app (l1 l2 : list RawColor) :
  totalPopulation (l1 ++ l2) = totalPopulation l1 + totalPopulation l2.
Proof.
  induction l1 as [|c rest IH]; simpl.
  - reflexivity.
  - rewrite !totalPopulation_cons, IH. lia.
Qed.

Lemma totalPopulation_perm (l1 l2 : list RawColor) :
  Permutation l1 l2 -> totalPopulation l1 = totalPopulation l2.
Proof.
  induction 1; rewrite ?totalPopulation_cons in *; lia.
Qed.

Lemma totalPopulation_positive (colors : list RawColor) :
  Forall validColor colors -> colors <> [] -> 0 < totalPopulation colors.
Proof.
  intros Hv Hne.
  assert (H0 : forall l, Forall validColor l -> 0 <= totalPopulation l).
  { induction 1 as [|c l Hc _ IH]; [reflexivity|].
    rewrite totalPopulation_cons. destruct Hc as (_ & _ & _ & Hp). lia. }
  destruct Hv as [|c l Hc Hl]; [congruence|].
  rewrite totalPopulation_cons. specialize (H0 l Hl).
  destruct Hc as (_ & _ & _ & Hp). lia.
Qed.

(** *** The stable sort rearranges, nothing more *)

Lemma insertByPopulation_perm (c : RawColor) (sorted : list RawColor) :
  Permutation (insertByPopulation c sorted) (c :: sorted).
Proof.
  induction sorted as [|x rest IH]; simpl.
  - reflexivity.
  - destruct (population x <=? population c).
    + reflexivity.
    + rewrite IH. apply perm_swap.
Qed.

Lemma sortByPopulation_perm (colors : list RawColor) :
  Permutation (sortByPopulation colors) colors.
Proof.
  induction colors as [|c rest IH]; simpl.
  - reflexivity.
  - rewrite insertByPopulation_perm. now constructor.
Qed.

Lemma sortByPopulation_length (colors : list RawColor) :
  List.length (sortByPopulation colors) = List.length colors.
Proof. apply Permutation_length, sortByPopulation_perm. Qed.

Lemma sortByPopulation_Forall (P : RawColor -> Prop) (colors : list RawColor) :
  Forall P colors -> Forall P (sortByPopulation colors).
Proof.
  intros H. eapply Permutation_Forall; [|exact H].
  symmetry. apply sortByPopulation_perm.
Qed.

(** *** Merging moves populations, it does not lose any *)

Lemma scanClusters_population (merged : list RawColor) (color : RawColor)
    (threshold : Q) (merged' : list RawColor) :
  scanClusters merged color threshold = Some merged' ->
  totalPopulation merged' = totalPopulation merged + population color.
Proof.
  revert merged'.
  induction merged as [|c rest IH]; intros merged' H; simpl in H.
  - discriminate.
  - destruct (withinThreshold color c threshold).
    + inversion H; subst. rewrite !totalPopulation_cons. simpl. lia.
    + destruct (scanClusters rest color threshold) as [m|];
        simpl in H; [|discriminate].
      inversion H; subst. rewrite !totalPopulation_cons, (IH m); auto. lia.
Qed.

Lemma mergeOne_population (threshold : Q) (merged : list RawColor)
    (color : RawColor) :
  totalPopulation (mergeOne threshold merged color)
  = totalPopulation merged + population color.
Proof.
  unfold mergeOne.
  destruct (scanClusters merged color threshold) eqn:E.
  - eauto using scanClusters_population.
  - rewrite totalPopulation_app, totalPopulation_cons.
    change (totalPopulation []) with 0. lia.
Qed.

Lemma fold_mergeOne_population (threshold : Q)
    (colors merged : list RawColor) :
  totalPopulation (fold_left (mergeOne threshold) colors merged)
  = totalPopulation merged + totalPopulation colors.
Proof.
  revert merged. induction colors as [|c rest IH]; intros merged; simpl.
  - change (totalPopulation []) with 0. lia.
  - rewrite IH, mergeOne_population, totalPopulation_cons. lia.
Qed.

Lemma mergeStep_population (colors : list RawColor) (threshold : Q) :
  totalPopulation (mergeStep colors threshold) = totalPopulation colors.
Proof.
  unfold mergeStep. destruct (Qlt_le_dec 0 threshold); auto.
  unfold mergeSimilarColors. now rewrite fold_mergeOne_population.
Qed.

Lemma accumulate_unfold (colorMap : ColorMap) (total r g b : Z) :
  accumulate (colorMap, total) r g b
  = (Map_set colorMap (quantKey r g b)
       (addSample r g b (entryOrNew (Map_get colorMap (quantKey r g b)))),
     total + 1).
Proof. reflexivity. Qed.

Lemma upsert_ok (m : ColorMap) (key r g b : Z) :
  channel r -> channel g -> channel b ->
  Forall entryOk (Map_values m) ->
  Forall entryOk
    (Map_values (Map_set m key (addSample r g b (entryOrNew (Map_get m key)))))
  /\ sumCounts (Map_set m key (addSample r g b (entryOrNew (Map_get m key))))
     = sumCounts m + 1.
Proof.
  unfold channel. intros Hr Hg Hb.
  induction m as [|[k e] m' IH]; intros Hok.
  - simpl. split.
    + constructor; [|constructor].
      unfold entryOk, addSample; cbn [count rSum gSum bSum]. lia.
    + reflexivity.
  - unfold Map_values in Hok. simpl in Hok.
    inversion Hok as [|? ? He Hm']; subst.
    simpl. destruct (k =? key).
    + split.
      * constructor; auto.
        unfold entryOk, addSample, entryOrNew in *;
          cbn [count rSum gSum bSum snd]. lia.
      * unfold sumCounts, addSample, entryOrNew; simpl. lia.
    + destruct (IH Hm') as [IH1 IH2]. split.
      * constructor; auto.
      * unfold sumCounts, Map_values in *. cbn [map fold_right snd].
        rewrite IH2. lia.
Qed.

Lemma accumulate_ok (st : LoopState) (r g b : Z) :
  channel r -> channel g -> channel b -> stateOk st ->
  stateOk (accumulate st r g b) /\ snd (accumulate st r g b) = snd st + 1.
Proof.
  destruct st as [m total]. intros Hr Hg Hb [Hm Hs]. simpl in Hm, Hs.
  rewrite accumulate_unfold.
  destruct (upsert_ok m (quantKey r g b) r g b Hr Hg Hb Hm) as [H1 H2].
  unfold stateOk; simpl. repeat split; auto. lia.
Qed.

Lemma channelAt_channel (data : list Z) (p c : Z) :
  Forall channel data -> channel (channelAt data p c).
Proof.
  intros H. unfold channelAt.
  destruct (nth_in_or_default (Z.to_nat (4 * p + c)) data 0) as [Hin | ->].
  - rewrite Forall_forall in H. now apply H.
  - unfold channel. lia.
Qed.

Lemma fold_accumulatePixel_ok (data : list Z) (pixels : list Z)
    (st : LoopState) :
  Forall channel data -> stateOk st ->
  stateOk (fold_left (accumulatePixel data) pixels st)
  /\ snd (fold_left (accumulatePixel data) pixels st)
     = snd st + Z.of_nat (List.length pixels).
Proof.
  intros Hd. revert st.
  induction pixels as [|p rest IH]; intros st Hst; simpl.
  - split; auto. lia.
  - destruct (accumulate_ok st (channelAt data p 0) (channelAt data p 1)
                (channelAt data p 2)) as [Hok Hsnd];
      auto using channelAt_channel.
    destruct (IH _ Hok) as [IH1 IH2]. split; auto.
    change (accumulatePixel data st p)
      with (accumulate st (channelAt data p 0) (channelAt data p 1)
              (channelAt data p 2)).
    rewrite IH2, Hsnd. lia.
Qed.

(** What the loop hands to the rest of the pipeline. *)
Lemma sample_ok (data : list Z) (sampleStep : Q) :
  isImageData data = true ->
  exists colorMap totalSamples,
    TS.sample data sampleStep = Finished (colorMap, totalSamples)
    /\ Forall entryOk (Map_values colorMap)
    /\ sumCounts colorMap = totalSamples
    /\ totalSamples = Z.of_nat (List.length (acceptedPixels data sampleStep)).
Proof.
  intros Hdata. rewrite (sample_accepted data sampleStep Hdata).
  destruct (fold_accumulatePixel_ok data (acceptedPixels data sampleStep)
              emptyState (isImageData_channel data Hdata))
    as [[H1 H2] H3].
  { split; [constructor | reflexivity]. }
  destruct (fold_left (accumulatePixel data) (acceptedPixels data sampleStep)
              emptyState) as [m total].
  exists m, total. simpl in *. repeat split; auto.
Qed.

(** [everyNth] lists exactly the multiples of [step] below [pixels]. *)
Lemma everyNth_spec (pixels step p : Z) :
  1 <= step -> 0 <= pixels ->
  In p (everyNth pixels step)
  <-> exists k, 0 <= k /\ p = k * step /\ p < pixels.
Proof.
  intros Hs Hp.
  destruct (everyNth_count pixels step Hs Hp) as (Hc0 & Hc1 & Hc2).
  unfold everyNth. rewrite in_map_iff. split.
  - intros (k & <- & Hin). apply in_seq in Hin.
    assert (Hk : Z.of_nat k <= (pixels + step - 1) / step - 1) by lia.
    exists (Z.of_nat k). repeat split; try lia.
    assert (Z.of_nat k * step <= ((pixels + step - 1) / step - 1) * step)
      by (apply Z.mul_le_mono_nonneg_r; lia).
    lia.
  - intros (k & Hk & -> & Hlt).
    exists (Z.to_nat k). split; [now rewrite Z2Nat.id|].
    apply in_seq. split; [lia|]. simpl.
    destruct (Z.lt_ge_cases k ((pixels + step - 1) / step)) as [Hlt'|Hge];
      [lia|].
    assert ((pixels + step - 1) / step * step <= k * step)
      by (apply Z.mul_le_mono_nonneg_r; lia).
    lia.
Qed.

(** ** From the bucket map to the ranked colours *)

Lemma averaged_valid (e : Entry) : entryOk e -> validColor (averaged e).
Proof.
  unfold entryOk, validColor, averaged. cbn [r g b population].
  intros (Hc & Hr & Hg & Hb).
  split; [|split; [|split]]; try (apply Math_round_bounds; lia). exact Hc.
Qed.

Lemma bucketColors_valid (colorMap : ColorMap) :
  Forall entryOk (Map_values colorMap) ->
  Forall validColor (bucketColors colorMap).
Proof.
  intros H. unfold bucketColors. apply sortByPopulation_Forall.
  apply Forall_map. eapply Forall_impl; [|exact H].
  intros e. apply averaged_valid.
Qed.

Lemma bucketColors_population (colorMap : ColorMap) :
  totalPopulation (bucketColors colorMap) = sumCounts colorMap.
Proof.
  unfold bucketColors.
  rewrite (totalPopulation_perm _ _ (sortByPopulation_perm _)).
  unfold sumCounts. induction (Map_values colorMap) as [|e rest IH].
  - reflexivity.
  - cbn [map fold_right]. rewrite totalPopulation_cons, IH. reflexivity.
Qed.

Lemma bucketColors_length (colorMap : ColorMap) :
  List.length (bucketColors colorMap) = List.length colorMap.
Proof.
  unfold bucketColors, Map_values.
  now rewrite sortByPopulation_length, !length_map.
Qed.

Lemma withPercentage_valid (total : Z) (c : RawColor) :
  validColor c -> validColor (withPercentage total c).
Proof. unfold validColor. simpl. tauto. Qed.

Lemma assignPercentages_share (colors : list RawColor) :
  0 < totalPopulation colors ->
  Forall (hasShare (totalPopulation colors)) (assignPercentages colors).
Proof.
  intros Hpos. unfold assignPercentages. apply Forall_map.
  apply Forall_forall. intros c _. unfold hasShare, withPercentage.
  cbn [percentage population].
  apply Z.ltb_lt in Hpos. now rewrite Hpos.
Qed.

Lemma withPercentage_population (total : Z) (colors : list RawColor) :
  totalPopulation (map (withPercentage total) colors) = totalPopulation colors.
Proof.
  induction colors as [|c rest IH]; [reflexivity|].
  cbn [map]. rewrite !totalPopulation_cons, IH. reflexivity.
Qed.

Lemma assignPercentages_population (colors : list RawColor) :
  totalPopulation (assignPercentages colors) = totalPopulation colors.
Proof. apply withPercentage_population. Qed.

Lemma rankedColors_length (colorMap : ColorMap) (threshold : Q) :
  List.length (rankedColors colorMap threshold)
  = List.length (mergeStep (bucketColors colorMap) threshold).
Proof.
  unfold rankedColors, assignPercentages. cbv zeta.
  now rewrite sortByPopulation_length, length_map.
Qed.

Lemma rankedColors_valid (colorMap : ColorMap) (threshold : Q) :
  Forall entryOk (Map_values colorMap) ->
  Forall validColor (rankedColors colorMap threshold).
Proof.
  intros H. unfold rankedColors, assignPercentages. cbv zeta.
  apply sortByPopulation_Forall, Forall_map.
  eapply Forall_impl; [intros c; apply withPercentage_valid|].
  apply mergeStep_valid, bucketColors_valid, H.
Qed.

Lemma rankedColors_population (colorMap : ColorMap) (threshold : Q) :
  totalPopulation (rankedColors colorMap threshold) = sumCounts colorMap.
Proof.
  unfold rankedColors. cbv zeta.
  rewrite (totalPopulation_perm _ _ (sortByPopulation_perm _)).
  now rewrite assignPercentages_population, mergeStep_population,
    bucketColors_population.
Qed.

Lemma rankedColors_share (colorMap : ColorMap) (threshold : Q) :
  0 < sumCounts colorMap ->
  Forall (hasShare (sumCounts colorMap)) (rankedColors colorMap threshold).
Proof.
  intros Hpos. unfold rankedColors. cbv zeta.
  apply sortByPopulation_Forall.
  rewrite <- (bucketColors_population colorMap) in *.
  rewrite <- (mergeStep_population _ threshold) in *.
  now apply assignPercentages_share.
Qed.

Lemma sumCounts_nonempty (colorMap : ColorMap) :
  sumCounts colorMap <> 0 -> colorMap <> [].
Proof. intros H ->. now apply H. Qed.

Lemma rankedColors_nonempty (colorMap : ColorMap) (threshold : Q) :
  sumCounts colorMap <> 0 ->
  (1 <= List.length (rankedColors colorMap threshold))%nat.
Proof.
  intros H. rewrite rankedColors_length. apply mergeStep_nonempty.
  intros E. apply (f_equal (@List.length _)) in E.
  rewrite bucketColors_length in E.
  apply sumCounts_nonempty in H. destruct colorMap; [congruence|].
  discriminate.
Qed.

(** ** Truncation *)

Lemma Array_slice0_firstn {A : Type} (arr : list A) (end_ : Z) :
  0 <= end_ -> Array_slice0 arr end_ = firstn (Z.to_nat end_) arr.
Proof.
  intros H. unfold Array_slice0.
  destruct (end_ <? 0) eqn:E; [apply Z.ltb_lt in E; lia|].
  destruct (Z.le_ge_cases end_ (Z.of_nat (List.length arr))) as [Hle|Hge].
  - now rewrite Z.min_l.
  - rewrite Z.min_r by exact Hge. rewrite Nat2Z.id.
    rewrite firstn_all. symmetry. apply firstn_all2. lia.
Qed.

Lemma Array_slice0_length {A : Type} (arr : list A) (end_ : Z) :
  0 <= end_ ->
  List.length (Array_slice0 arr end_)
  = Nat.min (Z.to_nat end_) (List.length arr).
Proof.
  intros H. rewrite Array_slice0_firstn by exact H. apply length_firstn.
Qed.

(** ** The TypeScript entry point on image data *)

Lemma TS_palette_of_sample (data : list Z) (paletteSize sampleStep t : Q)
    (colorMap : ColorMap) (totalSamples : Z) :
  TS.sample data sampleStep = Finished (colorMap, totalSamples) ->
  totalSamples <> 0 ->
  TS.getColorPaletteFromImageElement data paletteSize sampleStep t
  = Finished (map TS.toPaletteColor (TS.limitedColors colorMap paletteSize t)).
Proof.
  intros Hs Hne. unfold TS.getColorPaletteFromImageElement. rewrite Hs.
  apply Z.eqb_neq in Hne. now rewrite Hne.
Qed.

Lemma TS_palette_of_nothing (data : list Z) (paletteSize sampleStep t : Q)
    (colorMap : ColorMap) :
  TS.sample data sampleStep = Finished (colorMap, 0) ->
  TS.getColorPaletteFromImageElement data paletteSize sampleStep t
  = Finished [].
Proof.
  intros Hs. unfold TS.getColorPaletteFromImageElement. now rewrite Hs.
Qed.

Lemma scanTraced_erase (merged : list Traced) (color : RawColor)
    (threshold : Q) :
  option_map (map fst) (scanTraced merged color threshold)
  = scanClusters (map fst merged) color threshold.
Proof.
  induction merged as [|[c ms] rest IH]; simpl; auto.
  destruct (withinThreshold color c threshold); simpl; auto.
  rewrite <- IH. now destruct (scanTraced rest color threshold).
Qed.

Lemma mergeOneTraced_erase (threshold : Q) (merged : list Traced)
    (color : RawColor) :
  map fst (mergeOneTraced threshold merged color)
  = mergeOne threshold (map fst merged) color.
Proof.
  unfold mergeOneTraced, mergeOne. rewrite <- scanTraced_erase.
  destruct (scanTraced merged color threshold); simpl; auto.
  now rewrite map_app.
Qed.

Lemma mergeStepTraced_erase (colors : list RawColor) (threshold : Q) :
  map fst (mergeStepTraced colors threshold) = mergeStep colors threshold.
Proof.
  unfold mergeStepTraced, mergeStep, mergeSimilarColors.
  destruct (Qlt_le_dec 0 threshold).
  - change (@nil RawColor) with (map fst (@nil Traced)).
    generalize (@nil Traced).
    induction colors as [|c rest IH]; intros acc; simpl; auto.
    now rewrite IH, mergeOneTraced_erase.
  - rewrite map_map. simpl. apply map_id.
Qed.

Lemma scanTraced_inv (merged : list Traced) (color : RawColor)
    (threshold : Q) (merged' : list Traced) :
  scanTraced merged color threshold = Some merged' ->
  Forall populationOfMembers merged ->
  Forall populationOfMembers merged'
  /\ Permutation (List.concat (map snd merged'))
                 (color :: List.concat (map snd merged)).
Proof.
  revert merged'.
  induction merged as [|[c ms] rest IH]; intros merged' H Hinv; simpl in H.
  - discriminate.
  - inversion Hinv as [|? ? Hc Hrest]; subst.
    destruct (withinThreshold color c threshold).
    + inversion H; subst. split.
      * constructor; auto. unfold populationOfMembers in *. simpl in *.
        rewrite totalPopulation_app, totalPopulation_cons, Hc.
        change (totalPopulation []) with 0. lia.
      * simpl. rewrite <- app_assoc. simpl.
        symmetry. apply Permutation_middle.
    + destruct (scanTraced rest color threshold) as [m|];
        simpl in H; [|discriminate].
      inversion H; subst. destruct (IH m eq_refl Hrest) as [IH1 IH2].
      split; [constructor; auto|].
      simpl. rewrite IH2. symmetry. apply Permutation_middle.
Qed.

Lemma mergeOneTraced_inv (threshold : Q) (merged : list Traced)
    (color : RawColor) :
  Forall populationOfMembers merged ->
  Forall populationOfMembers (mergeOneTraced threshold merged color)
  /\ Permutation
       (List.concat (map snd (mergeOneTraced threshold merged color)))
       (color :: List.concat (map snd merged)).
Proof.
  intros Hinv. unfold mergeOneTraced.
  destruct (scanTraced merged color threshold) eqn:E.
  - eauto using scanTraced_inv.
  - split.
    + apply Forall_app. split; auto. constructor; [|constructor].
      unfold populationOfMembers. simpl.
      rewrite totalPopulation_cons. change (totalPopulation []) with 0. lia.
    + rewrite map_app, concat_app. simpl.
      symmetry. apply Permutation_cons_append.
Qed.

Lemma mergeStepTraced_inv (colors : list RawColor) (threshold : Q) :
  Forall populationOfMembers (mergeStepTraced colors threshold)
  /\ Permutation (List.concat (map snd (mergeStepTraced colors threshold)))
                 colors.
Proof.
  unfold mergeStepTraced. destruct (Qlt_le_dec 0 threshold).
  - assert (H : forall acc,
               Forall populationOfMembers acc ->
               Forall populationOfMembers
                 (fold_left (mergeOneTraced threshold) colors acc)
               /\ Permutation
                    (List.concat
                       (map snd
                          (fold_left (mergeOneTraced threshold) colors acc)))
                    (List.concat (map snd acc) ++ colors)).
    { induction colors as [|c rest IH]; intros acc Hacc; simpl.
      - split; auto. now rewrite app_nil_r.
      - destruct (mergeOneTraced_inv threshold acc c Hacc) as [H1 H2].
        destruct (IH _ H1) as [IH1 IH2]. split; auto.
        rewrite IH2, H2. simpl. apply Permutation_middle. }
    destruct (H [] (Forall_nil _)) as [H1 H2]. split; auto.
  - split.
    + apply Forall_map, Forall_forall. intros c _.
      unfold populationOfMembers. simpl.
      rewrite totalPopulation_cons. change (totalPopulation []) with 0. lia.
    + rewrite map_map. simpl.
      induction colors as [|c rest IH]; simpl; auto.
Qed.

(** C4.  On image data, every bucket has a population of at least 1, the
    bucket populations sum to the number of accepted sampled pixels (alpha
    at least 128), the merge step keeps that sum, and every cluster's
    population is the sum of the populations of the buckets that went into
    it, each bucket going into exactly one cluster. *)
Theorem populations_account_for_every_sample
    (data : list Z) (sampleStep nearDuplicateThreshold : Q) :
  isImageData data = true ->
  exists (colorMap : ColorMap) (totalSamples : Z),
    TS.sample data sampleStep = Finished (colorMap, totalSamples)
    /\ Forall (fun bucket => 1 <= population bucket) (bucketColors colorMap)
    /\ totalPopulation (bucketColors colorMap)
       = Z.of_nat (List.length (acceptedPixels data sampleStep))
    /\ totalSamples = Z.of_nat (List.length (acceptedPixels data sampleStep))
    /\ totalPopulation (mergeStep (bucketColors colorMap)
                          nearDuplicateThreshold)
       = totalPopulation (bucketColors colorMap)
    /\ exists absorbed : list (RawColor * list RawColor),
         map fst absorbed
         = mergeStep (bucketColors colorMap) nearDuplicateThreshold
         /\ Forall (fun x => population (fst x) = totalPopulation (snd x))
                   absorbed
         /\ Permutation (List.concat (map snd absorbed))
                        (bucketColors colorMap).
Proof.
  intros Hdata.
  destruct (sample_ok data sampleStep Hdata)
    as (colorMap & totalSamples & Hs & Hok & Hsum & Htotal).
  exists colorMap, totalSamples. split; [exact Hs|].
  split.
  { eapply Forall_impl; [|apply bucketColors_valid, Hok].
    intros c (_ & _ & _ & Hp). exact Hp. }
  split; [rewrite bucketColors_population; congruence|].
  split; [exact Htotal|].
  split; [apply mergeStep_population|].
  exists (mergeStepTraced (bucketColors colorMap) nearDuplicateThreshold).
  split; [apply mergeStepTraced_erase|].
  apply mergeStepTraced_inv.
Qed.

(** C6, in the TypeScript file.  Whatever [sampleStep] is, the loop counter
    grows by at least 4 buffer entries (one pixel) in every iteration, the
    loop is over after at most [data.length] iterations, and more fuel does
    not change what it returns. *)
Theorem sampleStep_clamped_loop_ends (sampleStep : Q) (data : list Z) :
  let inc := TS.stride sampleStep in
  inc = 4 * Z.max 1 (Math_floor sampleStep)
  /\ 4 <= inc
  /\ (forall (fuel : nat) (i : Z) (st : LoopState),
        i < Z.of_nat (List.length data) ->
        TS.sampleLoop (S fuel) data inc i st = UndefinedRead
        \/ exists st',
             TS.sampleLoop (S fuel) data inc i st
             = TS.sampleLoop fuel data inc (i + inc) st')
  /\ TS.sample data sampleStep <> OutOfFuel
  /\ (forall fuel : nat,
        (List.length data <= fuel)%nat ->
        TS.sampleLoop fuel data inc 0 emptyState = TS.sample data sampleStep).
Proof.
  intros inc. subst inc.
  pose proof (stride_ge_4 sampleStep) as H4.
  split; [reflexivity|]. split; [exact H4|].
  assert (Hrun : TS.sample data sampleStep <> OutOfFuel).
  { unfold TS.sample. apply sampleLoop_fuel; lia. }
  split; [|split; [exact Hrun|]].
  - intros fuel i st Hi. apply Z.ltb_lt in Hi. simpl. rewrite Hi.
    destruct (data_get data i); auto.
    destruct (data_get data (i + 1)); auto.
    destruct (data_get data (i + 2)); auto.
    destruct (data_get data (i + 3)); auto.
    right. destruct (z2 <? 128); eauto.
  - intros fuel Hfuel. unfold TS.sample in *.
    now apply sampleLoop_more_fuel.
Qed.

(** C5, in the TypeScript file.  When at least one sampled pixel is
    accepted, the palette has at least one entry for every [paletteSize],
    at most [max(1, floor(paletteSize))] entries, and so at most
    [paletteSize] entries when [paletteSize] is 1 or more. *)
Lemma paletteSize_clamped
    (data : list Z) (paletteSize sampleStep nearDuplicateThreshold : Q) :
  isImageData data = true ->
  acceptedPixels data sampleStep <> [] ->
  exists palette,
    TS.getColorPaletteFromImageElement data paletteSize sampleStep
      nearDuplicateThreshold = Finished palette
    /\ (1 <= List.length palette)%nat
    /\ Z.of_nat (List.length palette) <= Z.max 1 (Math_floor paletteSize)
    /\ ((1 <= paletteSize)%Q ->
        (inject_Z (Z.of_nat (List.length palette)) <= paletteSize)%Q).
Proof.
  intros Hdata Hacc.
  destruct (sample_ok data sampleStep Hdata)
    as (colorMap & totalSamples & Hs & Hok & Hsum & Htotal).
  assert (Hne : totalSamples <> 0).
  { rewrite Htotal. destruct (acceptedPixels data sampleStep);
      [congruence | simpl; lia]. }
  eexists. split; [eapply TS_palette_of_sample; eauto|].
  rewrite length_map. unfold TS.limitedColors.
  rewrite Array_slice0_length by lia.
  pose proof (rankedColors_nonempty colorMap nearDuplicateThreshold) as Hr.
  rewrite Hsum in Hr. specialize (Hr Hne).
  split; [lia|]. split; [lia|].
  intros Hps.
  assert (Hfl : 1 <= Math_floor paletteSize).
  { unfold Math_floor. rewrite <- (Qfloor_Z 1). now apply Qfloor_resp_le. }
  pose proof (Qfloor_le paletteSize) as Hle.
  eapply Qle_trans; [|exact Hle]. rewrite <- Zle_Qle.
  unfold Math_floor in *. lia.
Qed.

(** ** Percentages *)

Lemma Forall_prefix {A : Type} (P : A -> Prop) (n : nat) (l : list A) :
  Forall P l -> Forall P (firstn n l).
Proof.
  intros H. revert n. induction H as [|x l Hx Hl IH]; intros [|n]; simpl;
    constructor; auto.
Qed.




Lemma every_byte (P : Z -> bool) :
  forallb P (map Z.of_nat (seq 0 256)) = true ->
  forall v, channel v -> P v = true.
Proof.
  intros H v [Hlo Hhi]. rewrite forallb_forall in H. apply H.
  apply in_map_iff. exists (Z.to_nat v). split; [lia|].
  apply in_seq. lia.
Qed.

Lemma paddedHex_byte (v : Z) : channel v -> paddedHex v = hexPair v.
Proof.
  intros Hv. apply String.eqb_eq.
  revert v Hv. apply every_byte. vm_compute. reflexivity.
Qed.

Lemma hexPair_digits (v : Z) :
  channel v ->
  isLowerHexDigit (digitChar (v / 16)) = true
  /\ isLowerHexDigit (digitChar (v mod 16)) = true.
Proof.
  intros Hv. apply andb_true_iff.
  revert v Hv. apply every_byte. vm_compute. reflexivity.
Qed.

Lemma rgbToHex_pairs (r g b : Z) :
  channel r -> channel g -> channel b ->
  rgbToHex r g b
  = String "#" (String (digitChar (r / 16)) (String (digitChar (r mod 16))
      (String (digitChar (g / 16)) (String (digitChar (g mod 16))
        (String (digitChar (b / 16)) (String (digitChar (b mod 16))
          EmptyString)))))).
Proof.
  intros Hr Hg Hb.
  change (rgbToHex r g b)
    with ("#" ++ String.concat "" [paddedHex r; paddedHex g; paddedHex b])%string.
  rewrite !paddedHex_byte by assumption.
  reflexivity.
Qed.

Lemma rgbToHex_isHexColor (r g b : Z) :
  channel r -> channel g -> channel b ->
  String.length (rgbToHex r g b) = 7%nat /\ isHexColor (rgbToHex r g b) = true.
Proof.
  intros Hr Hg Hb. rewrite rgbToHex_pairs by assumption.
  split; [reflexivity|].
  destruct (hexPair_digits r Hr) as [R1 R2].
  destruct (hexPair_digits g Hg) as [G1 G2].
  destruct (hexPair_digits b Hb) as [B1 B2].
  cbn [isHexColor String.length Nat.eqb list_ascii_of_string forallb andb].
  now rewrite R1, R2, G1, G2, B1, B2.
Qed.

(** ** Text colour *)

Module ContrastFacts.
Import Contrast.
Local Open Scope R_scope.

Lemma channelToLinear_0 : channelToLinear 0 = 0.
Proof.
  unfold channelToLinear. cbv zeta.
  destruct (Rle_dec (0 / 255) 0.03928) as [_|H]; lra.
Qed.

Lemma channelToLinear_255 : channelToLinear 255 = 1.
Proof.
  unfold channelToLinear. cbv zeta.
  destruct (Rle_dec (255 / 255) 0.03928) as [H|_]; [lra|].
  replace ((255 / 255 + 0.055) / 1.055) with 1 by lra.
  unfold Rpower. rewrite ln_1, Rmult_0_r. apply exp_0.
Qed.

Lemma luminance_black : srgbToLuminance 0 0 0 = 0.
Proof. unfold srgbToLuminance. cbv zeta. rewrite channelToLinear_0. lra. Qed.

Lemma luminance_white : srgbToLuminance 255 255 255 = 1.
Proof. unfold srgbToLuminance. cbv zeta. rewrite channelToLinear_255. lra. Qed.

Lemma bestTextColor_rule (r g b : Z) :
  bestTextColor r g b
  = if Rge_dec (contrastRatio (srgbToLuminance r g b) 1)
               (contrastRatio (srgbToLuminance r g b) 0)
    then "#FFFFFF"%string else "#000000"%string.
Proof.
  unfold bestTextColor. cbv zeta.
  now rewrite luminance_white, luminance_black.
Qed.

Lemma contrast_black_on_white : contrastRatio 0 1 = 21.
Proof.
  unfold contrastRatio. cbv zeta.
  rewrite Rmax_right, Rmin_left by lra. lra.
Qed.

Lemma contrast_same (L : R) : 0 <= L -> contrastRatio L L = 1.
Proof.
  intros H. unfold contrastRatio. cbv zeta.
  rewrite Rmax_left, Rmin_left by lra. field. lra.
Qed.

Lemma contrast_white_on_black : contrastRatio 1 0 = 21.
Proof.
  unfold contrastRatio. cbv zeta.
  rewrite Rmax_left, Rmin_right by lra. lra.
Qed.

End ContrastFacts.

(** C9.  Black backgrounds get white text and white backgrounds black
    text.  In general, with [L] the relative luminance of the background by
    the WCAG formula (each channel divided by 255 and linearized, [c / 12.92]
    up to 0.03928 and [((c + 0.055) / 1.055) ^ 2.4] above, then
    [0.2126 R + 0.7152 G + 0.0722 B]), the text is white exactly when the
    contrast ratio [(lighter + 0.05) / (darker + 0.05)] of [L] against
    luminance 1 is at least its contrast ratio against luminance 0, and
    black exactly when it is smaller. *)
Theorem bestTextColor_by_contrast :
  Contrast.bestTextColor 0 0 0 = "#FFFFFF"%string
  /\ Contrast.bestTextColor 255 255 255 = "#000000"%string
  /\ forall r g b : Z,
       let linear := fun channel : Z =>
         let c := (IZR channel / 255)%R in
         if Rle_dec c 0.03928 then (c / 12.92)%R
         else Rpower ((c + 0.055) / 1.055) 2.4 in
       let L :=
         (0.2126 * linear r + 0.7152 * linear g + 0.0722 * linear b)%R in
       let ratio := fun lighter darker : R =>
         ((lighter + 0.05) / (darker + 0.05))%R in
       let againstWhite := ratio (Rmax L 1) (Rmin L 1) in
       let againstBlack := ratio (Rmax L 0) (Rmin L 0) in
       (Contrast.bestTextColor r g b = "#FFFFFF"%string
        <-> (againstWhite >= againstBlack)%R)
       /\ (Contrast.bestTextColor r g b = "#000000"%string
           <-> (againstWhite < againstBlack)%R).
Proof.
  split; [|split].
  - rewrite ContrastFacts.bestTextColor_rule, ContrastFacts.luminance_black.
    rewrite ContrastFacts.contrast_black_on_white,
      ContrastFacts.contrast_same by lra.
    destruct (Rge_dec 21 1) as [_|H]; [reflexivity | lra].
  - rewrite ContrastFacts.bestTextColor_rule, ContrastFacts.luminance_white.
    rewrite ContrastFacts.contrast_white_on_black,
      ContrastFacts.contrast_same by lra.
    destruct (Rge_dec 1 21) as [H|_]; [lra | reflexivity].
  - intros r g b linear L ratio againstWhite againstBlack.
    rewrite ContrastFacts.bestTextColor_rule.
    change (Contrast.contrastRatio (Contrast.srgbToLuminance r g b) 1)
      with againstWhite.
    change (Contrast.contrastRatio (Contrast.srgbToLuminance r g b) 0)
      with againstBlack.
    destruct (Rge_dec againstWhite againstBlack) as [H|H].
    + split; split; intros H'; try assumption; try reflexivity;
        try discriminate.
      exfalso. apply (Rlt_not_ge _ _ H' H).
    + split; split; intros H'; try reflexivity; try discriminate;
        try contradiction.
      now apply Rnot_ge_lt.
Qed.

(** ** The JavaScript file against the TypeScript file *)

Lemma JS_Map_modify_set (m : ColorMap) (key : Z) (f : Entry -> Entry) :
  JS.Map_modify
    (match Map_get m key with
     | Some _ => m
     | None => Map_set m key (mkEntry 0 0 0 0)
     end) key f
  = Map_set m key (f (entryOrNew (Map_get m key))).
Proof.
  induction m as [|[k e] m' IH]; simpl.
  - now rewrite Z.eqb_refl.
  - destruct (k =? key) eqn:E; simpl.
    + now rewrite E.
    + rewrite <- IH.
      destruct (Map_get m' key); simpl; now rewrite E.
Qed.

(** Changing the stored object in place is [Map.set] of the new value. *)
Lemma JS_accumulate_eq (st : LoopState) (r g b : Z) :
  JS.accumulate st r g b = accumulate st r g b.
Proof.
  destruct st as [m total]. rewrite accumulate_unfold.
  unfold JS.accumulate. f_equal.
  apply (JS_Map_modify_set m (quantKey r g b) (addSample r g b)).
Qed.

Lemma data_getQ_integer (data : list Z) (q : Q) (z : Z) :
  (q == inject_Z z)%Q -> JS.data_getQ data q = data_get data z.
Proof.
  intros H. unfold JS.data_getQ.
  assert (Hf : Qfloor q = z) by (rewrite H; apply Qfloor_Z).
  rewrite Hf.
  assert (Hb : Qeq_bool q (inject_Z z) = true) by now apply Qeq_bool_iff.
  now rewrite Hb.
Qed.

Lemma loop_test_integer (len : Z) (q : Q) (z : Z) :
  (q == inject_Z z)%Q ->
  negb (Qle_bool (inject_Z len) q) = (z <? len).
Proof.
  intros H.
  destruct (z <? len) eqn:E.
  - apply Z.ltb_lt in E. apply negb_true_iff.
    destruct (Qle_bool (inject_Z len) q) eqn:E'; auto.
    apply Qle_bool_iff in E'. rewrite H, <- Zle_Qle in E'. lia.
  - apply Z.ltb_ge in E. apply negb_false_iff.
    apply Qle_bool_iff. rewrite H, <- Zle_Qle. exact E.
Qed.

Lemma Qplus_integer (q : Q) (z c : Z) :
  (q == inject_Z z)%Q -> (q + inject_Z c == inject_Z (z + c))%Q.
Proof. intros H. now rewrite H, inject_Z_plus. Qed.

(** With an integer counter and an integer increment the two loops run in
    lockstep. *)
Lemma JS_sampleLoop_integer (data : list Z) (incq : Q) (inc : Z) :
  (incq == inject_Z inc)%Q ->
  forall (fuel : nat) (q : Q) (i : Z) (st : LoopState),
    (q == inject_Z i)%Q ->
    JS.sampleLoop fuel data incq q st = TS.sampleLoop fuel data inc i st.
Proof.
  intros Hinc. induction fuel as [|fuel IH]; intros q i st Hq;
    cbn [JS.sampleLoop TS.sampleLoop];
    rewrite (loop_test_integer _ q i Hq); auto.
  destruct (i <? Z.of_nat (List.length data)); auto.
  rewrite (data_getQ_integer data q i Hq).
  rewrite (data_getQ_integer data (q + 1) (i + 1) (Qplus_integer q i 1 Hq)).
  rewrite (data_getQ_integer data (q + 2) (i + 2) (Qplus_integer q i 2 Hq)).
  rewrite (data_getQ_integer data (q + 3) (i + 3) (Qplus_integer q i 3 Hq)).
  assert (Hnext : (q + incq == inject_Z (i + inc))%Q)
    by now rewrite Hq, Hinc, inject_Z_plus.
  destruct (data_get data i); auto.
  destruct (data_get data (i + 1)); auto.
  destruct (data_get data (i + 2)); auto.
  destruct (data_get data (i + 3)); auto.
  rewrite JS_accumulate_eq.
  destruct (z2 <? 128); now apply IH.
Qed.

Lemma JS_sample_integer (data : list Z) (k : Z) (fuel : nat) :
  1 <= k -> (List.length data <= fuel)%nat ->
  JS.sample fuel data (inject_Z k) = TS.sample data (inject_Z k).
Proof.
  intros Hk Hfuel. unfold JS.sample, TS.sample, TS.stride, Math_floor.
  rewrite Qfloor_Z, Z.max_r by lia.
  assert (Hinc : (4 * inject_Z k == inject_Z (4 * k))%Q)
    by now rewrite inject_Z_mult.
  rewrite (JS_sampleLoop_integer data (4 * inject_Z k) (4 * k) Hinc
             fuel 0%Q 0 emptyState ltac:(reflexivity)).
  apply sampleLoop_more_fuel; auto. apply sampleLoop_fuel; lia.
Qed.

Lemma ToInteger_positive (x : Q) :
  (1 <= x)%Q -> ToInteger x = Z.max 1 (Math_floor x).
Proof.
  intros H. unfold ToInteger, Math_floor.
  assert (Hb : Qle_bool 0 x = true) by (apply Qle_bool_iff; lra).
  rewrite Hb.
  assert (1 <= Qfloor x).
  { rewrite <- (Qfloor_Z 1). now apply Qfloor_resp_le. }
  lia.
Qed.

(** C10, as amended.  For an integer [sampleStep] of 1 or more and a
    [paletteSize] of 1 or more, the JavaScript pipeline, given at least
    [data.length] units of fuel, returns what the TypeScript pipeline
    returns, on every buffer and for every threshold; the defaults of
    lib/paletteConfig.ts are the defaults of the JavaScript parameter
    list. *)
Theorem JS_agrees_with_TS_on_positive_integers
    (data : list Z) (paletteSize nearDuplicateThreshold : Q)
    (sampleStep : Z) (fuel : nat) :
  1 <= sampleStep ->
  (1 <= paletteSize)%Q ->
  (List.length data <= fuel)%nat ->
  JS.getColorPaletteFromImageElement fuel data paletteSize
    (inject_Z sampleStep) nearDuplicateThreshold
  = TS.getColorPaletteFromImageElement data paletteSize
      (inject_Z sampleStep) nearDuplicateThreshold
  /\ PALETTE_DEFAULTS = JS_defaults.
Proof.
  intros Hstep Hsize Hfuel. split; [|reflexivity].
  unfold JS.getColorPaletteFromImageElement,
    TS.getColorPaletteFromImageElement.
  rewrite (JS_sample_integer data sampleStep fuel Hstep Hfuel).
  destruct (TS.sample data (inject_Z sampleStep)) as [[colorMap total]| |];
    auto.
  destruct (total =? 0); auto.
  unfold JS.limitedColors, TS.limitedColors.
  now rewrite (ToInteger_positive paletteSize Hsize).
Qed.

(** With [sampleStep = 0] the JavaScript loop stays on the first pixel. *)
Lemma JS_zero_step_never_ends (data : list Z) (fuel : nat) :
  isImageData data = true -> data <> [] ->
  JS.sample fuel data 0 = OutOfFuel.
Proof.
  intros Hdata Hne. unfold JS.sample.
  pose proof (isImageData_length data Hdata) as Hlen.
  assert (Hpos : 0 < Z.of_nat (List.length data)).
  { destruct data; [congruence|]. cbn [List.length]. lia. }
  assert (Hpix : 1 <= pixelCount data) by lia.
  generalize emptyState.
  induction fuel as [|fuel IH]; intros st.
  - rewrite (JS_sampleLoop_integer data (4 * 0) 0 ltac:(reflexivity)
               0%nat 0%Q 0 st ltac:(reflexivity)).
    simpl. destruct (0 <? Z.of_nat (List.length data)) eqn:E; auto.
    apply Z.ltb_ge in E. lia.
  - rewrite (JS_sampleLoop_integer data (4 * 0) 0 ltac:(reflexivity)
               (S fuel) 0%Q 0 st ltac:(reflexivity)).
    rewrite (sampleLoop_step fuel data 0 0 st
               (channelAt data 0 0) (channelAt data 0 1)
               (channelAt data 0 2) (channelAt data 0 3));
      try (apply (data_get_channelAt data 0); lia); try lia.
    rewrite <- (JS_sampleLoop_integer data (4 * 0) 0 ltac:(reflexivity)
                  fuel 0%Q (0 + 0) _ ltac:(reflexivity)).
    apply IH.
Qed.

Lemma JS_palette_of_sample (fuel : nat) (data : list Z)
    (paletteSize sampleStep t : Q) (colorMap : ColorMap) (totalSamples : Z) :
  JS.sample fuel data sampleStep = Finished (colorMap, totalSamples) ->
  totalSamples <> 0 ->
  JS.getColorPaletteFromImageElement fuel data paletteSize sampleStep t
  = Finished (map JS.toPaletteColor (JS.limitedColors colorMap paletteSize t)).
Proof.
  intros Hs Hne. unfold JS.getColorPaletteFromImageElement. rewrite Hs.
  apply Z.eqb_neq in Hne. now rewrite Hne.
Qed.


(** ** Concrete runs *)

(** Evaluates the extraction on a concrete buffer up to, and not into, the
    formatting of the colours. *)
Ltac run_TS :=
  eapply TS_palette_of_sample; [vm_compute; reflexivity | discriminate].

Ltac run_JS :=
  eapply JS_palette_of_sample; [vm_compute; reflexivity | discriminate].

Lemma reds_valid : Forall validColor [red100; red120; red135; red85].
Proof. repeat constructor; simpl; lia. Defined.

Lemma mergeSimilarColors_first_match_witness :
  (0 < 15)%Q
  /\ ltac:(match type of
             (mergeSimilarColors_first_match [red100; red120] red135 15)
           with _ -> ?C => exact C end).
Proof.
  split; [reflexivity|].
  apply (mergeSimilarColors_first_match [red100; red120] red135 15).
  reflexivity.
Defined.



(** C3 fails: on [imageReds] the threshold 15 leaves 2 clusters and the
    larger threshold 20 leaves 3. *)
Lemma larger_threshold_more_clusters :
  exists clusters15 clusters20,
    TS.clusters imageReds 1 15 = Finished clusters15
    /\ TS.clusters imageReds 1 20 = Finished clusters20
    /\ (15 <= 20)%Q
    /\ List.length clusters15 = 2%nat
    /\ List.length clusters20 = 3%nat
    /\ ~ (List.length clusters20 <= List.length clusters15)%nat.
Proof.
  eexists. eexists.
  split; [vm_compute; reflexivity|].
  split; [vm_compute; reflexivity|].
  split; [discriminate|].
  split; [reflexivity|]. split; [reflexivity|].
  simpl. lia.
Qed.

Lemma threshold_monotone_at_the_ends_witness :
  Forall validColor [red100; red120; red135; red85]
  /\ (0 <= 20)%Q
  /\ ((0 <= 0)%Q \/ (442 <= 20)%Q)
  /\ (List.length (mergeStep [red100; red120; red135; red85] 20)
      <= List.length (mergeStep [red100; red120; red135; red85] 0))%nat.
Proof.
  assert (H1 : (0 <= 20)%Q) by discriminate.
  assert (H2 : (0 <= 0)%Q \/ (442 <= 20)%Q) by (left; discriminate).
  split; [exact reds_valid|]. split; [exact H1|]. split; [exact H2|].
  exact (threshold_monotone_at_the_ends _ 0 20 reds_valid H1 H2).
Defined.

Lemma populations_account_for_every_sample_witness :
  isImageData image2x2 = true
  /\ ltac:(match type of
             (populations_account_for_every_sample image2x2 1 50)
           with _ -> ?C => exact C end).
Proof.
  split; [reflexivity|].
  exact (populations_account_for_every_sample image2x2 1 50 eq_refl).
Defined.

Lemma sampleStep_clamped_loop_ends_witness :
  4 <= TS.stride 0
  /\ TS.sample image2x2 0 <> OutOfFuel.
Proof.
  destruct (sampleStep_clamped_loop_ends 0 image2x2)
    as (_ & H4 & _ & Hrun & _).
  split; [exact H4 | exact Hrun].
Defined.

(** C10 fails: for [paletteSize = 0] the JavaScript file returns the empty
    palette where the TypeScript file returns one colour. *)
Lemma JS_and_TS_differ_for_paletteSize_0 :
  JS.getColorPaletteFromImageElement 16 image2x2 0 1 0 = Finished []
  /\ (exists c,
        TS.getColorPaletteFromImageElement image2x2 0 1 0 = Finished [c])
  /\ JS.getColorPaletteFromImageElement 16 image2x2 0 1 0
     <> TS.getColorPaletteFromImageElement image2x2 0 1 0.
Proof.
  assert (HJ : JS.getColorPaletteFromImageElement 16 image2x2 0 1 0
               = Finished (map JS.toPaletteColor [])).
  { eapply eq_trans; [run_JS|].
    apply f_equal, f_equal. vm_compute. reflexivity. }
  assert (HT : TS.getColorPaletteFromImageElement image2x2 0 1 0
               = Finished (map TS.toPaletteColor
                             [mkRawColor 255 0 0 2 (Some (2 # 4))])).
  { eapply eq_trans; [run_TS|].
    apply f_equal, f_equal. vm_compute. reflexivity. }
  cbn [map] in HJ, HT.
  split; [exact HJ|]. split; [eexists; exact HT|].
  rewrite HJ, HT. discriminate.
Qed.

Lemma JS_agrees_with_TS_on_positive_integers_witness :
  1 <= 1 /\ (1 <= 2)%Q /\ (List.length image2x2 <= 16)%nat
  /\ JS.getColorPaletteFromImageElement 16 image2x2 2 (inject_Z 1) 50
     = TS.getColorPaletteFromImageElement image2x2 2 (inject_Z 1) 50.
Proof.
  assert (H1 : 1 <= 1) by lia.
  assert (H2 : (1 <= 2)%Q) by discriminate.
  assert (H3 : (List.length image2x2 <= 16)%nat) by (simpl; lia).
  split; [exact H1|]. split; [exact H2|]. split; [exact H3|].
  exact (proj1 (JS_agrees_with_TS_on_positive_integers
                  image2x2 2 50 1 16 H1 H2 H3)).
Defined.

Lemma defaults_rev8_differ : PALETTE_DEFAULTS_rev8 <> JS_defaults.
Proof. discriminate. Qed.

(** With an integer [sampleStep] of 1 or more the JavaScript entry point
    continues from the same bucket map as the TypeScript one. *)
Lemma JS_palette_integer_step (data : list Z) (paletteSize t : Q)
    (k : Z) (fuel : nat) :
  isImageData data = true -> 1 <= k -> (List.length data <= fuel)%nat ->
  exists colorMap totalSamples,
    TS.sample data (inject_Z k) = Finished (colorMap, totalSamples)
    /\ Forall entryOk (Map_values colorMap)
    /\ totalSamples
       = Z.of_nat (List.length (acceptedPixels data (inject_Z k)))
    /\ JS.getColorPaletteFromImageElement fuel data paletteSize
         (inject_Z k) t
       = if totalSamples =? 0 then Finished []
         else Finished (map JS.toPaletteColor
                          (JS.limitedColors colorMap paletteSize t)).
Proof.
  intros Hdata Hk Hfuel.
  destruct (sample_ok data (inject_Z k) Hdata)
    as (colorMap & totalSamples & Hs & Hok & Hsum & Htotal).
  exists colorMap, totalSamples. repeat split; auto.
  unfold JS.getColorPaletteFromImageElement.
  now rewrite (JS_sample_integer data k fuel Hk Hfuel), Hs.
Qed.

Lemma no_accepted_pixels (data : list Z) (sampleStep : Q) :
  (forall p, In p (sampledPixels data sampleStep) ->
     channelAt data p 3 < 128) ->
  acceptedPixels data sampleStep = [].
Proof.
  intros Halpha. unfold acceptedPixels.
  induction (sampledPixels data sampleStep) as [|p rest IH]; auto.
  simpl. destruct (128 <=? channelAt data p 3) eqn:E.
  - apply Z.leb_le in E. specialize (Halpha p (or_introl eq_refl)). lia.
  - apply IH. intros q Hq. apply Halpha. now right.
Qed.

Lemma Array_slice0_Forall {A : Type} (P : A -> Prop) (arr : list A)
    (end_ : Z) :
  Forall P arr -> Forall P (Array_slice0 arr end_).
Proof. intros H. unfold Array_slice0. now apply Forall_prefix. Qed.

Lemma validColor_hexShaped_TS (c : RawColor) :
  validColor c -> hexShaped (TS.toPaletteColor c).
Proof.
  intros (Hr & Hg & Hb & _). unfold hexShaped.
  cbn [TS.toPaletteColor PaletteColor.paletteColor].
  now apply rgbToHex_isHexColor.
Qed.

Lemma validColor_hexShaped_JS (c : RawColor) :
  validColor c -> hexShaped (JS.toPaletteColor c).
Proof.
  intros (Hr & Hg & Hb & _). unfold hexShaped.
  cbn [JS.toPaletteColor PaletteColor.paletteColor].
  now apply rgbToHex_isHexColor.
Qed.

(** C7, in the TypeScript file.  On image data the extraction always
    returns a palette; it returns the empty palette when every sampled
    pixel has alpha below 128, and in particular on the empty buffer.  The
    JavaScript file does the same for an integer [sampleStep] of 1 or
    more. *)
Lemma extraction_cannot_fail
    (data : list Z) (paletteSize sampleStep nearDuplicateThreshold : Q) :
  isImageData data = true ->
  (exists palette,
      TS.getColorPaletteFromImageElement data paletteSize sampleStep
        nearDuplicateThreshold = Finished palette)
  /\ ((forall p, In p (sampledPixels data sampleStep) ->
         channelAt data p 3 < 128) ->
      TS.getColorPaletteFromImageElement data paletteSize sampleStep
        nearDuplicateThreshold = Finished [])
  /\ (data = [] ->
      TS.getColorPaletteFromImageElement data paletteSize sampleStep
        nearDuplicateThreshold = Finished [])
  /\ (forall (k : Z) (fuel : nat),
        1 <= k -> (List.length data <= fuel)%nat ->
        (exists palette,
            JS.getColorPaletteFromImageElement fuel data paletteSize
              (inject_Z k) nearDuplicateThreshold = Finished palette)
        /\ ((forall p, In p (sampledPixels data (inject_Z k)) ->
               channelAt data p 3 < 128) ->
            JS.getColorPaletteFromImageElement fuel data paletteSize
              (inject_Z k) nearDuplicateThreshold = Finished [])).
Proof.
  intros Hdata.
  destruct (sample_ok data sampleStep Hdata)
    as (colorMap & totalSamples & Hs & Hok & Hsum & Htotal).
  assert (Hnone : acceptedPixels data sampleStep = [] ->
                  TS.getColorPaletteFromImageElement data paletteSize
                    sampleStep nearDuplicateThreshold = Finished []).
  { intros E. rewrite E in Htotal. simpl in Htotal. rewrite Htotal in Hs.
    eapply TS_palette_of_nothing; eauto. }
  split; [|split; [|split]].
  - destruct (Z.eq_dec totalSamples 0) as [->|Hne].
    + exists []. eapply TS_palette_of_nothing; eauto.
    + eexists. eapply TS_palette_of_sample; eauto.
  - intros Halpha. now apply Hnone, no_accepted_pixels.
  - intros ->. reflexivity.
  - intros k fuel Hk Hfuel.
    destruct (JS_palette_integer_step data paletteSize
                nearDuplicateThreshold k fuel Hdata Hk Hfuel)
      as (m & total & _ & _ & Hacc & Hjs).
    rewrite Hjs. split.
    + destruct (total =? 0); eauto.
    + intros Halpha. rewrite (no_accepted_pixels _ _ Halpha) in Hacc.
      simpl in Hacc. now rewrite Hacc.
Qed.

(** C8, for [rgbToHex] and the TypeScript file.  For channels in 0..255
    [rgbToHex] is ["#"] followed by the two lowercase hexadecimal digits of
    each channel, high digit first and zero-padded, 7 characters in all;
    black is ["#000000"] and white is ["#ffffff"]; every [paletteColor] the
    TypeScript file returns on image data has that shape, and so has every
    one the JavaScript file returns for an integer [sampleStep] of 1 or
    more. *)
Lemma rgbToHex_seven_lowercase_hex :
  (forall r g b : Z,
      channel r -> channel g -> channel b ->
      rgbToHex r g b
      = String "#" (String (digitChar (r / 16)) (String (digitChar (r mod 16))
          (String (digitChar (g / 16)) (String (digitChar (g mod 16))
            (String (digitChar (b / 16)) (String (digitChar (b mod 16))
              EmptyString))))))
      /\ String.length (rgbToHex r g b) = 7%nat
      /\ isHexColor (rgbToHex r g b) = true)
  /\ rgbToHex 0 0 0 = "#000000"%string
  /\ rgbToHex 255 255 255 = "#ffffff"%string
  /\ (forall (data : list Z)
        (paletteSize sampleStep nearDuplicateThreshold : Q)
        (palette : list PaletteColor.t),
        isImageData data = true ->
        TS.getColorPaletteFromImageElement data paletteSize sampleStep
          nearDuplicateThreshold = Finished palette ->
        Forall (fun c =>
                  String.length (PaletteColor.paletteColor c) = 7%nat
                  /\ isHexColor (PaletteColor.paletteColor c) = true)
               palette)
  /\ (forall (data : list Z) (paletteSize nearDuplicateThreshold : Q)
        (k : Z) (fuel : nat) (palette : list PaletteColor.t),
        isImageData data = true ->
        1 <= k -> (List.length data <= fuel)%nat ->
        JS.getColorPaletteFromImageElement fuel data paletteSize
          (inject_Z k) nearDuplicateThreshold = Finished palette ->
        Forall (fun c =>
                  String.length (PaletteColor.paletteColor c) = 7%nat
                  /\ isHexColor (PaletteColor.paletteColor c) = true)
               palette).
Proof.
  split; [|split; [reflexivity|split; [reflexivity|split]]].
  - intros r g b Hr Hg Hb. split; [now apply rgbToHex_pairs|].
    now apply rgbToHex_isHexColor.
  - intros data paletteSize sampleStep t palette Hdata Hget.
    destruct (sample_ok data sampleStep Hdata)
      as (colorMap & totalSamples & Hs & Hok & Hsum & Htotal).
    destruct (Z.eq_dec totalSamples 0) as [E0|Hpos].
    { rewrite E0 in Hs.
      rewrite (TS_palette_of_nothing _ paletteSize _ t _ Hs) in Hget.
      inversion Hget. constructor. }
    rewrite (TS_palette_of_sample _ paletteSize _ t _ _ Hs Hpos) in Hget.
    inversion Hget as [Hpal]. clear Hget.
    apply Forall_map. unfold TS.limitedColors.
    apply Array_slice0_Forall.
    eapply Forall_impl; [|apply (rankedColors_valid colorMap t Hok)].
    intros c. apply validColor_hexShaped_TS.
  - intros data paletteSize t k fuel palette Hdata Hk Hfuel Hget.
    destruct (JS_palette_integer_step data paletteSize t k fuel
                Hdata Hk Hfuel) as (m & total & _ & Hok & _ & Hjs).
    rewrite Hjs in Hget. destruct (total =? 0).
    { inversion Hget. constructor. }
    inversion Hget as [Hpal]. clear Hget.
    apply Forall_map. unfold JS.limitedColors.
    apply Array_slice0_Forall.
    eapply Forall_impl; [|apply (rankedColors_valid m t Hok)].
    intros c. apply validColor_hexShaped_JS.
Qed.

(** C6 fails in the JavaScript file: its loop adds [4 * sampleStep] as it
    is, so with [sampleStep = 0] the entry point uses up any amount of fuel
    on the 2x2 image. *)
Lemma JS_hangs_on_sampleStep_0 :
  forall fuel : nat,
    JS.getColorPaletteFromImageElement fuel image2x2 10 0 50 = OutOfFuel.
Proof.
  intros fuel. unfold JS.getColorPaletteFromImageElement.
  rewrite (JS_zero_step_never_ends image2x2 fuel eq_refl); [reflexivity|].
  discriminate.
Qed.

Lemma bestTextColor_by_contrast_witness :
  Contrast.bestTextColor 0 0 0 = "#FFFFFF"%string
  /\ Contrast.bestTextColor 255 255 255 = "#000000"%string.
Proof.
  destruct bestTextColor_by_contrast as (Hblack & Hwhite & _).
  split; [exact Hblack | exact Hwhite].
Defined.

(** * Properties of the rest of the two files *)

(** ** Canvas size *)

Lemma Math_round_comp (x y : Q) : (x == y)%Q -> Math_round x = Math_round y.
Proof. intros H. unfold Math_round. now rewrite H. Qed.

Lemma Math_round_integer (z : Z) : Math_round (inject_Z z) = z.
Proof.
  unfold Math_round.
  apply Z.le_antisymm.
  - pose proof (Qfloor_le (inject_Z z + (1 # 2))) as H.
    assert (Hlt : (inject_Z (Qfloor (inject_Z z + (1 # 2)))
                   < inject_Z (z + 1))%Q).
    { rewrite inject_Z_plus. change (inject_Z 1) with 1%Q. lra. }
    rewrite <- Zlt_Qlt in Hlt. lia.
  - rewrite <- (Qfloor_Z z) at 1. apply Qfloor_resp_le. lra.
Qed.

Lemma scaled_side (side largest m : Z) :
  1 <= largest -> 0 <= side <= largest -> 0 <= m ->
  (inject_Z side * (inject_Z m / inject_Z largest)
   == inject_Z (side * m) / inject_Z largest)%Q.
Proof.
  intros HL Hs Hm.
  assert (Hq : ~ (inject_Z largest == 0)%Q).
  { intros E. unfold Qeq in E. simpl in E. lia. }
  rewrite inject_Z_mult. field. exact Hq.
Qed.

(** X1.  An image whose longer side does not exceed [maxResolution] keeps
    its size: the canvas is never larger than the image. *)
Theorem getScaledDimensions_no_upscaling
    (naturalWidth naturalHeight : Z) (maxResolution : Q) :
  1 <= naturalWidth -> 1 <= naturalHeight ->
  (inject_Z (Z.max naturalWidth naturalHeight) <= maxResolution)%Q ->
  getScaledDimensions naturalWidth naturalHeight maxResolution
  = mkDimensions naturalWidth naturalHeight.
Proof.
  intros Hw Hh Hfit. unfold getScaledDimensions. cbv zeta.
  destruct (Qlt_le_dec maxResolution
              (inject_Z (Z.max naturalWidth naturalHeight))) as [Hlt|_].
  - exfalso. apply (Qlt_not_le _ _ Hlt Hfit).
  - rewrite !(Math_round_comp (_ * 1) _ (Qmult_1_r _)).
    rewrite !Math_round_integer. f_equal; lia.
Qed.

(** X2.  For an integer [maxResolution] of 1 or more, both sides of the
    canvas lie between 1 and [maxResolution], and the longer side of the
    canvas is the smaller of the image's longer side and [maxResolution]. *)
Theorem getScaledDimensions_fits
    (naturalWidth naturalHeight maxResolution : Z) :
  1 <= naturalWidth -> 1 <= naturalHeight -> 1 <= maxResolution ->
  let d := getScaledDimensions naturalWidth naturalHeight
             (inject_Z maxResolution) in
  1 <= width d <= maxResolution
  /\ 1 <= height d <= maxResolution
  /\ Z.max (width d) (height d)
     = Z.min (Z.max naturalWidth naturalHeight) maxResolution.
Proof.
  intros Hw Hh Hm d. subst d.
  destruct (Z.le_gt_cases (Z.max naturalWidth naturalHeight) maxResolution)
    as [Hfit|Hbig].
  - unfold getScaledDimensions. cbv zeta.
    destruct (Qlt_le_dec (inject_Z maxResolution)
                (inject_Z (Z.max naturalWidth naturalHeight))) as [Hlt|_].
    { rewrite <- Zlt_Qlt in Hlt. lia. }
    rewrite !(Math_round_comp (_ * 1) _ (Qmult_1_r _)).
    rewrite !Math_round_integer. cbn [width height]. lia.
  - unfold getScaledDimensions. cbv zeta.
    set (L := Z.max naturalWidth naturalHeight) in *.
    destruct (Qlt_le_dec (inject_Z maxResolution) (inject_Z L)) as [_|Hle].
    2:{ rewrite <- Zle_Qle in Hle. lia. }
    cbn [width height].
    assert (HL : 1 <= L) by (subst L; lia).
    rewrite (Math_round_comp _ _
               (scaled_side naturalWidth L maxResolution HL
                  ltac:(subst L; lia) ltac:(lia))).
    rewrite (Math_round_comp _ _
               (scaled_side naturalHeight L maxResolution HL
                  ltac:(subst L; lia) ltac:(lia))).
    assert (Hbw : 0 <= Math_round (inject_Z (naturalWidth * maxResolution)
                                   / inject_Z L) <= maxResolution).
    { apply Math_round_bounds; try lia. subst L. nia. }
    assert (Hbh : 0 <= Math_round (inject_Z (naturalHeight * maxResolution)
                                   / inject_Z L) <= maxResolution).
    { apply Math_round_bounds; try lia. subst L. nia. }
    assert (Hlong : forall side, side = L ->
              Math_round (inject_Z (side * maxResolution) / inject_Z L)
              = maxResolution).
    { intros side ->.
      assert (E : (inject_Z (L * maxResolution) / inject_Z L
                   == inject_Z maxResolution)%Q).
      { rewrite inject_Z_mult. field.
        intros E. unfold Qeq in E. simpl in E. lia. }
      rewrite (Math_round_comp _ _ E). apply Math_round_integer. }
    destruct (Z.max_spec naturalWidth naturalHeight) as [[_ E]|[_ E]];
      fold L in E.
    + rewrite (Hlong naturalHeight) in * by congruence. lia.
    + rewrite (Hlong naturalWidth) in * by congruence. lia.
Qed.

(** X4.  A [maxResolution] of 0 or less gives the 1x1 canvas for every
    image. *)
Theorem getScaledDimensions_nonpositive_limit
    (naturalWidth naturalHeight : Z) (maxResolution : Q) :
  1 <= naturalWidth -> 1 <= naturalHeight -> (maxResolution <= 0)%Q ->
  getScaledDimensions naturalWidth naturalHeight maxResolution
  = mkDimensions 1 1.
Proof.
  intros Hw Hh Hm. unfold getScaledDimensions. cbv zeta.
  set (L := Z.max naturalWidth naturalHeight).
  assert (HL : (1 <= inject_Z L)%Q).
  { change 1%Q with (inject_Z 1). rewrite <- Zle_Qle. subst L. lia. }
  destruct (Qlt_le_dec maxResolution (inject_Z L)) as [_|Hle]; [|lra].
  assert (Hscale : (maxResolution / inject_Z L <= 0)%Q).
  { apply Qle_shift_div_r; lra. }
  assert (Hside : forall side, 1 <= side ->
            Z.max 1 (Math_round (inject_Z side
                                 * (maxResolution / inject_Z L))) = 1).
  { intros side Hs.
    assert (Hsq : (1 <= inject_Z side)%Q).
    { change 1%Q with (inject_Z 1). now rewrite <- Zle_Qle. }
    assert (Hx : (inject_Z side * (maxResolution / inject_Z L) <= 0)%Q)
      by nra.
    assert (Math_round (inject_Z side * (maxResolution / inject_Z L)) <= 0).
    { unfold Math_round.
      change 0 with (Qfloor (1 # 2)). apply Qfloor_resp_le. lra. }
    lia. }
  now rewrite !Hside.
Qed.

(** ** Contrast *)

Module ContrastMore.
Import Contrast.
Local Open Scope R_scope.

Lemma channelToLinear_range (c : Z) :
  channel c -> 0 <= channelToLinear c <= 1.
Proof.
  intros [Hlo Hhi]. apply IZR_le in Hlo, Hhi.
  unfold channelToLinear. cbv zeta.
  destruct (Rle_dec (IZR c / 255) 0.03928) as [Hsmall|Hlarge].
  - split; lra.
  - apply Rnot_le_lt in Hlarge.
    set (x := (IZR c / 255 + 0.055) / 1.055).
    assert (Hx : 0 < x <= 1) by (subst x; split; lra).
    unfold Rpower. split; [left; apply exp_pos|].
    rewrite <- exp_0.
    destruct (Req_dec x 1) as [->|Hne].
    + rewrite ln_1, Rmult_0_r. lra.
    + left. apply exp_increasing.
      assert (ln x < 0).
      { rewrite <- ln_1. apply ln_increasing; lra. }
      lra.
Qed.

Lemma luminance_range (r g b : Z) :
  channel r -> channel g -> channel b ->
  0 <= srgbToLuminance r g b <= 1.
Proof.
  intros Hr Hg Hb. unfold srgbToLuminance. cbv zeta.
  pose proof (channelToLinear_range r Hr).
  pose proof (channelToLinear_range g Hg).
  pose proof (channelToLinear_range b Hb).
  lra.
Qed.

Lemma contrast_against_white (L : R) :
  0 <= L <= 1 -> contrastRatio L 1 = 1.05 / (L + 0.05).
Proof.
  intros H. unfold contrastRatio. cbv zeta.
  rewrite Rmax_right, Rmin_left by lra. f_equal. lra.
Qed.

Lemma contrast_against_black (L : R) :
  0 <= L -> contrastRatio L 0 = (L + 0.05) / 0.05.
Proof.
  intros H. unfold contrastRatio. cbv zeta.
  rewrite Rmax_left, Rmin_right by lra. f_equal. lra.
Qed.

Lemma white_wins (L : R) :
  0 <= L <= 1 ->
  (1.05 / (L + 0.05) >= (L + 0.05) / 0.05
   <-> (L + 0.05) * (L + 0.05) <= 0.0525).
Proof.
  intros H.
  assert (Hpos : 0 < L + 0.05) by lra.
  pose proof (Rinv_0_lt_compat _ Hpos) as Ha.
  pose proof (Rinv_l (L + 0.05) ltac:(lra)) as Hax.
  unfold Rdiv at 1. set (a := / (L + 0.05)) in *.
  split; intros Hc.
  - assert (Hm : 1.05 * a * (L + 0.05) >= (L + 0.05) / 0.05 * (L + 0.05)).
    { apply Rmult_ge_compat_r; lra. }
    rewrite Rmult_assoc, Hax in Hm. lra.
  - apply Rle_ge.
    apply (Rmult_le_reg_r (L + 0.05)); [lra|].
    rewrite Rmult_assoc, Hax. lra.
Qed.

End ContrastMore.

(** X5.  The contrast ratio does not depend on the order of the two
    luminances and is never below 1. *)
Theorem contrastRatio_symmetric_at_least_1 (L1 L2 : R) :
  (0 <= L1)%R -> (0 <= L2)%R ->
  Contrast.contrastRatio L1 L2 = Contrast.contrastRatio L2 L1
  /\ (1 <= Contrast.contrastRatio L1 L2)%R.
Proof.
  intros H1 H2. unfold Contrast.contrastRatio. cbv zeta. split.
  - now rewrite (Rmax_comm L1 L2), (Rmin_comm L1 L2).
  - assert (Hmin : (0 <= Rmin L1 L2)%R) by (apply Rmin_glb; assumption).
    assert (Hle : (Rmin L1 L2 <= Rmax L1 L2)%R).
    { eapply Rle_trans; [apply Rmin_l | apply Rmax_l]. }
    apply (Rmult_le_reg_r (Rmin L1 L2 + 0.05)); [lra|].
    unfold Rdiv. rewrite Rmult_assoc, Rinv_l by lra. lra.
Qed.

(** X6.  The relative luminance of a colour with channels in 0..255 lies
    between 0 and 1. *)
Theorem srgbToLuminance_between_0_and_1 (r g b : Z) :
  channel r -> channel g -> channel b ->
  (0 <= Contrast.srgbToLuminance r g b <= 1)%R.
Proof.
  intros Hr Hg Hb.
  pose proof (ContrastMore.channelToLinear_range r Hr) as H1.
  pose proof (ContrastMore.channelToLinear_range g Hg) as H2.
  pose proof (ContrastMore.channelToLinear_range b Hb) as H3.
  unfold Contrast.srgbToLuminance. cbv zeta. lra.
Qed.

(** X7.  On a colour with channels in 0..255 the text is white exactly when
    the luminance [L] satisfies [(L + 0.05)^2 <= 0.0525] (about
    [L <= 0.179]), and black exactly when it does not; no other string is
    returned. *)
Theorem bestTextColor_luminance_cut (r g b : Z) :
  channel r -> channel g -> channel b ->
  let L := Contrast.srgbToLuminance r g b in
  (Contrast.bestTextColor r g b = "#FFFFFF"%string
   <-> ((L + 0.05) * (L + 0.05) <= 0.0525)%R)
  /\ (Contrast.bestTextColor r g b = "#000000"%string
      <-> (0.0525 < (L + 0.05) * (L + 0.05))%R).
Proof.
  intros Hr Hg Hb L.
  pose proof (ContrastMore.luminance_range r g b Hr Hg Hb) as HL.
  fold L in HL.
  rewrite ContrastFacts.bestTextColor_rule. fold L.
  rewrite ContrastMore.contrast_against_white by exact HL.
  rewrite ContrastMore.contrast_against_black by lra.
  pose proof (ContrastMore.white_wins L HL) as Hw.
  destruct (Rge_dec (1.05 / (L + 0.05)) ((L + 0.05) / 0.05)) as [Hge|Hlt].
  - apply Hw in Hge. split; split; intros H; try reflexivity; try assumption.
    + discriminate.
    + lra.
  - assert (Hn : ~ ((L + 0.05) * (L + 0.05) <= 0.0525)%R)
      by (intros H; apply Hlt, Hw, H).
    split; split; intros H; try reflexivity.
    + discriminate.
    + contradiction.
    + lra.
Qed.

(** ** Hexadecimal strings, read back *)

Lemma every_nibble (P : Z -> bool) :
  forallb P (map Z.of_nat (seq 0 16)) = true ->
  forall v, 0 <= v <= 15 -> P v = true.
Proof.
  intros H v [Hlo Hhi]. rewrite forallb_forall in H. apply H.
  apply in_map_iff. exists (Z.to_nat v). split; [lia|].
  apply in_seq. lia.
Qed.

Lemma digitValue_digitChar (v : Z) :
  0 <= v <= 15 -> digitValue (digitChar v) = v.
Proof.
  intros Hv. apply Z.eqb_eq. revert v Hv.
  apply every_nibble. vm_compute. reflexivity.
Qed.

Lemma byte_of_digits (v w : Z) :
  channel v -> channel w ->
  digitChar (v / 16) = digitChar (w / 16) ->
  digitChar (v mod 16) = digitChar (w mod 16) ->
  v = w.
Proof.
  unfold channel. intros Hv Hw Hhi Hlo.
  pose proof (Z.div_mod v 16 ltac:(lia)) as Ev.
  pose proof (Z.div_mod w 16 ltac:(lia)) as Ew.
  pose proof (Z.mod_pos_bound v 16 ltac:(lia)) as Mv.
  pose proof (Z.mod_pos_bound w 16 ltac:(lia)) as Mw.
  assert (Hv1 : 0 <= v / 16 <= 15) by lia.
  assert (Hw1 : 0 <= w / 16 <= 15) by lia.
  assert (Hv2 : 0 <= v mod 16 <= 15) by lia.
  assert (Hw2 : 0 <= w mod 16 <= 15) by lia.
  apply (f_equal digitValue) in Hhi, Hlo.
  rewrite !digitValue_digitChar in Hhi, Hlo by assumption.
  lia.
Qed.

(** X8.  On channels in 0..255 [rgbToHex] loses nothing: two colours with
    the same string are the same colour. *)
Theorem rgbToHex_injective (r g b r' g' b' : Z) :
  channel r -> channel g -> channel b ->
  channel r' -> channel g' -> channel b' ->
  rgbToHex r g b = rgbToHex r' g' b' ->
  r = r' /\ g = g' /\ b = b'.
Proof.
  intros Hr Hg Hb Hr' Hg' Hb' E.
  rewrite (rgbToHex_pairs r g b), (rgbToHex_pairs r' g' b') in E
    by assumption.
  inversion E as [[R1 R2 G1 G2 B1 B2]].
  repeat split; eapply byte_of_digits; eauto.
Qed.

(** ** Buckets and their cubes *)

Lemma nibble_pack (a b c : Z) :
  0 <= a <= 15 -> 0 <= b <= 15 -> 0 <= c <= 15 ->
  Z.lor (Z.lor (Z.shiftl a 8) (Z.shiftl b 4)) c = 256 * a + 16 * b + c.
Proof.
  intros Ha Hb Hc.
  assert (H : forall x, 0 <= x <= 15 -> In x (map Z.of_nat (seq 0 16))).
  { intros x Hx. apply in_map_iff. exists (Z.to_nat x). split; [lia|].
    apply in_seq. lia. }
  assert (Hall :
    forallb (fun a =>
      forallb (fun b =>
        forallb (fun c =>
          Z.lor (Z.lor (Z.shiftl a 8) (Z.shiftl b 4)) c
          =? 256 * a + 16 * b + c)
          (map Z.of_nat (seq 0 16)))
        (map Z.of_nat (seq 0 16)))
      (map Z.of_nat (seq 0 16)) = true) by (vm_compute; reflexivity).
  rewrite forallb_forall in Hall. specialize (Hall a (H a Ha)).
  rewrite forallb_forall in Hall. specialize (Hall b (H b Hb)).
  rewrite forallb_forall in Hall. specialize (Hall c (H c Hc)).
  now apply Z.eqb_eq.
Qed.

Lemma nibble_of_channel (v : Z) :
  channel v -> 0 <= v / 16 <= 15 /\ 16 * (v / 16) <= v <= 16 * (v / 16) + 15.
Proof.
  unfold channel. intros Hv.
  pose proof (Z.div_mod v 16 ltac:(lia)).
  pose proof (Z.mod_pos_bound v 16 ltac:(lia)). lia.
Qed.

Lemma quantKey_value (r g b : Z) :
  channel r -> channel g -> channel b ->
  quantKey r g b = 256 * (r / 16) + 16 * (g / 16) + b / 16.
Proof.
  intros Hr Hg Hb. unfold quantKey. cbv zeta.
  rewrite !Z.shiftr_div_pow2 by lia. change (2 ^ 4) with 16.
  apply nibble_pack; now apply nibble_of_channel.
Qed.

Lemma Map_get_In (m : ColorMap) (key : Z) (e : Entry) :
  Map_get m key = Some e -> In (key, e) m.
Proof.
  induction m as [|[k e0] m' IH]; simpl; [discriminate|].
  destruct (k =? key) eqn:E.
  - apply Z.eqb_eq in E. intros H. inversion H; subst. now left.
  - intros H. right. now apply IH.
Qed.

Lemma Map_get_None (m : ColorMap) (key : Z) :
  Map_get m key = None -> ~ In key (map fst m).
Proof.
  induction m as [|[k e0] m' IH]; simpl; [tauto|].
  destruct (k =? key) eqn:E; [discriminate|].
  apply Z.eqb_neq in E. intros H [Hk|Hin]; [congruence|]. now apply IH.
Qed.

Lemma Map_set_keys (m : ColorMap) (key : Z) (e : Entry) (k : Z) :
  In k (map fst (Map_set m key e)) <-> k = key \/ In k (map fst m).
Proof.
  induction m as [|[k0 e0] m' IH]; simpl.
  - intuition.
  - destruct (k0 =? key) eqn:E; simpl.
    + apply Z.eqb_eq in E. subst. intuition.
    + rewrite IH. intuition.
Qed.

Lemma Map_set_NoDup (m : ColorMap) (key : Z) (e : Entry) :
  NoDup (map fst m) -> NoDup (map fst (Map_set m key e)).
Proof.
  induction m as [|[k0 e0] m' IH]; simpl; intros H.
  - constructor; [tauto | constructor].
  - inversion H as [|? ? Hnot Hrest]; subst.
    destruct (k0 =? key) eqn:E; simpl.
    + now constructor.
    + apply Z.eqb_neq in E. constructor; auto.
      rewrite Map_set_keys. intros [Hk|Hin]; [congruence | contradiction].
Qed.

Lemma Map_set_Forall (P : Z * Entry -> Prop) (m : ColorMap) (key : Z)
    (e : Entry) :
  Forall P m -> P (key, e) -> Forall P (Map_set m key e).
Proof.
  intros Hm He. induction Hm as [|[k0 e0] m' H0 Hm' IH]; simpl.
  - constructor; auto.
  - destruct (k0 =? key) eqn:E.
    + apply Z.eqb_eq in E. subst. constructor; auto.
    + constructor; auto.
Qed.

Lemma addSample_in_cube (m : ColorMap) (r g b : Z) :
  channel r -> channel g -> channel b ->
  Forall (fun ke => entryInCube (fst ke) (snd ke)) m ->
  entryInCube (quantKey r g b)
    (addSample r g b (entryOrNew (Map_get m (quantKey r g b)))).
Proof.
  intros Hr Hg Hb Hm.
  destruct (nibble_of_channel r Hr) as [Hqr Hbr].
  destruct (nibble_of_channel g Hg) as [Hqg Hbg].
  destruct (nibble_of_channel b Hb) as [Hqb Hbb].
  pose proof (quantKey_value r g b Hr Hg Hb) as Hkey.
  exists (r / 16), (g / 16), (b / 16).
  repeat (split; [assumption|]).
  destruct (Map_get m (quantKey r g b)) as [e|] eqn:E.
  - apply Map_get_In in E. rewrite Forall_forall in Hm.
    destruct (Hm _ E)
      as (qr & qg & qb & H1 & H2 & H3 & Hk & Hc & Hsr & Hsg & Hsb).
    cbn [fst snd] in *.
    assert (qr = r / 16 /\ qg = g / 16 /\ qb = b / 16) as (-> & -> & ->)
      by lia.
    unfold entryOrNew, addSample. cbn [count rSum gSum bSum].
    repeat split; nia.
  - unfold entryOrNew, addSample. cbn [count rSum gSum bSum].
    repeat split; lia.
Qed.

Lemma accumulate_in_cubes (st : LoopState) (r g b : Z) :
  channel r -> channel g -> channel b ->
  mapInCubes (fst st) -> mapInCubes (fst (accumulate st r g b)).
Proof.
  destruct st as [m total]. intros Hr Hg Hb [Hnd Hall].
  rewrite accumulate_unfold. cbn [fst] in *. split.
  - now apply Map_set_NoDup.
  - apply Map_set_Forall; auto. cbn [fst snd].
    now apply addSample_in_cube.
Qed.

Lemma fold_accumulatePixel_in_cubes (data pixels : list Z) (st : LoopState) :
  Forall channel data -> mapInCubes (fst st) ->
  mapInCubes (fst (fold_left (accumulatePixel data) pixels st)).
Proof.
  intros Hd. revert st.
  induction pixels as [|p rest IH]; intros st Hst; simpl; auto.
  apply IH. unfold accumulatePixel.
  apply accumulate_in_cubes; auto using channelAt_channel.
Qed.

Lemma sample_in_cubes (data : list Z) (sampleStep : Q)
    (colorMap : ColorMap) (totalSamples : Z) :
  isImageData data = true ->
  TS.sample data sampleStep = Finished (colorMap, totalSamples) ->
  mapInCubes colorMap.
Proof.
  intros Hdata Hs. rewrite (sample_accepted data sampleStep Hdata) in Hs.
  inversion Hs as [Hst].
  pose proof (fold_accumulatePixel_in_cubes data
                (acceptedPixels data sampleStep) emptyState
                (isImageData_channel data Hdata)) as H.
  rewrite Hst in H. apply H. split; constructor.
Qed.

Lemma mapInCubes_length (m : ColorMap) :
  mapInCubes m -> (List.length m <= 4096)%nat.
Proof.
  intros [Hnd Hall].
  rewrite <- (length_map fst m).
  replace 4096%nat with (List.length (map Z.of_nat (seq 0 4096)))
    by (now rewrite length_map, length_seq).
  apply NoDup_incl_length; auto.
  intros k Hk. apply in_map_iff in Hk. destruct Hk as ([k' e] & <- & Hin).
  rewrite Forall_forall in Hall.
  destruct (Hall _ Hin) as (qr & qg & qb & H1 & H2 & H3 & Hkey & _).
  cbn [fst] in *.
  apply in_map_iff. exists (Z.to_nat k'). split; [lia|].
  apply in_seq. lia.
Qed.

Lemma averaged_in_cube (key : Z) (e : Entry) :
  entryInCube key e ->
  quantKey (r (averaged e)) (g (averaged e)) (b (averaged e)) = key.
Proof.
  intros (qr & qg & qb & H1 & H2 & H3 & Hkey & Hc & Hsr & Hsg & Hsb).
  unfold averaged. cbn [r g b].
  pose proof (Math_round_bounds (rSum e) (count e) (16 * qr) (16 * qr + 15)
                ltac:(lia) ltac:(lia) ltac:(lia)) as Hr.
  pose proof (Math_round_bounds (gSum e) (count e) (16 * qg) (16 * qg + 15)
                ltac:(lia) ltac:(lia) ltac:(lia)) as Hg.
  pose proof (Math_round_bounds (bSum e) (count e) (16 * qb) (16 * qb + 15)
                ltac:(lia) ltac:(lia) ltac:(lia)) as Hb.
  set (r' := Math_round (inject_Z (rSum e) / inject_Z (count e))) in *.
  set (g' := Math_round (inject_Z (gSum e) / inject_Z (count e))) in *.
  set (b' := Math_round (inject_Z (bSum e) / inject_Z (count e))) in *.
  assert (Cr : channel r') by (unfold channel; lia).
  assert (Cg : channel g') by (unfold channel; lia).
  assert (Cb : channel b') by (unfold channel; lia).
  rewrite quantKey_value by assumption.
  destruct (nibble_of_channel r' Cr).
  destruct (nibble_of_channel g' Cg).
  destruct (nibble_of_channel b' Cb).
  lia.
Qed.

(** X9.  On image data the bucket map has one entry per quantisation key,
    so at most 4096 entries; no more clusters are formed and no more
    colours are returned. *)
Theorem at_most_4096_buckets
    (data : list Z) (paletteSize sampleStep nearDuplicateThreshold : Q) :
  isImageData data = true ->
  exists (colorMap : ColorMap) (totalSamples : Z)
         (clusters : list RawColor) (palette : list PaletteColor.t),
    TS.sample data sampleStep = Finished (colorMap, totalSamples)
    /\ TS.clusters data sampleStep nearDuplicateThreshold = Finished clusters
    /\ TS.getColorPaletteFromImageElement data paletteSize sampleStep
         nearDuplicateThreshold = Finished palette
    /\ NoDup (map fst colorMap)
    /\ (List.length palette <= List.length clusters)%nat
    /\ (List.length clusters <= List.length colorMap)%nat
    /\ (List.length colorMap <= 4096)%nat.
Proof.
  intros Hdata.
  destruct (sample_ok data sampleStep Hdata)
    as (colorMap & totalSamples & Hs & Hok & Hsum & Htotal).
  pose proof (sample_in_cubes data sampleStep colorMap totalSamples
                Hdata Hs) as Hcubes.
  exists colorMap, totalSamples,
    (mergeStep (bucketColors colorMap) nearDuplicateThreshold).
  assert (Hcl : (List.length (mergeStep (bucketColors colorMap)
                                nearDuplicateThreshold)
                 <= List.length colorMap)%nat).
  { rewrite <- (bucketColors_length colorMap). apply mergeStep_length. }
  assert (Hclusters : TS.clusters data sampleStep nearDuplicateThreshold
                      = Finished (mergeStep (bucketColors colorMap)
                                    nearDuplicateThreshold)).
  { unfold TS.clusters. now rewrite Hs. }
  assert (Hpal : exists palette,
             TS.getColorPaletteFromImageElement data paletteSize sampleStep
               nearDuplicateThreshold = Finished palette
             /\ (List.length palette
                 <= List.length (mergeStep (bucketColors colorMap)
                                   nearDuplicateThreshold))%nat).
  { destruct (Z.eq_dec totalSamples 0) as [E0|Hpos].
    - exists []. split; [|simpl; lia].
      rewrite E0 in Hs. eapply TS_palette_of_nothing; eauto.
    - eexists. split; [eapply TS_palette_of_sample; eauto|].
      rewrite length_map. unfold TS.limitedColors.
      rewrite Array_slice0_length by lia.
      rewrite rankedColors_length. lia. }
  destruct Hpal as (palette & Hget & Hlen).
  exists palette.
  split; [exact Hs|]. split; [exact Hclusters|]. split; [exact Hget|].
  split; [apply Hcubes|]. split; [exact Hlen|]. split; [exact Hcl|].
  now apply mapInCubes_length.
Qed.

(** X10.  On image data the averaged colour of every bucket quantises back
    to the key of its bucket, so no two buckets have the same colour. *)
Theorem bucket_colour_stays_in_its_cube
    (data : list Z) (sampleStep : Q)
    (colorMap : ColorMap) (totalSamples : Z) :
  isImageData data = true ->
  TS.sample data sampleStep = Finished (colorMap, totalSamples) ->
  Forall (fun ke =>
            quantKey (r (averaged (snd ke))) (g (averaged (snd ke)))
              (b (averaged (snd ke))) = fst ke) colorMap
  /\ NoDup (map rgbOf (bucketColors colorMap)).
Proof.
  intros Hdata Hs.
  destruct (sample_in_cubes data sampleStep colorMap totalSamples Hdata Hs)
    as [Hnd Hall].
  assert (Hkeys : Forall (fun ke =>
            quantKey (r (averaged (snd ke))) (g (averaged (snd ke)))
              (b (averaged (snd ke))) = fst ke) colorMap).
  { eapply Forall_impl; [|exact Hall].
    intros [k e] H. now apply averaged_in_cube. }
  split; [exact Hkeys|].
  assert (Hpre : NoDup (map rgbOf (map averaged (Map_values colorMap)))).
  { apply (NoDup_map_inv (fun c => quantKey (fst (fst c)) (snd (fst c))
                                      (snd c))).
    unfold Map_values. rewrite !map_map.
    replace (map _ colorMap) with (map fst colorMap); auto.
    symmetry. apply map_ext_Forall.
    eapply Forall_impl; [|exact Hkeys].
    intros [k e] H. exact H. }
  unfold bucketColors.
  eapply Permutation_NoDup; [|exact Hpre].
  apply Permutation_map. symmetry. apply sortByPopulation_perm.
Qed.

(** ** What the returned palette looks like *)

Lemma descending_cons (x : Z) (l : list Z) :
  descending l -> (forall y, In y l -> y <= x) -> descending (x :: l).
Proof.
  intros Hl Hx. destruct l as [|y rest]; simpl; auto.
  split; auto. apply Hx. now left.
Qed.

Lemma descending_bound (x : Z) (l : list Z) :
  descending (x :: l) -> forall y, In y l -> y <= x.
Proof.
  revert x. induction l as [|z rest IH]; intros x H y Hy; [contradiction|].
  destruct H as [Hzx Hrest].
  destruct Hy as [<-|Hy]; auto.
  specialize (IH z Hrest y Hy). lia.
Qed.

Lemma insertByPopulation_descending (c : RawColor) (sorted : list RawColor) :
  descending (map population sorted) ->
  descending (map population (insertByPopulation c sorted)).
Proof.
  induction sorted as [|x rest IH]; intros H; simpl.
  - auto.
  - destruct (population x <=? population c) eqn:E.
    + apply Z.leb_le in E. simpl. split; auto.
    + apply Z.leb_gt in E.
      change (descending (population x
                          :: map population (insertByPopulation c rest))).
      apply descending_cons.
      * apply IH. simpl in H. tauto.
      * intros y Hy. apply in_map_iff in Hy. destruct Hy as (z & <- & Hz).
        apply (Permutation_in _ (insertByPopulation_perm c rest)) in Hz.
        destruct Hz as [<-|Hz]; [lia|].
        apply (descending_bound _ _ H). now apply in_map.
Qed.

Lemma sortByPopulation_descending (colors : list RawColor) :
  descending (map population (sortByPopulation colors)).
Proof.
  induction colors as [|c rest IH]; simpl; auto.
  now apply insertByPopulation_descending.
Qed.

Lemma descending_firstn (n : nat) (l : list Z) :
  descending l -> descending (firstn n l).
Proof.
  revert l. induction n as [|n IH]; intros l H; [simpl; auto|].
  destruct l as [|x rest]; [simpl; auto|].
  change (descending (x :: firstn n rest)).
  apply descending_cons.
  - apply IH. simpl in H. tauto.
  - intros y Hy. apply (descending_bound _ _ H).
    revert Hy. clear. revert rest.
    induction n as [|n IH]; intros [|z rest] Hy; simpl in *; try tauto.
    destruct Hy as [<-|Hy]; auto.
Qed.

Lemma palette_populations (colors : list RawColor) :
  map PaletteColor.population (map TS.toPaletteColor colors)
  = map population colors.
Proof. rewrite map_map. reflexivity. Qed.

Lemma TS_palette_cases (data : list Z) (paletteSize sampleStep t : Q)
    (palette : list PaletteColor.t) :
  TS.getColorPaletteFromImageElement data paletteSize sampleStep t
  = Finished palette ->
  palette = []
  \/ exists colorMap totalSamples,
       TS.sample data sampleStep = Finished (colorMap, totalSamples)
       /\ totalSamples <> 0
       /\ palette = map TS.toPaletteColor
                      (firstn (Z.to_nat (Z.max 1 (Math_floor paletteSize)))
                         (rankedColors colorMap t)).
Proof.
  unfold TS.getColorPaletteFromImageElement.
  destruct (TS.sample data sampleStep) as [[colorMap total]| |];
    try discriminate.
  destruct (total =? 0) eqn:E; intros H; inversion H; auto.
  right. exists colorMap, total. apply Z.eqb_neq in E.
  repeat split; auto. unfold TS.limitedColors.
  now rewrite Array_slice0_firstn by lia.
Qed.

(** X11.  Whatever the buffer and the parameters, a returned palette is
    ordered by population, largest first. *)
Theorem palette_is_ordered_by_population
    (data : list Z) (paletteSize sampleStep nearDuplicateThreshold : Q)
    (palette : list PaletteColor.t) :
  TS.getColorPaletteFromImageElement data paletteSize sampleStep
    nearDuplicateThreshold = Finished palette ->
  descending (map PaletteColor.population palette).
Proof.
  intros Hget.
  destruct (TS_palette_cases _ _ _ _ _ Hget)
    as [->|(colorMap & total & _ & _ & ->)]; [simpl; auto|].
  rewrite palette_populations, <- firstn_map.
  apply descending_firstn. unfold rankedColors. cbv zeta.
  apply sortByPopulation_descending.
Qed.

Lemma population_le_total (colors : list RawColor) (c : RawColor) :
  Forall validColor colors -> In c colors ->
  population c <= totalPopulation colors.
Proof.
  intros Hv. induction Hv as [|x rest Hx Hrest IH]; intros Hin;
    [contradiction|].
  rewrite totalPopulation_cons.
  assert (0 <= totalPopulation rest).
  { clear - Hrest. induction Hrest as [|y l Hy _ IH]; [reflexivity|].
    rewrite totalPopulation_cons. destruct Hy as (_ & _ & _ & Hp). lia. }
  destruct Hx as (_ & _ & _ & Hp).
  destruct Hin as [<-|Hin]; [lia|]. specialize (IH Hin). lia.
Qed.

(** X12.  On image data every returned colour stands for at least one and
    at most all of the accepted sampled pixels, and its percentage is its
    population divided by their number, a value above 0 and at most 1. *)
Theorem palette_entries_are_shares
    (data : list Z) (paletteSize sampleStep nearDuplicateThreshold : Q)
    (palette : list PaletteColor.t) :
  isImageData data = true ->
  TS.getColorPaletteFromImageElement data paletteSize sampleStep
    nearDuplicateThreshold = Finished palette ->
  let accepted := Z.of_nat (List.length (acceptedPixels data sampleStep)) in
  Forall (fun c =>
            1 <= PaletteColor.population c <= accepted
            /\ (PaletteColor.percentage c
                == inject_Z (PaletteColor.population c) / inject_Z accepted)%Q
            /\ (0 < PaletteColor.percentage c <= 1)%Q)
         palette.
Proof.
  intros Hdata Hget accepted.
  destruct (sample_ok data sampleStep Hdata)
    as (colorMap & total & Hs & Hok & Hsum & Htotal).
  fold accepted in Htotal.
  destruct (Z.eq_dec total 0) as [E0|Hne].
  { rewrite E0 in Hs.
    rewrite (TS_palette_of_nothing _ paletteSize _ nearDuplicateThreshold
               _ Hs) in Hget.
    inversion Hget. constructor. }
  rewrite (TS_palette_of_sample _ paletteSize _ nearDuplicateThreshold _ _
             Hs Hne) in Hget.
  inversion Hget as [Hpal]. clear Hget.
  unfold TS.limitedColors. rewrite Array_slice0_firstn by lia.
  assert (Hpos : 0 < sumCounts colorMap) by lia.
  pose proof (rankedColors_valid colorMap nearDuplicateThreshold Hok) as Hv.
  pose proof (rankedColors_share colorMap nearDuplicateThreshold Hpos)
    as Hshare.
  pose proof (rankedColors_population colorMap nearDuplicateThreshold)
    as Hpop.
  apply Forall_map, Forall_prefix, Forall_forall.
  intros c Hin.
  rewrite Forall_forall in Hv, Hshare.
  pose proof (population_le_total _ c
                (proj2 (Forall_forall _ _) Hv) Hin) as Hle.
  destruct (Hv c Hin) as (_ & _ & _ & Hp1).
  specialize (Hshare c Hin). unfold hasShare in Hshare.
  cbn [TS.toPaletteColor PaletteColor.population PaletteColor.percentage].
  rewrite Hshare, Hsum, <- Htotal in *. rewrite Hpop in Hle.
  assert (Hq : (0 < inject_Z total)%Q).
  { change 0%Q with (inject_Z 0). rewrite <- Zlt_Qlt. lia. }
  split; [lia|]. split; [reflexivity|]. split.
  - apply Qlt_shift_div_l; auto. rewrite Qmult_0_l.
    change 0%Q with (inject_Z 0). rewrite <- Zlt_Qlt. lia.
  - apply Qle_shift_div_r; auto. rewrite Qmult_1_l.
    rewrite <- Zle_Qle. lia.
Qed.

(** X13.  When at least one sampled pixel is accepted, the palette has
    exactly as many entries as there are clusters, cut to
    [max(1, floor(paletteSize))]. *)
Theorem palette_length_exact
    (data : list Z) (paletteSize sampleStep nearDuplicateThreshold : Q)
    (palette : list PaletteColor.t) (clusters : list RawColor) :
  acceptedPixels data sampleStep <> [] ->
  isImageData data = true ->
  TS.getColorPaletteFromImageElement data paletteSize sampleStep
    nearDuplicateThreshold = Finished palette ->
  TS.clusters data sampleStep nearDuplicateThreshold = Finished clusters ->
  List.length palette
  = Nat.min (Z.to_nat (Z.max 1 (Math_floor paletteSize)))
            (List.length clusters).
Proof.
  intros Hacc Hdata Hget Hcl.
  destruct (sample_ok data sampleStep Hdata)
    as (colorMap & total & Hs & Hok & Hsum & Htotal).
  assert (Hne : total <> 0).
  { rewrite Htotal. destruct (acceptedPixels data sampleStep);
      [congruence | simpl; lia]. }
  rewrite (TS_palette_of_sample _ paletteSize _ nearDuplicateThreshold _ _
             Hs Hne) in Hget.
  inversion Hget as [Hpal]. clear Hget.
  unfold TS.clusters in Hcl. rewrite Hs in Hcl. simpl in Hcl.
  inversion Hcl as [Hcl']. clear Hcl.
  rewrite length_map. unfold TS.limitedColors.
  rewrite Array_slice0_length by lia.
  now rewrite rankedColors_length.
Qed.

(** X14.  With a threshold of 442 or more and at least one accepted
    sampled pixel, exactly one colour is returned; it stands for all the
    accepted pixels and its percentage is 1. *)
Theorem large_threshold_single_colour
    (data : list Z) (paletteSize sampleStep nearDuplicateThreshold : Q)
    (palette : list PaletteColor.t) :
  isImageData data = true ->
  acceptedPixels data sampleStep <> [] ->
  (442 <= nearDuplicateThreshold)%Q ->
  TS.getColorPaletteFromImageElement data paletteSize sampleStep
    nearDuplicateThreshold = Finished palette ->
  exists c,
    palette = [c]
    /\ PaletteColor.population c
       = Z.of_nat (List.length (acceptedPixels data sampleStep))
    /\ (PaletteColor.percentage c == 1)%Q.
Proof.
  intros Hdata Hacc Hfar Hget.
  destruct (sample_ok data sampleStep Hdata)
    as (colorMap & total & Hs & Hok & Hsum & Htotal).
  assert (Hne : total <> 0).
  { rewrite Htotal. destruct (acceptedPixels data sampleStep);
      [congruence | simpl; lia]. }
  rewrite (TS_palette_of_sample _ paletteSize _ nearDuplicateThreshold _ _
             Hs Hne) in Hget.
  inversion Hget as [Hpal]. clear Hget.
  unfold TS.limitedColors. rewrite Array_slice0_firstn by lia.
  pose proof (rankedColors_nonempty colorMap nearDuplicateThreshold) as Hlo.
  rewrite Hsum in Hlo. specialize (Hlo Hne).
  assert (Hhi : (List.length (rankedColors colorMap nearDuplicateThreshold)
                 <= 1)%nat).
  { rewrite rankedColors_length, mergeStep_positive by lra.
    apply (fold_mergeOne_far nearDuplicateThreshold (bucketColors colorMap)
             [] Hfar (bucketColors_valid colorMap Hok) (Forall_nil _)).
    simpl. lia. }
  pose proof (rankedColors_population colorMap nearDuplicateThreshold)
    as Hpop.
  assert (Hcount : 0 < sumCounts colorMap) by lia.
  pose proof (rankedColors_share colorMap nearDuplicateThreshold Hcount)
    as Hshare.
  destruct (rankedColors colorMap nearDuplicateThreshold) as [|c [|c' rest]];
    simpl in Hlo, Hhi; try lia.
  exists (TS.toPaletteColor c).
  rewrite totalPopulation_cons in Hpop.
  change (totalPopulation []) with 0 in Hpop.
  inversion Hshare as [|? ? Hc _]; subst. unfold hasShare in Hc.
  split; [|split].
  - destruct (Z.to_nat (Z.max 1 (Math_floor paletteSize))) eqn:E; [lia|].
    simpl. now rewrite firstn_nil.
  - cbn [TS.toPaletteColor PaletteColor.population]. lia.
  - cbn [TS.toPaletteColor PaletteColor.percentage]. rewrite Hc.
    replace (population c) with (sumCounts colorMap) by lia.
    assert (Hq : ~ (inject_Z (sumCounts colorMap) == 0)%Q).
    { intros E. unfold Qeq in E. simpl in E. lia. }
    now field.
Qed.

(** ** More on merging *)

(** X15.  When a cluster takes a bucket in, the populations add up and each
    channel of the result lies between the cluster's and the bucket's. *)
Theorem absorb_stays_between (cluster color : RawColor) :
  1 <= population cluster -> 1 <= population color ->
  population (absorb cluster color) = population cluster + population color
  /\ Z.min (r cluster) (r color) <= r (absorb cluster color)
     <= Z.max (r cluster) (r color)
  /\ Z.min (g cluster) (g color) <= g (absorb cluster color)
     <= Z.max (g cluster) (g color)
  /\ Z.min (b cluster) (b color) <= b (absorb cluster color)
     <= Z.max (b cluster) (b color).
Proof.
  intros Hp Hq. unfold absorb. cbn [r g b population].
  split; [reflexivity|].
  assert (H : forall x y,
            Z.min x y
            <= Math_round (inject_Z (x * population cluster
                                     + y * population color)
                           / inject_Z (population cluster + population color))
            <= Z.max x y).
  { intros x y. apply Math_round_bounds; try lia.
    - destruct (Z.min_spec x y) as [[? ->]|[? ->]]; nia.
    - destruct (Z.max_spec x y) as [[? ->]|[? ->]]; nia. }
  repeat split; apply H.
Qed.

Lemma scanClusters_all_far (merged : list RawColor) (color : RawColor)
    (threshold : Q) :
  Forall (fun cluster => withinThreshold color cluster threshold = false)
         merged ->
  scanClusters merged color threshold = None.
Proof.
  induction 1 as [|c rest Hc _ IH]; simpl; auto.
  now rewrite Hc, IH.
Qed.

Lemma fold_mergeOne_separated (threshold : Q)
    (colors merged : list RawColor) :
  ForallOrdPairs
    (fun earlier later => withinThreshold later earlier threshold = false)
    (merged ++ colors) ->
  fold_left (mergeOne threshold) colors merged = merged ++ colors.
Proof.
  revert merged. induction colors as [|c rest IH]; intros merged H; simpl.
  - now rewrite app_nil_r.
  - assert (Hc : Forall (fun cluster =>
                           withinThreshold c cluster threshold = false)
                        merged).
    { clear IH. induction merged as [|x m' IHm]; [constructor|].
      simpl in H. inversion H as [|? ? Hx Hrest]; subst.
      constructor.
      - rewrite Forall_forall in Hx. apply Hx.
        apply in_or_app. right. now left.
      - now apply IHm. }
    unfold mergeOne at 2. rewrite (scanClusters_all_far _ _ _ Hc).
    rewrite IH; rewrite <- app_assoc; auto.
Qed.

(** X16.  Colours that are pairwise farther apart than the threshold, by
    the distance [colorDistance] computes (the double [Math.sqrt] returns),
    are left as they are: [mergeSimilarColors] returns its input. *)
Theorem separated_colours_are_not_merged
    (colors : list RawColor) (threshold : Q) :
  ForallOrdPairs
    (fun earlier later =>
       (threshold < colorDistance later earlier)%Q) colors ->
  mergeSimilarColors colors threshold = colors.
Proof.
  intros H. unfold mergeSimilarColors.
  apply (fold_mergeOne_separated threshold colors []). simpl.
  induction H as [|c rest Hc _ IH]; constructor; auto.
  eapply Forall_impl; [|exact Hc].
  intros later Hd. now apply withinThreshold_false_spec.
Qed.

(** X17.  Merging a non-empty list of colours with channels in 0..255 and
    populations of 1 or more gives a non-empty list that is no longer than
    the input, carries the same total population, and consists of such
    colours again. *)
Theorem mergeSimilarColors_well_formed
    (colors : list RawColor) (threshold : Q) :
  Forall validColor colors -> colors <> [] ->
  (1 <= List.length (mergeSimilarColors colors threshold)
   <= List.length colors)%nat
  /\ totalPopulation (mergeSimilarColors colors threshold)
     = totalPopulation colors
  /\ Forall validColor (mergeSimilarColors colors threshold).
Proof.
  intros Hv Hne. split; [split|split].
  - now apply mergeSimilarColors_nonempty.
  - apply mergeSimilarColors_length.
  - unfold mergeSimilarColors. now rewrite fold_mergeOne_population.
  - now apply mergeSimilarColors_valid.
Qed.

(** ** More on sampling *)

(** X18.  On image data the loop accumulates, in order, exactly the pixels
    at the positions [0, step, 2*step, ...] (with
    [step = max(1, floor(sampleStep))]) whose alpha is 128 or more, and
    [totalSamples] is their number. *)
Theorem loop_visits_every_nth_pixel (data : list Z) (sampleStep : Q) :
  isImageData data = true ->
  let step := Z.max 1 (Math_floor sampleStep) in
  (forall p,
      In p (sampledPixels data sampleStep)
      <-> exists k, 0 <= k /\ p = k * step /\ p < pixelCount data)
  /\ TS.sample data sampleStep
     = Finished
         (fold_left
            (fun st p =>
               accumulate st (channelAt data p 0) (channelAt data p 1)
                 (channelAt data p 2))
            (filter (fun p => 128 <=? channelAt data p 3)
                    (sampledPixels data sampleStep))
            emptyState)
  /\ (exists colorMap,
        TS.sample data sampleStep
        = Finished
            (colorMap,
             Z.of_nat
               (List.length
                  (filter (fun p => 128 <=? channelAt data p 3)
                          (sampledPixels data sampleStep))))).
Proof.
  intros Hdata step.
  pose proof (isImageData_length data Hdata) as Hlen.
  split; [|split].
  - intros p. apply everyNth_spec; subst step; lia.
  - apply (sample_accepted data sampleStep Hdata).
  - destruct (sample_ok data sampleStep Hdata)
      as (colorMap & total & Hs & _ & _ & Htotal).
    exists colorMap. rewrite Hs, Htotal. reflexivity.
Qed.

(** ** More on the JavaScript file *)

(** X19.  In the JavaScript file [sampleStep = 0] keeps the loop on the
    first pixel of every non-empty image: no amount of fuel is enough. *)
Theorem JS_sampleStep_0_never_returns
    (data : list Z) (paletteSize nearDuplicateThreshold : Q) (fuel : nat) :
  isImageData data = true -> data <> [] ->
  JS.getColorPaletteFromImageElement fuel data paletteSize 0
    nearDuplicateThreshold = OutOfFuel.
Proof.
  intros Hdata Hne. unfold JS.getColorPaletteFromImageElement.
  now rewrite (JS_zero_step_never_ends data fuel Hdata Hne).
Qed.

Lemma Array_slice0_zero {A : Type} (arr : list A) : Array_slice0 arr 0 = [].
Proof. unfold Array_slice0. simpl. now rewrite Z.min_l by lia. Qed.



(** ** The sorted view of the page *)

Lemma insertBy_perm {A : Type} (compare : A -> A -> Q) (c : A)
    (sorted : list A) :
  Permutation (insertBy compare c sorted) (c :: sorted).
Proof.
  induction sorted as [|x rest IH]; simpl.
  - reflexivity.
  - destruct (Qle_bool 0 (compare x c)).
    + reflexivity.
    + rewrite IH. apply perm_swap.
Qed.

Lemma Array_sort_perm {A : Type} (compare : A -> A -> Q) (arr : list A) :
  Permutation (Array_sort compare arr) arr.
Proof.
  induction arr as [|c rest IH]; simpl.
  - reflexivity.
  - rewrite insertBy_perm. now constructor.
Qed.

Lemma Array_sort_inOrder {A : Type} (compare : A -> A -> Q) (arr : list A) :
  inOrder compare arr -> Array_sort compare arr = arr.
Proof.
  induction arr as [|c rest IH]; intros H; [reflexivity|].
  destruct H as [Hc Hrest]. cbn [Array_sort fold_right].
  change (fold_right (insertBy compare) [] rest)
    with (Array_sort compare rest).
  rewrite (IH Hrest). destruct rest as [|x rest']; [reflexivity|].
  simpl. apply Qle_bool_iff in Hc. now rewrite Hc.
Qed.

Lemma insertBy_ext {A : Type} (c1 c2 : A -> A -> Q) (c : A)
    (sorted : list A) :
  (forall x, In x sorted -> Qle_bool 0 (c1 x c) = Qle_bool 0 (c2 x c)) ->
  insertBy c1 c sorted = insertBy c2 c sorted.
Proof.
  induction sorted as [|x rest IH]; intros H; simpl; auto.
  rewrite (H x (or_introl eq_refl)).
  destruct (Qle_bool 0 (c2 x c)); auto.
  f_equal. apply IH. intros y Hy. apply H. now right.
Qed.

(** Two comparators that agree in sign on the elements of an array sort it
    alike. *)
Lemma Array_sort_ext {A : Type} (c1 c2 : A -> A -> Q) (arr : list A) :
  (forall x y, In x arr -> In y arr ->
     Qle_bool 0 (c1 x y) = Qle_bool 0 (c2 x y)) ->
  Array_sort c1 arr = Array_sort c2 arr.
Proof.
  induction arr as [|c rest IH]; intros H; [reflexivity|].
  cbn [Array_sort fold_right].
  change (fold_right (insertBy c1) [] rest) with (Array_sort c1 rest).
  change (fold_right (insertBy c2) [] rest) with (Array_sort c2 rest).
  rewrite IH by (intros x y Hx Hy; apply H; now right).
  apply insertBy_ext. intros x Hx.
  apply H; [right | now left].
  now apply (Permutation_in _ (Array_sort_perm c2 rest)).
Qed.

Lemma Qle_bool_0_ext (a b : Q) :
  ((0 <= a)%Q <-> (0 <= b)%Q) -> Qle_bool 0 a = Qle_bool 0 b.
Proof.
  intros H.
  destruct (Qle_bool 0 a) eqn:Ea, (Qle_bool 0 b) eqn:Eb; auto.
  - apply Qle_bool_iff in Ea. apply H in Ea. apply Qle_bool_iff in Ea.
    congruence.
  - apply Qle_bool_iff in Eb. apply H in Eb. apply Qle_bool_iff in Eb.
    congruence.
Qed.

Lemma Qle_bool_0_difference (x y : Z) :
  Qle_bool 0 (inject_Z x - inject_Z y) = (y <=? x).
Proof.
  destruct (y <=? x) eqn:E.
  - apply Z.leb_le in E. apply Qle_bool_iff.
    rewrite Zle_Qle in E. lra.
  - apply Z.leb_gt in E.
    destruct (Qle_bool 0 (inject_Z x - inject_Z y)) eqn:E'; auto.
    apply Qle_bool_iff in E'. rewrite Zlt_Qlt in E. lra.
Qed.

Lemma descending_inOrder (palette : list PaletteColor.t) :
  descending (map PaletteColor.population palette) ->
  inOrder (fun a b => inject_Z (PaletteColor.population b)
                      - inject_Z (PaletteColor.population a))%Q palette.
Proof.
  induction palette as [|c rest IH]; intros H; simpl; auto.
  destruct H as [Hc Hrest]. split; auto.
  destruct rest as [|x rest']; auto.
  simpl in Hc. rewrite Zle_Qle in Hc. lra.
Qed.

Lemma palette_is_descending (data : list Z) (paletteSize sampleStep t : Q)
    (palette : list PaletteColor.t) :
  TS.getColorPaletteFromImageElement data paletteSize sampleStep t
  = Finished palette ->
  descending (map PaletteColor.population palette).
Proof.
  intros Hget.
  destruct (TS_palette_cases _ _ _ _ _ Hget)
    as [->|(colorMap & total & _ & _ & ->)]; [simpl; auto|].
  rewrite palette_populations, <- firstn_map.
  apply descending_firstn. unfold rankedColors. cbv zeta.
  apply sortByPopulation_descending.
Qed.

(** X21.  The view the page opens with (population, descending) shows a
    returned palette in the order the extraction returned it, in both
    revisions of the page. *)
Theorem default_view_keeps_extraction_order
    (metrics_hue metrics_saturation metrics_luminance : PaletteColor.t -> Q)
    (localeCompare : string -> string -> Q)
    (data : list Z) (paletteSize sampleStep nearDuplicateThreshold : Q)
    (palette : list PaletteColor.t) :
  TS.getColorPaletteFromImageElement data paletteSize sampleStep
    nearDuplicateThreshold = Finished palette ->
  sortedPalette metrics_hue metrics_saturation metrics_luminance
    localeCompare palette SortField.population desc = palette
  /\ sortedPaletteByMode localeCompare palette SortMode.population = palette.
Proof.
  intros Hget.
  pose proof (descending_inOrder palette
                (palette_is_descending _ _ _ _ _ Hget)) as Hord.
  split.
  - unfold sortedPalette. cbv zeta.
    rewrite <- (Array_sort_inOrder _ palette Hord) at 2.
    apply Array_sort_ext. intros x y _ _.
    unfold comparePalette. cbv zeta.
    apply Qle_bool_0_ext. split; intros H; lra.
  - unfold sortedPaletteByMode. cbv zeta.
    now apply Array_sort_inOrder.
Qed.

Lemma palette_percentage_of_population
    (data : list Z) (paletteSize sampleStep t : Q)
    (palette : list PaletteColor.t) :
  isImageData data = true ->
  TS.getColorPaletteFromImageElement data paletteSize sampleStep t
  = Finished palette ->
  exists total, 0 < total
    /\ Forall (fun c => (PaletteColor.percentage c
                         == inject_Z (PaletteColor.population c)
                            / inject_Z total)%Q) palette.
Proof.
  intros Hdata Hget.
  destruct (sample_ok data sampleStep Hdata)
    as (colorMap & total & Hs & Hok & Hsum & Htotal).
  destruct (Z.eq_dec total 0) as [E0|Hne].
  { exists 1. split; [lia|]. rewrite E0 in Hs.
    rewrite (TS_palette_of_nothing _ paletteSize _ t _ Hs) in Hget.
    inversion Hget. constructor. }
  exists total. split; [lia|].
  rewrite (TS_palette_of_sample _ paletteSize _ t _ _ Hs Hne) in Hget.
  inversion Hget as [Hpal]. clear Hget.
  unfold TS.limitedColors. rewrite Array_slice0_firstn by lia.
  apply Forall_map, Forall_prefix.
  assert (Hpos : 0 < sumCounts colorMap) by lia.
  eapply Forall_impl; [|apply (rankedColors_share colorMap t Hpos)].
  intros c Hc. unfold hasShare in Hc.
  cbn [TS.toPaletteColor PaletteColor.population PaletteColor.percentage].
  rewrite Hc, Hsum. reflexivity.
Qed.

Lemma share_difference_sign (total x y : Z) (p q : Q) :
  0 < total ->
  (p == inject_Z x / inject_Z total)%Q ->
  (q == inject_Z y / inject_Z total)%Q ->
  Qle_bool 0 (p - q) = Qle_bool 0 (inject_Z x - inject_Z y)
  /\ Qle_bool 0 (- (p - q)) = Qle_bool 0 (- (inject_Z x - inject_Z y)).
Proof.
  intros Ht Hp Hq.
  assert (Htq : (0 < inject_Z total)%Q).
  { change 0%Q with (inject_Z 0). now rewrite <- Zlt_Qlt. }
  assert (E : (p - q == (inject_Z x - inject_Z y) / inject_Z total)%Q).
  { rewrite Hp, Hq. field; lra. }
  assert (Hiff : forall d : Q,
            (0 <= d / inject_Z total)%Q <-> (0 <= d)%Q).
  { intros d. split; intros H.
    - apply (Qmult_le_r _ _ (/ inject_Z total)).
      + now apply Qinv_lt_0_compat.
      + rewrite Qmult_0_l. exact H.
    - apply Qle_shift_div_l; auto; now rewrite Qmult_0_l. }
  split; apply Qle_bool_0_ext.
  - rewrite E. apply Hiff.
  - assert (E' : (- (p - q)
                  == (- (inject_Z x - inject_Z y)) / inject_Z total)%Q).
    { rewrite E. field; lra. }
    rewrite E'. apply Hiff.
Qed.

(** X22.  On a palette returned for image data, sorting by percentage gives
    the same list as sorting by population, in either direction. *)
Theorem sorting_by_percentage_is_sorting_by_population
    (metrics_hue metrics_saturation metrics_luminance : PaletteColor.t -> Q)
    (localeCompare : string -> string -> Q)
    (data : list Z) (paletteSize sampleStep nearDuplicateThreshold : Q)
    (palette : list PaletteColor.t) (sortDirection : SortDirection) :
  isImageData data = true ->
  TS.getColorPaletteFromImageElement data paletteSize sampleStep
    nearDuplicateThreshold = Finished palette ->
  sortedPalette metrics_hue metrics_saturation metrics_luminance
    localeCompare palette SortField.percentage sortDirection
  = sortedPalette metrics_hue metrics_saturation metrics_luminance
      localeCompare palette SortField.population sortDirection.
Proof.
  intros Hdata Hget.
  destruct (palette_percentage_of_population _ _ _ _ _ Hdata Hget)
    as (total & Hpos & Hshare).
  unfold sortedPalette. cbv zeta. apply Array_sort_ext.
  intros x y Hx Hy. rewrite Forall_forall in Hshare.
  destruct (share_difference_sign total _ _ _ _ Hpos
              (Hshare x Hx) (Hshare y Hy)) as [Hasc Hdesc].
  unfold comparePalette. cbv zeta. destruct sortDirection; assumption.
Qed.

Lemma ascending_cons (x : Z) (l : list Z) :
  ascending l -> (forall y, In y l -> x <= y) -> ascending (x :: l).
Proof.
  intros Hl Hx. destruct l as [|y rest]; simpl; auto.
  split; auto. apply Hx. now left.
Qed.

Lemma ascending_bound (x : Z) (l : list Z) :
  ascending (x :: l) -> forall y, In y l -> x <= y.
Proof.
  revert x. induction l as [|z rest IH]; intros x H y Hy; [contradiction|].
  destruct H as [Hzx Hrest].
  destruct Hy as [<-|Hy]; auto.
  specialize (IH z Hrest y Hy). lia.
Qed.

Lemma Array_sort_population_asc (palette : list PaletteColor.t) :
  ascending
    (map PaletteColor.population
       (Array_sort (fun a b => inject_Z (PaletteColor.population a)
                               - inject_Z (PaletteColor.population b))%Q
          palette)).
Proof.
  induction palette as [|c rest IH]; [simpl; auto|].
  cbn [Array_sort fold_right].
  set (cmp := (fun a b => inject_Z (PaletteColor.population a)
                          - inject_Z (PaletteColor.population b))%Q) in *.
  change (fold_right (insertBy cmp) [] rest) with (Array_sort cmp rest).
  induction (Array_sort cmp rest) as [|x sorted IHs]; [simpl; auto|].
  simpl. unfold cmp at 1. rewrite Qle_bool_0_difference.
  destruct (PaletteColor.population c <=? PaletteColor.population x) eqn:E.
  - apply Z.leb_le in E. simpl. split; auto.
  - apply Z.leb_gt in E.
    change (ascending (PaletteColor.population x
                       :: map PaletteColor.population
                            (insertBy cmp c sorted))).
    apply ascending_cons.
    + apply IHs. simpl in IH. tauto.
    + intros y Hy. apply in_map_iff in Hy. destruct Hy as (z & <- & Hz).
      apply (Permutation_in _ (insertBy_perm cmp c sorted)) in Hz.
      destruct Hz as [<-|Hz]; [lia|].
      apply (ascending_bound _ _ IH). now apply in_map.
Qed.

Lemma Array_sort_population_desc (palette : list PaletteColor.t) :
  descending
    (map PaletteColor.population
       (Array_sort (fun a b => - (inject_Z (PaletteColor.population a)
                                  - inject_Z (PaletteColor.population b)))%Q
          palette)).
Proof.
  induction palette as [|c rest IH]; [simpl; auto|].
  cbn [Array_sort fold_right].
  set (cmp := (fun a b => - (inject_Z (PaletteColor.population a)
                             - inject_Z (PaletteColor.population b)))%Q) in *.
  change (fold_right (insertBy cmp) [] rest) with (Array_sort cmp rest).
  induction (Array_sort cmp rest) as [|x sorted IHs]; [simpl; auto|].
  simpl.
  assert (Hsign : Qle_bool 0 (cmp x c)
                  = (PaletteColor.population x
                     <=? PaletteColor.population c)).
  { unfold cmp. rewrite <- Qle_bool_0_difference.
    apply Qle_bool_0_ext. split; intros H; lra. }
  rewrite Hsign.
  destruct (PaletteColor.population x <=? PaletteColor.population c) eqn:E.
  - apply Z.leb_le in E. simpl. split; auto.
  - apply Z.leb_gt in E.
    change (descending (PaletteColor.population x
                        :: map PaletteColor.population
                             (insertBy cmp c sorted))).
    apply descending_cons.
    + apply IHs. simpl in IH. tauto.
    + intros y Hy. apply in_map_iff in Hy. destruct Hy as (z & <- & Hz).
      apply (Permutation_in _ (insertBy_perm cmp c sorted)) in Hz.
      destruct Hz as [<-|Hz]; [lia|].
      apply (descending_bound _ _ IH). now apply in_map.
Qed.

(** X23.  Sorting any palette by population shows the same colours, each
    as often as before, with populations rising for [asc] and falling for
    [desc]. *)
Theorem sortedPalette_by_population
    (metrics_hue metrics_saturation metrics_luminance : PaletteColor.t -> Q)
    (localeCompare : string -> string -> Q)
    (palette : list PaletteColor.t) :
  let sorted := sortedPalette metrics_hue metrics_saturation
                  metrics_luminance localeCompare palette
                  SortField.population in
  Permutation (sorted asc) palette
  /\ Permutation (sorted desc) palette
  /\ ascending (map PaletteColor.population (sorted asc))
  /\ descending (map PaletteColor.population (sorted desc)).
Proof.
  intros sorted. subst sorted. unfold sortedPalette. cbv zeta.
  split; [apply Array_sort_perm|]. split; [apply Array_sort_perm|].
  split.
  - apply Array_sort_population_asc.
  - apply Array_sort_population_desc.
Qed.

(** ** More on bucketing *)

(** X24.  Two pixels with channels in 0..255 get the same bucket key
    exactly when each of their channels agrees in its high four bits; the
    key is below 4096. *)
Theorem quantKey_same_cube (r g b r' g' b' : Z) :
  channel r -> channel g -> channel b ->
  channel r' -> channel g' -> channel b' ->
  0 <= quantKey r g b < 4096
  /\ (quantKey r g b = quantKey r' g' b'
      <-> r / 16 = r' / 16 /\ g / 16 = g' / 16 /\ b / 16 = b' / 16).
Proof.
  intros Hr Hg Hb Hr' Hg' Hb'.
  rewrite (quantKey_value r g b), (quantKey_value r' g' b') by assumption.
  destruct (nibble_of_channel r Hr) as [? _].
  destruct (nibble_of_channel g Hg) as [? _].
  destruct (nibble_of_channel b Hb) as [? _].
  destruct (nibble_of_channel r' Hr') as [? _].
  destruct (nibble_of_channel g' Hg') as [? _].
  destruct (nibble_of_channel b' Hb') as [? _].
  split; [lia|]. split; [intros E; lia|].
  intros (-> & -> & ->). reflexivity.
Qed.

(** ** Concrete runs of the further properties *)

Lemma conj_with {P Q : Prop} : P -> (P -> Q) -> P /\ Q.
Proof. intros HP HQ. split; [exact HP | exact (HQ HP)]. Defined.

Lemma channel_byte_10 : channel 10.
Proof. unfold channel. lia. Defined.

Lemma channel_byte_171 : channel 171.
Proof. unfold channel. lia. Defined.

Lemma channel_byte_16 : channel 16.
Proof. unfold channel. lia. Defined.

Lemma getScaledDimensions_no_upscaling_witness :
  1 <= 640 /\ 1 <= 480 /\ (inject_Z (Z.max 640 480) <= 1024)%Q
  /\ getScaledDimensions 640 480 1024 = mkDimensions 640 480.
Proof.
  assert (H1 : 1 <= 640) by lia.
  assert (H2 : 1 <= 480) by lia.
  assert (H3 : (inject_Z (Z.max 640 480) <= 1024)%Q) by discriminate.
  split; [exact H1|]. split; [exact H2|]. split; [exact H3|].
  exact (getScaledDimensions_no_upscaling 640 480 1024 H1 H2 H3).
Defined.

Lemma getScaledDimensions_fits_witness :
  1 <= 4000 /\ 1 <= 3000 /\ 1 <= 1024
  /\ ltac:(match type of (getScaledDimensions_fits 4000 3000 1024)
           with _ -> _ -> _ -> ?C => exact C end).
Proof.
  assert (H1 : 1 <= 4000) by lia.
  assert (H2 : 1 <= 3000) by lia.
  assert (H3 : 1 <= 1024) by lia.
  split; [exact H1|]. split; [exact H2|]. split; [exact H3|].
  exact (getScaledDimensions_fits 4000 3000 1024 H1 H2 H3).
Defined.

Lemma getScaledDimensions_nonpositive_limit_witness :
  1 <= 640 /\ 1 <= 480 /\ (0 <= 0)%Q
  /\ getScaledDimensions 640 480 0 = mkDimensions 1 1.
Proof.
  assert (H1 : 1 <= 640) by lia.
  assert (H2 : 1 <= 480) by lia.
  assert (H3 : (0 <= 0)%Q) by discriminate.
  split; [exact H1|]. split; [exact H2|]. split; [exact H3|].
  exact (getScaledDimensions_nonpositive_limit 640 480 0 H1 H2 H3).
Defined.

Lemma contrastRatio_symmetric_at_least_1_witness :
  (0 <= 0)%R /\ (0 <= 1)%R
  /\ Contrast.contrastRatio 0 1 = Contrast.contrastRatio 1 0
  /\ (1 <= Contrast.contrastRatio 0 1)%R.
Proof.
  assert (H0 : (0 <= 0)%R) by apply Rle_refl.
  assert (H1 : (0 <= 1)%R) by apply Rle_0_1.
  split; [exact H0|]. split; [exact H1|].
  exact (contrastRatio_symmetric_at_least_1 0 1 H0 H1).
Defined.

Lemma srgbToLuminance_between_0_and_1_witness :
  channel 10 /\ channel 171 /\ channel 16
  /\ (0 <= Contrast.srgbToLuminance 10 171 16 <= 1)%R.
Proof.
  split; [exact channel_byte_10|]. split; [exact channel_byte_171|].
  split; [exact channel_byte_16|].
  exact (srgbToLuminance_between_0_and_1 10 171 16
           channel_byte_10 channel_byte_171 channel_byte_16).
Defined.

Lemma bestTextColor_luminance_cut_witness :
  channel 10 /\ channel 171 /\ channel 16
  /\ ltac:(match type of (bestTextColor_luminance_cut 10 171 16)
           with _ -> _ -> _ -> ?C => exact C end).
Proof.
  split; [exact channel_byte_10|]. split; [exact channel_byte_171|].
  split; [exact channel_byte_16|].
  exact (bestTextColor_luminance_cut 10 171 16
           channel_byte_10 channel_byte_171 channel_byte_16).
Defined.

Lemma rgbToHex_injective_witness :
  channel 10 /\ channel 171 /\ channel 16
  /\ rgbToHex 10 171 16 = rgbToHex 10 171 16
  /\ 10 = 10 /\ 171 = 171 /\ 16 = 16.
Proof.
  split; [exact channel_byte_10|]. split; [exact channel_byte_171|].
  split; [exact channel_byte_16|]. split; [reflexivity|].
  exact (rgbToHex_injective 10 171 16 10 171 16
           channel_byte_10 channel_byte_171 channel_byte_16
           channel_byte_10 channel_byte_171 channel_byte_16 eq_refl).
Defined.

Lemma at_most_4096_buckets_witness :
  isImageData image2x2 = true
  /\ ltac:(match type of (at_most_4096_buckets image2x2 10 1 50)
           with _ -> ?C => exact C end).
Proof.
  split; [reflexivity|].
  exact (at_most_4096_buckets image2x2 10 1 50 eq_refl).
Defined.

Lemma bucket_colour_stays_in_its_cube_witness :
  exists colorMap totalSamples,
    isImageData image2x2 = true
    /\ TS.sample image2x2 1 = Finished (colorMap, totalSamples)
    /\ ltac:(match type of
               (bucket_colour_stays_in_its_cube image2x2 1 colorMap
                  totalSamples)
             with _ -> _ -> ?C => exact C end).
Proof.
  eexists. eexists. split; [reflexivity|].
  apply conj_with; [vm_compute; reflexivity|]. intros Hs.
  exact (bucket_colour_stays_in_its_cube image2x2 1 _ _ eq_refl Hs).
Defined.

Lemma palette_is_ordered_by_population_witness :
  exists palette,
    TS.getColorPaletteFromImageElement image2x2 10 1 0 = Finished palette
    /\ descending (map PaletteColor.population palette).
Proof.
  eexists. apply conj_with; [run_TS|]. intros Hget.
  exact (palette_is_ordered_by_population image2x2 10 1 0 _ Hget).
Defined.

Lemma palette_entries_are_shares_witness :
  exists palette,
    isImageData image2x2 = true
    /\ TS.getColorPaletteFromImageElement image2x2 10 1 0 = Finished palette
    /\ ltac:(match type of
               (palette_entries_are_shares image2x2 10 1 0 palette)
             with _ -> _ -> ?C => exact C end).
Proof.
  eexists. split; [reflexivity|].
  apply conj_with; [run_TS|]. intros Hget.
  exact (palette_entries_are_shares image2x2 10 1 0 _ eq_refl Hget).
Defined.

Lemma image2x2_accepted : acceptedPixels image2x2 1 <> [].
Proof. vm_compute. discriminate. Defined.

Lemma palette_length_exact_witness :
  exists palette clusters,
    acceptedPixels image2x2 1 <> []
    /\ isImageData image2x2 = true
    /\ TS.getColorPaletteFromImageElement image2x2 2 1 0 = Finished palette
    /\ TS.clusters image2x2 1 0 = Finished clusters
    /\ List.length palette
       = Nat.min (Z.to_nat (Z.max 1 (Math_floor 2))) (List.length clusters).
Proof.
  eexists. eexists. split; [exact image2x2_accepted|].
  split; [reflexivity|].
  apply conj_with; [run_TS|]. intros Hget.
  apply conj_with; [vm_compute; reflexivity|]. intros Hcl.
  exact (palette_length_exact image2x2 2 1 0 _ _ image2x2_accepted
           eq_refl Hget Hcl).
Defined.

Lemma large_threshold_single_colour_witness :
  exists palette,
    isImageData image2x2 = true
    /\ acceptedPixels image2x2 1 <> []
    /\ (442 <= 1000)%Q
    /\ TS.getColorPaletteFromImageElement image2x2 10 1 1000
       = Finished palette
    /\ ltac:(match type of
               (large_threshold_single_colour image2x2 10 1 1000 palette)
             with _ -> _ -> _ -> _ -> ?C => exact C end).
Proof.
  assert (Hfar : (442 <= 1000)%Q) by discriminate.
  eexists. split; [reflexivity|]. split; [exact image2x2_accepted|].
  split; [exact Hfar|].
  apply conj_with; [run_TS|]. intros Hget.
  exact (large_threshold_single_colour image2x2 10 1 1000 _ eq_refl
           image2x2_accepted Hfar Hget).
Defined.

Lemma absorb_stays_between_witness :
  1 <= population red120 /\ 1 <= population red135
  /\ ltac:(match type of (absorb_stays_between red120 red135)
           with _ -> _ -> ?C => exact C end).
Proof.
  assert (H1 : 1 <= population red120) by (simpl; lia).
  assert (H2 : 1 <= population red135) by (simpl; lia).
  split; [exact H1|]. split; [exact H2|].
  exact (absorb_stays_between red120 red135 H1 H2).
Defined.

Lemma separated_colours_are_not_merged_witness :
  ForallOrdPairs
    (fun earlier later => (15 < colorDistance later earlier)%Q)
    [red100; red120]
  /\ mergeSimilarColors [red100; red120] 15 = [red100; red120].
Proof.
  apply conj_with.
  - constructor; [|constructor; constructor].
    constructor; [|constructor].
    apply withinThreshold_false_spec. reflexivity.
  - intros H. exact (separated_colours_are_not_merged _ 15 H).
Defined.

Lemma mergeSimilarColors_well_formed_witness :
  Forall validColor [red100; red120; red135; red85]
  /\ [red100; red120; red135; red85] <> []
  /\ ltac:(match type of
             (mergeSimilarColors_well_formed
                [red100; red120; red135; red85] 15)
           with _ -> _ -> ?C => exact C end).
Proof.
  assert (Hne : [red100; red120; red135; red85] <> []) by discriminate.
  split; [exact reds_valid|]. split; [exact Hne|].
  exact (mergeSimilarColors_well_formed _ 15 reds_valid Hne).
Defined.

Lemma loop_visits_every_nth_pixel_witness :
  isImageData image2x2 = true
  /\ ltac:(match type of (loop_visits_every_nth_pixel image2x2 2)
           with _ -> ?C => exact C end).
Proof.
  split; [reflexivity|].
  exact (loop_visits_every_nth_pixel image2x2 2 eq_refl).
Defined.

Lemma image2x2_nonempty : image2x2 <> [].
Proof. discriminate. Defined.

Lemma JS_sampleStep_0_never_returns_witness :
  isImageData imageReds = true /\ imageReds <> []
  /\ JS.getColorPaletteFromImageElement 1000 imageReds 10 0 50 = OutOfFuel.
Proof.
  assert (Hne : imageReds <> []) by discriminate.
  split; [reflexivity|]. split; [exact Hne|].
  exact (JS_sampleStep_0_never_returns imageReds 10 50 1000 eq_refl Hne).
Defined.


Lemma default_view_keeps_extraction_order_witness :
  exists palette,
    TS.getColorPaletteFromImageElement image2x2 10 1 0 = Finished palette
    /\ ltac:(match type of
               (default_view_keeps_extraction_order
                  (fun _ => 0%Q) (fun _ => 0%Q) (fun _ => 0%Q)
                  (fun _ _ => 0%Q) image2x2 10 1 0 palette)
             with _ -> ?C => exact C end).
Proof.
  eexists. apply conj_with; [run_TS|]. intros Hget.
  exact (default_view_keeps_extraction_order
           (fun _ => 0%Q) (fun _ => 0%Q) (fun _ => 0%Q) (fun _ _ => 0%Q)
           image2x2 10 1 0 _ Hget).
Defined.

Lemma sorting_by_percentage_is_sorting_by_population_witness :
  exists palette,
    isImageData image2x2 = true
    /\ TS.getColorPaletteFromImageElement image2x2 10 1 0 = Finished palette
    /\ ltac:(match type of
               (sorting_by_percentage_is_sorting_by_population
                  (fun _ => 0%Q) (fun _ => 0%Q) (fun _ => 0%Q)
                  (fun _ _ => 0%Q) image2x2 10 1 0 palette asc)
             with _ -> _ -> ?C => exact C end).
Proof.
  eexists. split; [reflexivity|].
  apply conj_with; [run_TS|]. intros Hget.
  exact (sorting_by_percentage_is_sorting_by_population
           (fun _ => 0%Q) (fun _ => 0%Q) (fun _ => 0%Q) (fun _ _ => 0%Q)
           image2x2 10 1 0 _ asc eq_refl Hget).
Defined.

Lemma quantKey_same_cube_witness :
  channel 10 /\ channel 171 /\ channel 16
  /\ ltac:(match type of (quantKey_same_cube 10 171 16 16 171 10)
           with _ -> _ -> _ -> _ -> _ -> _ -> ?C => exact C end).
Proof.
  split; [exact channel_byte_10|]. split; [exact channel_byte_171|].
  split; [exact channel_byte_16|].
  exact (quantKey_same_cube 10 171 16 16 171 10
           channel_byte_10 channel_byte_171 channel_byte_16
           channel_byte_16 channel_byte_171 channel_byte_10).
Defined.

(** * The JavaScript file past an undefined read *)

Lemma JSNaN_Map_get (m : ColorMap) (key : Z) :
  JSNaN.Map_get (ofColorMap m) key = option_map ofEntry (Map_get m key).
Proof.
  induction m as [|[k e] m' IH]; simpl; auto.
  destruct (k =? key); auto.
Qed.

Lemma JSNaN_Map_set (m : ColorMap) (key : Z) (e : Entry) :
  JSNaN.Map_set (ofColorMap m) key (ofEntry e) = ofColorMap (Map_set m key e).
Proof.
  induction m as [|[k e0] m' IH]; simpl; auto.
  destruct (k =? key); simpl; auto. now rewrite IH.
Qed.

Lemma JSNaN_Map_modify (m : ColorMap) (key : Z)
    (f : Entry -> Entry) (f' : JSNaN.Entry -> JSNaN.Entry) :
  (forall e, f' (ofEntry e) = ofEntry (f e)) ->
  JSNaN.Map_modify (ofColorMap m) key f' = ofColorMap (JS.Map_modify m key f).
Proof.
  intros Hf. induction m as [|[k e] m' IH]; simpl; auto.
  destruct (k =? key); simpl.
  - now rewrite Hf.
  - now rewrite IH.
Qed.

Lemma JSNaN_accumulate (st : LoopState) (r g b : Z) :
  JSNaN.accumulate (ofLoopState st) (Some r) (Some g) (Some b)
  = ofLoopState (JS.accumulate st r g b).
Proof.
  destruct st as [m total].
  unfold JSNaN.accumulate, JS.accumulate, ofLoopState.
  cbn [fst snd JSNaN.ToInt32 JSNaN.ToNumber]. f_equal.
  rewrite JSNaN_Map_get.
  destruct (Map_get m (quantKey r g b)) as [e|]; cbn [option_map].
  - now apply JSNaN_Map_modify.
  - change (JSNaN.mkEntry 0 (JSNaN.Int 0) (JSNaN.Int 0) (JSNaN.Int 0))
      with (ofEntry (mkEntry 0 0 0 0)).
    rewrite JSNaN_Map_set. now apply JSNaN_Map_modify.
Qed.

(** As long as no channel reads [undefined], the two loops run in
    lockstep. *)
Lemma JSNaN_sampleLoop (data : list Z) (inc : Q) :
  forall (fuel : nat) (i : Q) (st : LoopState),
    JS.sampleLoop fuel data inc i st <> UndefinedRead ->
    JSNaN.sampleLoop fuel data inc i (ofLoopState st)
    = Outcome_map ofLoopState (JS.sampleLoop fuel data inc i st).
Proof.
  induction fuel as [|fuel IH]; intros i st H;
    cbn [JS.sampleLoop JSNaN.sampleLoop] in *;
    destruct (negb (Qle_bool (inject_Z (Z.of_nat (List.length data))) i));
    auto.
  cbv zeta.
  destruct (JS.data_getQ data i) as [r|]; [|congruence].
  destruct (JS.data_getQ data (i + 1)) as [g|]; [|congruence].
  destruct (JS.data_getQ data (i + 2)) as [b|]; [|congruence].
  destruct (JS.data_getQ data (i + 3)) as [a|]; [|congruence].
  cbn [JSNaN.lessThan].
  destruct (a <? 128).
  - now apply IH.
  - rewrite JSNaN_accumulate. now apply IH.
Qed.

Lemma JSNaN_averaged (e : Entry) :
  JSNaN.averaged (ofEntry e) = ofRawColor (averaged e).
Proof. reflexivity. Qed.

Lemma JSNaN_insertByPopulation (c : RawColor) (sorted : list RawColor) :
  JSNaN.insertByPopulation (ofRawColor c) (map ofRawColor sorted)
  = map ofRawColor (insertByPopulation c sorted).
Proof.
  induction sorted as [|x rest IH]; simpl; auto.
  destruct (population x <=? population c); simpl; auto.
  now rewrite IH.
Qed.

Lemma JSNaN_sortByPopulation (colors : list RawColor) :
  JSNaN.sortByPopulation (map ofRawColor colors)
  = map ofRawColor (sortByPopulation colors).
Proof.
  unfold JSNaN.sortByPopulation, sortByPopulation.
  induction colors as [|c rest IH]; cbn [map fold_right]; auto.
  rewrite IH. apply JSNaN_insertByPopulation.
Qed.

Lemma JSNaN_withinThreshold (color cluster : RawColor) (threshold : Q) :
  JSNaN.withinThreshold (ofRawColor color) (ofRawColor cluster) threshold
  = withinThreshold color cluster threshold.
Proof. reflexivity. Qed.

Lemma JSNaN_absorb (cluster color : RawColor) :
  JSNaN.absorb (ofRawColor cluster) (ofRawColor color)
  = ofRawColor (absorb cluster color).
Proof. reflexivity. Qed.

Lemma JSNaN_scanClusters (merged : list RawColor) (color : RawColor)
    (threshold : Q) :
  JSNaN.scanClusters (map ofRawColor merged) (ofRawColor color) threshold
  = option_map (map ofRawColor) (scanClusters merged color threshold).
Proof.
  induction merged as [|c rest IH]; simpl; auto.
  rewrite JSNaN_withinThreshold.
  destruct (withinThreshold color c threshold); simpl.
  - now rewrite JSNaN_absorb.
  - rewrite IH. now destruct (scanClusters rest color threshold).
Qed.

Lemma JSNaN_mergeOne (threshold : Q) (merged : list RawColor)
    (color : RawColor) :
  JSNaN.mergeOne threshold (map ofRawColor merged) (ofRawColor color)
  = map ofRawColor (mergeOne threshold merged color).
Proof.
  unfold JSNaN.mergeOne, mergeOne. rewrite JSNaN_scanClusters.
  destruct (scanClusters merged color threshold); simpl; auto.
  now rewrite map_app.
Qed.

Lemma JSNaN_fold_mergeOne (threshold : Q) (colors merged : list RawColor) :
  fold_left (JSNaN.mergeOne threshold) (map ofRawColor colors)
    (map ofRawColor merged)
  = map ofRawColor (fold_left (mergeOne threshold) colors merged).
Proof.
  revert merged. induction colors as [|c rest IH]; intros merged; simpl; auto.
  now rewrite JSNaN_mergeOne, IH.
Qed.

Lemma JSNaN_mergeStep (colors : list RawColor) (threshold : Q) :
  JSNaN.mergeStep (map ofRawColor colors) threshold
  = map ofRawColor (mergeStep colors threshold).
Proof.
  unfold JSNaN.mergeStep, mergeStep.
  destruct (Qlt_le_dec 0 threshold); auto.
  apply (JSNaN_fold_mergeOne threshold colors []).
Qed.

Lemma JSNaN_totalPopulation (colors : list RawColor) :
  JSNaN.totalPopulation (map ofRawColor colors) = totalPopulation colors.
Proof.
  unfold JSNaN.totalPopulation, totalPopulation. generalize 0.
  induction colors as [|c rest IH]; intros acc; simpl; auto.
Qed.

Lemma JSNaN_assignPercentages (colors : list RawColor) :
  JSNaN.assignPercentages (map ofRawColor colors)
  = map ofRawColor (assignPercentages colors).
Proof.
  unfold JSNaN.assignPercentages, assignPercentages.
  rewrite JSNaN_totalPopulation, !map_map. reflexivity.
Qed.

Lemma JSNaN_rankedColors (colorMap : ColorMap) (threshold : Q) :
  JSNaN.rankedColors (ofColorMap colorMap) threshold
  = map ofRawColor (rankedColors colorMap threshold).
Proof.
  unfold JSNaN.rankedColors, rankedColors, bucketColors, Map_values,
    ofColorMap. cbv zeta.
  rewrite !map_map. cbn [snd].
  rewrite <- (map_map snd (fun e => JSNaN.averaged (ofEntry e))).
  rewrite <- (map_map averaged ofRawColor).
  rewrite <- (map_map snd averaged).
  now rewrite JSNaN_sortByPopulation, JSNaN_mergeStep,
    JSNaN_assignPercentages, JSNaN_sortByPopulation.
Qed.

Lemma Array_slice0_map {A B : Type} (f : A -> B) (arr : list A) (end_ : Z) :
  Array_slice0 (map f arr) end_ = map f (Array_slice0 arr end_).
Proof. unfold Array_slice0. now rewrite length_map, firstn_map. Qed.

Lemma JSNaN_bestTextColor (r g b : Z) :
  JSNaN.bestTextColor (JSNaN.Int r) (JSNaN.Int g) (JSNaN.Int b)
  = Contrast.bestTextColor r g b.
Proof. reflexivity. Qed.

Lemma JSNaN_toPaletteColor (c : RawColor) :
  JSNaN.toPaletteColor (ofRawColor c) = JS.toPaletteColor c.
Proof. reflexivity. Qed.

(** Where the first model of the file returns a palette or runs out of
    fuel, the model with NaN does the same. *)
Lemma JSNaN_refines_JS (fuel : nat) (data : list Z)
    (paletteSize sampleStep nearDuplicateThreshold : Q) :
  JS.getColorPaletteFromImageElement fuel data paletteSize sampleStep
    nearDuplicateThreshold <> UndefinedRead ->
  JSNaN.getColorPaletteFromImageElement fuel data paletteSize sampleStep
    nearDuplicateThreshold
  = JS.getColorPaletteFromImageElement fuel data paletteSize sampleStep
      nearDuplicateThreshold.
Proof.
  unfold JSNaN.getColorPaletteFromImageElement,
    JS.getColorPaletteFromImageElement, JSNaN.sample, JS.sample.
  intros H.
  change JSNaN.emptyState with (ofLoopState emptyState).
  rewrite JSNaN_sampleLoop.
  - destruct (JS.sampleLoop fuel data (4 * sampleStep) 0 emptyState)
      as [[colorMap total]| |]; cbn [Outcome_map ofLoopState fst snd]; auto.
    destruct (total =? 0); auto.
    unfold JSNaN.limitedColors, JS.limitedColors.
    rewrite JSNaN_rankedColors, Array_slice0_map, map_map.
    reflexivity.
  - intros E. rewrite E in H. now apply H.
Qed.

(** * Where the JavaScript file misses the guards of its port *)

Lemma JSNaN_palette_of_sample (fuel : nat) (data : list Z)
    (paletteSize sampleStep t : Q) (colorMap : JSNaN.ColorMap)
    (totalSamples : Z) :
  JSNaN.sample fuel data sampleStep = Finished (colorMap, totalSamples) ->
  totalSamples <> 0 ->
  JSNaN.getColorPaletteFromImageElement fuel data paletteSize sampleStep t
  = Finished (map JSNaN.toPaletteColor
                (JSNaN.limitedColors colorMap paletteSize t)).
Proof.
  intros Hs Hne. unfold JSNaN.getColorPaletteFromImageElement. rewrite Hs.
  apply Z.eqb_neq in Hne. now rewrite Hne.
Qed.

(** Fuel beyond what a run of the loop needs changes nothing. *)
Lemma JSNaN_sampleLoop_more_fuel (data : list Z) (inc : Q) (extra : nat) :
  forall (fuel : nat) (i : Q) (st st' : JSNaN.LoopState),
    JSNaN.sampleLoop fuel data inc i st = Finished st' ->
    JSNaN.sampleLoop (fuel + extra) data inc i st = Finished st'.
Proof.
  induction fuel as [|fuel IH]; intros i st st' H.
  - cbn [JSNaN.sampleLoop] in H. cbn [Nat.add].
    destruct extra; cbn [JSNaN.sampleLoop];
      destruct (negb (Qle_bool (inject_Z (Z.of_nat (List.length data))) i));
      auto; discriminate.
  - cbn [Nat.add JSNaN.sampleLoop] in *.
    destruct (negb (Qle_bool (inject_Z (Z.of_nat (List.length data))) i));
      auto.
    cbv zeta in *.
    destruct (JSNaN.lessThan (JS.data_getQ data (i + 3)) 128); now apply IH.
Qed.

Lemma JSNaN_palette_hex (colors : list JSNaN.RawColor) :
  map PaletteColor.paletteColor (map JSNaN.toPaletteColor colors)
  = map (fun c => JSNaN.rgbToHex (JSNaN.r c) (JSNaN.g c) (JSNaN.b c)) colors.
Proof. rewrite map_map. reflexivity. Qed.

Lemma TS_palette_hex (colors : list RawColor) :
  map PaletteColor.paletteColor (map TS.toPaletteColor colors)
  = map (fun c => rgbToHex (r c) (g c) (b c)) colors.
Proof. rewrite map_map. reflexivity. Qed.

(** C5 fails in the JavaScript file: line 193 slices with [paletteSize] as
    it is, so with [paletteSize = 0] nothing is returned although pixels
    were accepted (integer [sampleStep] of 1 or more, enough fuel), in
    either model of the file.  The TypeScript file, which slices with
    [Math.max(1, Math.floor(paletteSize))], returns one colour on the same
    input. *)
Theorem JS_paletteSize_0_returns_nothing
    (data : list Z) (nearDuplicateThreshold : Q) (sampleStep : Z)
    (fuel : nat) :
  isImageData data = true ->
  1 <= sampleStep -> (List.length data <= fuel)%nat ->
  acceptedPixels data (inject_Z sampleStep) <> [] ->
  JS.getColorPaletteFromImageElement fuel data 0 (inject_Z sampleStep)
    nearDuplicateThreshold = Finished []
  /\ JSNaN.getColorPaletteFromImageElement fuel data 0 (inject_Z sampleStep)
       nearDuplicateThreshold = Finished []
  /\ (exists palette,
        TS.getColorPaletteFromImageElement data 0 (inject_Z sampleStep)
          nearDuplicateThreshold = Finished palette
        /\ List.length palette = 1%nat).
Proof.
  intros Hdata Hk Hfuel Hacc.
  destruct (JS_palette_integer_step data 0 nearDuplicateThreshold
              sampleStep fuel Hdata Hk Hfuel)
    as (m & total & Hs & Hok & Htotal & Hjs).
  assert (Hne : (total =? 0) = false).
  { apply Z.eqb_neq. rewrite Htotal.
    destruct (acceptedPixels data (inject_Z sampleStep));
      [congruence | simpl; lia]. }
  assert (Hjs0 : JS.getColorPaletteFromImageElement fuel data 0
                   (inject_Z sampleStep) nearDuplicateThreshold
                 = Finished []).
  { rewrite Hjs, Hne. unfold JS.limitedColors.
    change (ToInteger 0) with 0. now rewrite Array_slice0_zero. }
  split; [exact Hjs0|]. split.
  - rewrite JSNaN_refines_JS; [exact Hjs0|]. rewrite Hjs0. discriminate.
  - destruct (paletteSize_clamped data 0 (inject_Z sampleStep)
                nearDuplicateThreshold Hdata Hacc)
      as (palette & Hget & H1 & Hmax & _).
    exists palette. split; [exact Hget|].
    change (Z.max 1 (Math_floor 0)) with 1 in Hmax. lia.
Qed.

Lemma JS_paletteSize_0_returns_nothing_witness :
  isImageData image2x2 = true
  /\ 1 <= 1 /\ (List.length image2x2 <= 16)%nat
  /\ acceptedPixels image2x2 (inject_Z 1) <> []
  /\ ltac:(match type of (JS_paletteSize_0_returns_nothing image2x2 50 1 16)
           with _ -> _ -> _ -> _ -> ?C => exact C end).
Proof.
  assert (H1 : 1 <= 1) by lia.
  assert (H2 : (List.length image2x2 <= 16)%nat) by (simpl; lia).
  split; [reflexivity|]. split; [exact H1|]. split; [exact H2|].
  split; [exact image2x2_accepted|].
  exact (JS_paletteSize_0_returns_nothing image2x2 50 1 16 eq_refl H1 H2
           image2x2_accepted).
Defined.

(** C7 fails in the JavaScript file: on the fully transparent 1x1 image no
    sample is accepted, and with [sampleStep = 0] the TypeScript file
    returns the empty palette while the JavaScript file never leaves its
    loop and so returns nothing, whatever the fuel, in either model of the
    file. *)
Theorem JS_never_returns_on_transparent_image :
  isImageData transparentPixel = true
  /\ acceptedPixels transparentPixel 0 = []
  /\ TS.getColorPaletteFromImageElement transparentPixel 10 0 50
     = Finished []
  /\ (forall fuel : nat,
        JS.getColorPaletteFromImageElement fuel transparentPixel 10 0 50
        = OutOfFuel)
  /\ (forall fuel : nat,
        JSNaN.getColorPaletteFromImageElement fuel transparentPixel 10 0 50
        = OutOfFuel).
Proof.
  assert (HJ : forall fuel : nat,
             JS.getColorPaletteFromImageElement fuel transparentPixel 10 0 50
             = OutOfFuel).
  { intros fuel. unfold JS.getColorPaletteFromImageElement.
    rewrite (JS_zero_step_never_ends transparentPixel fuel eq_refl);
      [reflexivity | discriminate]. }
  split; [reflexivity|]. split; [reflexivity|].
  split; [vm_compute; reflexivity|]. split; [exact HJ|].
  intros fuel. rewrite JSNaN_refines_JS; [apply HJ|].
  rewrite HJ. discriminate.
Qed.

(** C8 fails in the JavaScript file: with [sampleStep = 1/2] the loop
    counter goes 0, 2, 4; at 2 on the 1x1 white image it reads red 255,
    green 255 and two [undefined] values for blue and alpha, accepts the
    pixel, and the bucket's blue sum is NaN.  The palette has the colours
    ["#ffffff"] and ["#ffffNaN"], the second of 8 characters and no
    hexadecimal colour.  The TypeScript file, whose step is
    [Math.max(1, Math.floor(1/2)) = 1], returns ["#ffffff"] alone. *)
Theorem JS_half_step_returns_NaN_colour :
  isImageData whitePixel = true
  /\ (forall extra : nat,
        exists palette,
          JSNaN.getColorPaletteFromImageElement (2 + extra) whitePixel
            10 (1 # 2) 50 = Finished palette
          /\ map PaletteColor.paletteColor palette
             = ["#ffffff"; "#ffffNaN"]%string
          /\ ~ Forall hexShaped palette)
  /\ String.length "#ffffNaN" = 8%nat
  /\ isHexColor "#ffffNaN" = false
  /\ (exists palette,
        TS.getColorPaletteFromImageElement whitePixel 10 (1 # 2) 50
        = Finished palette
        /\ map PaletteColor.paletteColor palette = ["#ffffff"]%string
        /\ Forall hexShaped palette).
Proof.
  split; [reflexivity|]. split; [|split; [reflexivity|split; [reflexivity|]]].
  - intros extra. eexists.
    split; [eapply JSNaN_palette_of_sample;
            [apply JSNaN_sampleLoop_more_fuel; vm_compute; reflexivity
            | discriminate]|].
    assert (Hhex : map PaletteColor.paletteColor
                     (map JSNaN.toPaletteColor
                        (JSNaN.limitedColors
                           [(4095, JSNaN.mkEntry 1 (JSNaN.Int 255)
                                     (JSNaN.Int 255) (JSNaN.Int 255));
                            (4080, JSNaN.mkEntry 1 (JSNaN.Int 255)
                                     (JSNaN.Int 255) JSNaN.NaN)] 10 50))
                   = ["#ffffff"; "#ffffNaN"]%string).
    { rewrite JSNaN_palette_hex. vm_compute. reflexivity. }
    split; [exact Hhex|].
    intros Hall. apply (Forall_map PaletteColor.paletteColor
                          (fun s => String.length s = 7%nat
                                    /\ isHexColor s = true)) in Hall.
    rewrite Hhex in Hall.
    inversion Hall as [|? ? _ Hrest]; subst.
    inversion Hrest as [|? ? [Hlen _] _]; subst.
    vm_compute in Hlen. discriminate.
  - eexists. split; [run_TS|].
    assert (Hhex : map PaletteColor.paletteColor
                     (map TS.toPaletteColor
                        (TS.limitedColors
                           [(4095, mkEntry 1 255 255 255)] 10 50))
                   = ["#ffffff"]%string).
    { rewrite TS_palette_hex. vm_compute. reflexivity. }
    split; [exact Hhex|].
    apply (Forall_map PaletteColor.paletteColor
             (fun s => String.length s = 7%nat /\ isHexColor s = true)).
    rewrite Hhex. repeat constructor.
Qed.

(** At the threshold [Math.sqrt(3)] the rounding of the distance decides:
    the two greys are a root of 3 apart, which is more than the double
    nearest to it, and the source, comparing that double with the
    threshold, merges them. *)
Lemma merge_follows_rounded_distance :
  let threshold := Math_sqrt 3 in
  (Q2R threshold < sqrt 3)%R
  /\ colorDistance grey16 grey15 = threshold
  /\ mergeSimilarColors [grey15; grey16] threshold
     = [absorb grey15 grey16].
Proof.
  cbv zeta. split; [|split; [reflexivity|]].
  - assert (H0 : (0 <= Q2R (Math_sqrt 3))%R).
    { replace 0%R with (Q2R 0) by (unfold Q2R; simpl; lra).
      apply Qle_Rle, Math_sqrt_nonneg. }
    assert (Hsq : (Q2R (Math_sqrt 3) * Q2R (Math_sqrt 3) < 3)%R).
    { rewrite <- Q2R_mult.
      change 3%R with (IZR 3). rewrite <- (Q2R_inject_Z 3).
      apply Qlt_Rlt. vm_compute. reflexivity. }
    rewrite <- (sqrt_square (Q2R (Math_sqrt 3))) by exact H0.
    apply sqrt_lt_1_alt. split; [|exact Hsq].
    now apply Rmult_le_pos.
  - unfold mergeSimilarColors. cbn [fold_left]. unfold mergeOne at 2.
    cbn [scanClusters app]. unfold mergeOne. cbn [scanClusters].
    assert (Hw : withinThreshold grey16 grey15 (Math_sqrt 3) = true)
      by (vm_compute; reflexivity).
    now rewrite Hw.
Qed.
